(** * nextai: the documentation synchronization pipeline

    A shallow embedding of the embedding-generation script of the repository
    (content discovery, MDX segmentation, reconciliation against the page
    store, and the driver loop) and of the modules that stand beside it,
    followed by the properties the specification states about it and by
    further properties of the code.

    Layout: the definitions come first, in the order of the source file; the
    lemmas and theorems follow, those of the specification in Part II, the
    others in Part III. *)

From Stdlib Require Import String Ascii List Bool Arith ZArith Lia Permutation.
From Stdlib Require Import DecimalString DecimalNat Sorted.
Import ListNotations.
Open Scope string_scope.
Open Scope list_scope.

Set Warnings "-register-all".

(* ================================================================== *)
(** * Part I: definitions *)
(* ================================================================== *)

(** ** Strings and arrays of JavaScript *)

(** [array.includes(x)] on an array of strings. *)
Definition includes (array : list string) (x : string) : bool :=
  existsb (String.eqb x) array.

(** [/\.mdx?$/.test(s)]: some suffix of [s] is exactly [.md] or [.mdx]. *)
Fixpoint test_mdx_extension (s : string) : bool :=
  (s =? ".mdx") || (s =? ".md") ||
  match s with
  | EmptyString => false
  | String _ rest => test_mdx_extension rest
  end.

(** [s.replace(/\.mdx?$/, '')]: the match, if any, is cut off. *)
Fixpoint replace_mdx_extension (s : string) : string :=
  if (s =? ".mdx") || (s =? ".md") then ""
  else match s with
       | EmptyString => EmptyString
       | String c rest => String c (replace_mdx_extension rest)
       end.

(** [s.replace(/^docs/, '')]. *)
Definition replace_docs_prefix (s : string) : string :=
  match s with
  | String "d" (String "o" (String "c" (String "s" rest))) => rest
  | _ => s
  end.

(** [content.replace(/\n/g, ' ')]. *)
Fixpoint replace_newlines (s : string) : string :=
  match s with
  | EmptyString => EmptyString
  | String c rest =>
      String (if Ascii.eqb c "010" then " "%char else c) (replace_newlines rest)
  end.

(** Decimal rendering of a number inside a template literal or a [+]. *)
Definition number_to_string (n : nat) : string :=
  NilEmpty.string_of_uint (Nat.to_uint n).

(** A value that may be undefined, written into a text by a template
    literal: [undefined] is spelled out. *)
Definition show_undefined (o : option string) : string :=
  match o with
  | Some s => s
  | None => "undefined"
  end.

(** [path.join(dir, name)] for a directory path that is already normalized
    and does not end with a separator, and a name that is one plain segment,
    as the names of a listing of the content host are: there is nothing for
    [path.join] to normalize, and the segments are joined by one separator. *)
Definition join (dir name : string) : string := dir ++ "/" ++ name.

(** [Promise.all]: all the results, or the rejection of one of them. *)
Fixpoint promise_all {A : Type} (ps : list (option A)) : option (list A) :=
  match ps with
  | [] => Some []
  | p :: rest =>
      match p, promise_all rest with
      | Some a, Some r => Some (a :: r)
      | _, _ => None
      end
  end.

(** The last element of an array, [xs.slice(-1)[0]]. *)
Fixpoint last_opt {A : Type} (xs : list A) : option A :=
  match xs with
  | [] => None
  | [x] => Some x
  | _ :: rest => last_opt rest
  end.

(** ** config.ts *)

Definition ignoredDirectories : list string := ["03-pages"].
Definition ignoredFiles : list string :=
  ["_app.mdx"; "_document.mdx"; "_error.mdx"].

(** ** types.ts *)

(** One item of a directory listing of the content host.  A directory item
    carries the answer the host gives when that directory is listed in turn:
    its own items, or [None] when the request fails. *)
Inductive GithubFile : Type :=
| File (name : string)
| Dir (name : string) (listing : option (list GithubFile)).

Definition file_name (f : GithubFile) : string :=
  match f with File n => n | Dir n _ => n end.

Definition is_type_dir (f : GithubFile) : bool :=
  match f with Dir _ _ => true | File _ => false end.

Definition is_type_file (f : GithubFile) : bool :=
  match f with File _ => true | Dir _ _ => false end.

Record WalkEntry : Type := mkWalkEntry {
  entry_path : string;
  entry_parentPath : option string;
}.

Record Section_ : Type := mkSection {
  content : string;
  heading : option string;
  slug : option string;
}.

(** ** The syntax trees of the libraries: [estree] and [mdast] *)

(** The [value] of a [Literal] node.  A numeric literal is kept by an
    integer: the script only ever asks whether the value is falsy. *)
Inductive LiteralValue : Type :=
| StringValue (s : string)
| NumberValue (n : Z)
| BooleanValue (b : bool)
| NullValue
| RegExpValue (pattern flags : string)
| BigIntValue (n : Z).

Inductive Expression : Type :=
| Literal (value : LiteralValue)
| Identifier (name : string)
| ObjectExpression (properties : list ObjectMember)
| OtherExpression (type : string)
with ObjectMember : Type :=
| Property (key : Expression) (value : Expression)
| SpreadElement (argument : Expression).

Record VariableDeclarator : Type := mkDeclarator {
  declarator_id : Expression;
  declarator_init : option Expression;
}.

Inductive Declaration : Type :=
| VariableDeclaration (declarations : list VariableDeclarator)
| OtherDeclaration (type : string).

Inductive Statement : Type :=
| ExportNamedDeclaration (declaration : option Declaration)
| OtherStatement (type : string).

(** A node of the markdown tree: its [type], its [value] when it is a
    literal node, [data.estree.body] when the parser attached a program,
    and its [children]. *)
Inductive Node : Type :=
| mkNode (type : string) (value : option string)
         (estree : option (list Statement)) (children : list Node).

Definition node_type (n : Node) : string :=
  match n with mkNode t _ _ _ => t end.
Definition node_estree (n : Node) : option (list Statement) :=
  match n with mkNode _ _ e _ => e end.
Definition node_children (n : Node) : list Node :=
  match n with mkNode _ _ _ cs => cs end.

(** The [meta] object: keys in insertion order, [None] for [undefined]. *)
Definition Meta : Type := list (string * option LiteralValue).

Record ProcessedMdx : Type := mkProcessedMdx {
  checksum : string;
  meta : option Meta;
  sections : list Section_;
}.

(** ** What the script takes from its libraries and from the environment

    None of these is code of the repository.  They are kept abstract: every
    statement below holds whatever they compute. *)

Class Externals : Type := {
  (** [process.env.GITHUB_URL || '.../contents/'] *)
  GITHUB_URL : string;
  (** [process.env.OPENAI_MODEL || 'text-embedding-ada-002'] *)
  OPENAI_MODEL : string;
  (** the three settings [generateEmbeddings] insists on *)
  SUPABASE_URL : string;
  SUPABASE_SERVICE_ROLE_KEY : string;
  OPENAI_KEY : string;
  (** [String.prototype.localeCompare] *)
  localeCompare : string -> string -> comparison;
  (** the first [content.replace] of [processMdxForSearch], which unwraps
      an inline tag written after [title:] *)
  unwrapTitleTag : string -> string;
  (** [createHash('sha256').update(content).digest('base64')] *)
  sha256_base64 : string -> string;
  (** [slug(value)] of github-slugger: lower-casing, removal of the
      characters of its regular expression, blanks to dashes *)
  github_slug : string -> string;
  (** [fromMarkdown(content, ...)] with the MDX extensions; [None] when it
      throws on a document it cannot parse *)
  fromMarkdown : string -> option Node;
  (** [toMarkdown(tree)] *)
  toMarkdown : Node -> string;
  (** [toString(node)] of mdast-util-to-string *)
  toString : Node -> string;
}.

(** ** Content discovery: [walk] *)

Section Discovery.
Context {X : Externals}.

(** [entries.sort((a, b) => a.path.localeCompare(b.path))], a stable sort. *)
Fixpoint sort_insert (e : WalkEntry) (sorted : list WalkEntry) : list WalkEntry :=
  match sorted with
  | [] => [e]
  | e' :: rest =>
      match localeCompare (entry_path e) (entry_path e') with
      | Gt => e' :: sort_insert e rest
      | _ => e :: e' :: rest
      end
  end.

Definition sort_by_path (entries : list WalkEntry) : list WalkEntry :=
  fold_right sort_insert [] entries.

(** The callback of [files.map] in [walk], for one item of the listing of
    [dir]; the recursive call of [walk] is unfolded in place. *)
Fixpoint walk_file (dir : string) (parentPath : option string)
         (file : GithubFile) {struct file} : option (list WalkEntry) :=
  let path := join dir (file_name file) in
  let isDir := is_type_dir file in
  let isFile := is_type_file file in
  let isIgnoredDir := includes ignoredDirectories (file_name file) && is_type_dir file in
  let isIgnoredFile := includes ignoredFiles (file_name file) && is_type_file file in
  let isIgnored := isIgnoredDir || isIgnoredFile in
  let hasMdxFileExtension := test_mdx_extension (file_name file) && is_type_file file in
  if (isDir && isIgnored) || (isFile && isIgnored) then Some []
  else if isDir && negb isIgnored then
    match file with
    | Dir _ (Some files) =>
        option_map (fun entries => sort_by_path (concat entries))
                   (promise_all (map (walk_file path parentPath) files))
    | Dir _ None => None
    | File _ => Some []
    end
  else if isFile && negb isIgnored && hasMdxFileExtension then
    Some [mkWalkEntry path parentPath]
  else Some [].

(** [walk(dir, parentPath)], given the answer of the host for [dir]. *)
Definition walk (dir : string) (parentPath : option string)
           (response : option (list GithubFile)) : option (list WalkEntry) :=
  match response with
  | None => None
  | Some files =>
      option_map (fun entries => sort_by_path (concat entries))
                 (promise_all (map (walk_file dir parentPath) files))
  end.

(** The variant of the second script, [walkGithubDirectory(dir)]. *)
Fixpoint walkGithubDirectory_file (dir : string) (file : GithubFile)
         {struct file} : option (list WalkEntry) :=
  let path := join dir (file_name file) in
  let isDir := is_type_dir file in
  let isFile := is_type_file file in
  let isIgnoredDir := includes ignoredDirectories (file_name file) && isDir in
  let isIgnoredFile := includes ignoredFiles (file_name file) && isFile in
  let isIgnored := isIgnoredDir || isIgnoredFile in
  let hasMdxFileExtension := test_mdx_extension (file_name file) && isFile in
  if isIgnored then Some []
  else if isDir then
    match file with
    | Dir _ (Some files) =>
        option_map (fun entries => sort_by_path (concat entries))
                   (promise_all (map (walkGithubDirectory_file path) files))
    | Dir _ None => None
    | File _ => Some []
    end
  else if isFile && hasMdxFileExtension then
    Some [mkWalkEntry path (Some dir)]
  else Some [].

Definition walkGithubDirectory (dir : string)
           (response : option (list GithubFile)) : option (list WalkEntry) :=
  match response with
  | None => None
  | Some files =>
      option_map (fun entries => sort_by_path (concat entries))
                 (promise_all (map (walkGithubDirectory_file dir) files))
  end.

End Discovery.

(** The directories whose listing the walkers ask for and are refused, in
    the order of the listings: [dir] itself, or a directory that is not
    ignored, under directories that are listed and not ignored. *)
Fixpoint refused_file (dir : string) (file : GithubFile) {struct file} : list string :=
  match file with
  | File _ => []
  | Dir name listing =>
      if includes ignoredDirectories name then []
      else match listing with
           | None => [join dir name]
           | Some files => flat_map (refused_file (join dir name)) files
           end
  end.

Definition refused (dir : string) (response : option (list GithubFile)) : list string :=
  match response with
  | None => [dir]
  | Some files => flat_map (refused_file dir) files
  end.

(** Of [first] and [others], the one that comes earliest, and the first
    of those that do when several come at the same moment. *)
Fixpoint earliest (moment : string -> nat) (first : string) (others : list string) : string :=
  match others with
  | [] => first
  | d :: rest => earliest moment (if Nat.ltb (moment d) (moment first) then d else first) rest
  end.

(** ** Metadata: [getObjectFromExpression] and [extractMetaExport] *)

(** Truthiness of a literal value, as [&&] and [||] see it. *)
Definition truthy (v : LiteralValue) : bool :=
  match v with
  | StringValue s => negb (s =? "")
  | NumberValue n => negb (n =? 0)%Z
  | BooleanValue b => b
  | NullValue => false
  | RegExpValue _ _ => true
  | BigIntValue n => negb (n =? 0)%Z
  end.

(** [{ ...object, [key]: value }]: an existing key keeps its place. *)
Fixpoint object_set (object : Meta) (key : string) (value : option LiteralValue) : Meta :=
  match object with
  | [] => [(key, value)]
  | (k, v) :: rest =>
      if k =? key then (k, value) :: rest
      else (k, v) :: object_set rest key value
  end.

(** [object[key]], with [None] when the object has no such key. *)
Fixpoint object_get (object : Meta) (key : string) : option (option LiteralValue) :=
  match object with
  | [] => None
  | (k, v) :: rest => if k =? key then Some v else object_get rest key
  end.

(** The callback of the [reduce] in [getObjectFromExpression]. *)
Definition getObjectFromExpression_step (object : Meta) (property : ObjectMember) : Meta :=
  match property with
  | SpreadElement _ => object
  | Property pkey pvalue =>
      let key :=
        match pkey with
        | Identifier name => if name =? "" then None else Some name
        | _ => None
        end in
      let value :=
        match pvalue with
        | Literal v => if truthy v then Some v else None
        | _ => None
        end in
      match key with
      | None => object
      | Some key => object_set object key value
      end
  end.

(** [getObjectFromExpression(node)], on [node.properties]. *)
Definition getObjectFromExpression (properties : list ObjectMember) : Meta :=
  fold_left getObjectFromExpression_step properties [].

(** The first declarator of [export const ... = ...] at the head of the
    program of an [mdxjsEsm] node. *)
Definition first_exported_declarator (node : Node) : option VariableDeclarator :=
  match node_estree node with
  | Some (ExportNamedDeclaration (Some (VariableDeclaration (d :: _))) :: _) => Some d
  | _ => None
  end.

(** The predicate given to [children.find] in [extractMetaExport]. *)
Definition is_meta_export (node : Node) : bool :=
  (node_type node =? "mdxjsEsm") &&
  match first_exported_declarator node with
  | Some d =>
      match declarator_id d with
      | Identifier name => name =? "meta"
      | _ => false
      end
  | None => false
  end.

Definition extractMetaExport (mdxTree : Node) : option Meta :=
  match find is_meta_export (node_children mdxTree) with
  | None => None
  | Some metaExportNode =>
      let objectExpression :=
        match first_exported_declarator metaExportNode with
        | Some d =>
            match declarator_id d, declarator_init d with
            | Identifier name, Some (ObjectExpression properties) =>
                if name =? "meta" then Some properties else None
            | _, _ => None
            end
        | None => None
        end in
      match objectExpression with
      | None => None
      | Some properties => Some (getObjectFromExpression properties)
      end
  end.

(** ** Segmentation: [filter], [splitTreeBy], the slugger *)

(** [u(type, children)] of unist-builder. *)
Definition u (type : string) (children : list Node) : Node :=
  mkNode type None None children.

(** [lastTree.children.push(node)]. *)
Definition push_child (tree : Node) (node : Node) : Node :=
  match tree with
  | mkNode t v e cs => mkNode t v e (cs ++ [node])
  end.

(** [filter(tree, test)] of unist-util-filter, with its default [cascade]:
    a node that fails the test goes with its subtree, and a parent all of
    whose children went goes too. *)
Fixpoint unist_filter (test : Node -> bool) (node : Node) {struct node} : option Node :=
  if test node then
    match node with
    | mkNode t v e cs =>
        let children :=
          flat_map (fun c => match unist_filter test c with
                             | Some c' => [c']
                             | None => []
                             end) cs in
        if (0 <? List.length cs)%nat && (List.length children =? 0)%nat then None
        else Some (mkNode t v e children)
    end
  else None.

Definition mdx_node_types : list string :=
  ["mdxjsEsm"; "mdxJsxFlowElement"; "mdxJsxTextElement";
   "mdxFlowExpression"; "mdxTextExpression"].

Definition is_heading (node : Node) : bool := node_type node =? "heading".

(** The callback of the [reduce] in [splitTreeBy].  The last tree of
    [trees] is the very object that [push] extends. *)
Definition splitTreeBy_step (predicate : Node -> bool)
           (trees : list Node) (node : Node) : list Node :=
  match last_opt trees with
  | None => trees ++ [u "root" [node]]
  | Some lastTree =>
      if predicate node then trees ++ [u "root" [node]]
      else removelast trees ++ [push_child lastTree node]
  end.

Definition splitTreeBy (tree : Node) (predicate : Node -> bool) : list Node :=
  fold_left (splitTreeBy_step predicate) (node_children tree) [].

(** The class [GithubSlugger] of github-slugger: [occurrences] maps every
    slug handed out so far to the number of times it was asked for again. *)
Module GithubSlugger.

Definition t : Type := list (string * nat).

(** [new GithubSlugger()] *)
Definition new : t := [].

(** [own.call(occurrences, key)] *)
Definition has (occurrences : t) (key : string) : bool :=
  existsb (fun kv => fst kv =? key) occurrences.

(** [occurrences[key]] of a key that is there *)
Fixpoint get (occurrences : t) (key : string) : nat :=
  match occurrences with
  | [] => 0
  | (k, n) :: rest => if k =? key then n else get rest key
  end.

(** [occurrences[key]++] of a key that is there *)
Fixpoint increment (occurrences : t) (key : string) : t :=
  match occurrences with
  | [] => []
  | (k, n) :: rest =>
      if k =? key then (k, S n) :: rest else (k, n) :: increment rest key
  end.

(** [occurrences[key] = 0] of a key that is not there *)
Definition add (occurrences : t) (key : string) : t :=
  occurrences ++ [(key, 0)].

(** The [while] loop of [slug], unrolled at most [fuel] times; [None]
    when that is not enough. *)
Fixpoint slug_loop (fuel : nat) (occurrences : t)
         (originalSlug result : string) : option (string * t) :=
  if has occurrences result then
    match fuel with
    | 0 => None
    | S fuel' =>
        let occurrences' := increment occurrences originalSlug in
        slug_loop fuel' occurrences' originalSlug
          (originalSlug ++ "-" ++ number_to_string (get occurrences' originalSlug))
    end
  else Some (result, occurrences).

Section Slug.
Context {X : Externals}.

(** [slugger.slug(value)].  The loop is given one more round than there
    are keys, which is always enough ([slug_returns] below). *)
Definition slug (occurrences : t) (value : string) : option (string * t) :=
  let originalSlug := github_slug value in
  match slug_loop (S (List.length occurrences)) occurrences originalSlug originalSlug with
  | Some (result, occurrences') => Some (result, add occurrences' result)
  | None => None
  end.
End Slug.

End GithubSlugger.

(** ** [processMdxForSearch] *)

Inductive Exn : Type :=
| AxiosError (url : string)
| MdxSyntaxError
| TypeError
| FetchPageError
| DeletePageSectionError
| DeletePageError
| FetchParentPageError
| UpsertPageError
| EmbeddingError (input : string)
| InsertPageSectionError (input : string)
| UpdatePageError.

Inductive Result (A : Type) : Type :=
| Ok (a : A)
| Throw (e : Exn).
Arguments Ok {A} a.
Arguments Throw {A} e.

Section Mdx.
Context {X : Externals}.

(** The callback of [sectionTrees.map], run over the trees in order with
    the one slugger of the document.  [None] stands for an abnormal end:
    a tree without a first node, or a slugger loop cut short; neither
    arises on the trees [splitTreeBy] returns ([sections_of_returns]). *)
Fixpoint sections_of (slugger : GithubSlugger.t) (sectionTrees : list Node)
  : option (list Section_) :=
  match sectionTrees with
  | [] => Some []
  | tree :: rest =>
      match node_children tree with
      | [] => None
      | firstNode :: _ =>
          let heading :=
            if node_type firstNode =? "heading" then Some (toString firstNode)
            else None in
          let slugged :=
            match heading with
            | Some h =>
                if h =? "" then Some (None, slugger)
                else option_map (fun r => (Some (fst r), snd r))
                                (GithubSlugger.slug slugger h)
            | None => Some (None, slugger)
            end in
          match slugged with
          | None => None
          | Some (slug, slugger') =>
              option_map (cons (mkSection (toMarkdown tree) heading slug))
                         (sections_of slugger' rest)
          end
      end
  end.

(** What [processMdxForSearch] does once the text is parsed. *)
Definition processMdxTree (checksum : string) (mdxTree : Node) : Result ProcessedMdx :=
  let meta := extractMetaExport mdxTree in
  match unist_filter (fun node => negb (includes mdx_node_types (node_type node))) mdxTree with
  | None => Ok (mkProcessedMdx checksum meta [])
  | Some mdTree =>
      let sectionTrees := splitTreeBy mdTree is_heading in
      match sections_of GithubSlugger.new sectionTrees with
      | Some sections => Ok (mkProcessedMdx checksum meta sections)
      | None => Throw TypeError
      end
  end.

Definition processMdxForSearch (content : string) : Result ProcessedMdx :=
  let content := if content =? "" then content else unwrapTitleTag content in
  let checksum := sha256_base64 content in
  match fromMarkdown content with
  | None => Throw MdxSyntaxError
  | Some mdxTree => processMdxTree checksum mdxTree
  end.

End Mdx.

(** ** The embedding sources *)

Record GithubEmbeddingSource : Type := mkGithubEmbeddingSource {
  source : string;
  path : string;
  parentPath : option string;
  filePath : string;
  parentFilePath : option string;
  source_type : string;
}.

(** The constructor of [GithubEmbeddingSource]. *)
Definition new_GithubEmbeddingSource (source filePath : string)
           (parentFilePath : option string) : GithubEmbeddingSource :=
  let path := replace_mdx_extension (replace_docs_prefix filePath) in
  let parentPath :=
    option_map (fun p => replace_mdx_extension (replace_docs_prefix p)) parentFilePath in
  mkGithubEmbeddingSource source path parentPath filePath parentFilePath "github".

(** ** The page store *)

(** An embedding vector; its components are never looked at. *)
Definition Embedding : Type := list Z.

Record PageRecord : Type := mkPage {
  page_id : nat;
  page_path : string;
  page_checksum : option string;
  page_type : option string;
  page_source : option string;
  page_meta : option Meta;
  parent_page_id : option nat;
}.

Record PageSectionRecord : Type := mkPageSection {
  section_page_id : nat;
  section_slug : option string;
  section_heading : option string;
  section_content : string;
  section_token_count : nat;
  section_embedding : Embedding;
}.

(** The two tables, and the serial that numbers new pages. *)
Record Store : Type := mkStore {
  nods_page : list PageRecord;
  nods_page_section : list PageSectionRecord;
  next_page_id : nat;
}.

(** [.from('nods_page').select(...).filter('path', 'eq', path).limit(1)
    .maybeSingle()].  The client writes the value into the query with a
    template literal, [eq.${value}]: an undefined path is sought as the
    text [undefined]. *)
Definition select_page (path : option string) (st : Store) : option PageRecord :=
  find (fun p => String.eqb (page_path p) (show_undefined path)) (nods_page st).

(** The joined column [parentPage:parent_page_id(id, path)]. *)
Definition select_parentPage (page : PageRecord) (st : Store) : option PageRecord :=
  match parent_page_id page with
  | None => None
  | Some i => find (fun p => Nat.eqb (page_id p) i) (nods_page st)
  end.

(** [.from('nods_page_section').delete().filter('page_id', 'eq', id)] *)
Definition delete_page_sections (id : nat) (st : Store) : Store :=
  mkStore (nods_page st)
          (filter (fun r => negb (Nat.eqb (section_page_id r) id)) (nods_page_section st))
          (next_page_id st).

(** A property whose value is [undefined] is not sent to the store at all:
    the column keeps what it has (and is null in a new row). *)
Definition sent {A : Type} (value : option A) (column : option A) : option A :=
  match value with
  | Some v => Some v
  | None => column
  end.

(** The row written by [upsert({checksum: null, path, type, source, meta,
    parent_page_id})] over a row [p] with that path. *)
Definition upserted_over (p : PageRecord) (type source : string)
           (meta : option Meta) (parent : option nat) : PageRecord :=
  mkPage (page_id p) (page_path p) None (Some type) (Some source)
         (sent meta (page_meta p)) (sent parent (parent_page_id p)).

(** [.upsert({...}, { onConflict: 'path' }).select().limit(1).single()] *)
Definition upsert_page (path type source : string) (meta : option Meta)
           (parent : option nat) (st : Store) : PageRecord * Store :=
  match find (fun p => String.eqb (page_path p) path) (nods_page st) with
  | Some p =>
      (upserted_over p type source meta parent,
       mkStore (map (fun q => if String.eqb (page_path q) path
                              then upserted_over q type source meta parent
                              else q) (nods_page st))
               (nods_page_section st) (next_page_id st))
  | None =>
      let page := mkPage (next_page_id st) path None (Some type) (Some source)
                         meta parent in
      (page,
       mkStore (nods_page st ++ [page]) (nods_page_section st)
               (S (next_page_id st)))
  end.

(** [.from('nods_page_section').insert({...})] *)
Definition insert_page_section (r : PageSectionRecord) (st : Store) : Store :=
  mkStore (nods_page st) (nods_page_section st ++ [r]) (next_page_id st).

Definition set_checksum (c : option string) (p : PageRecord) : PageRecord :=
  mkPage (page_id p) (page_path p) c (page_type p) (page_source p)
         (page_meta p) (parent_page_id p).

Definition set_parent (parent : option nat) (p : PageRecord) : PageRecord :=
  mkPage (page_id p) (page_path p) (page_checksum p) (page_type p)
         (page_source p) (page_meta p) parent.

(** [.from('nods_page').update({ checksum }).filter('id', 'eq', id)] *)
Definition update_page_checksum (id : nat) (c : string) (st : Store) : Store :=
  mkStore (map (fun p => if Nat.eqb (page_id p) id then set_checksum (Some c) p else p)
               (nods_page st))
          (nods_page_section st) (next_page_id st).

(** [.from('nods_page').update({ parent_page_id }).filter('id', 'eq', id)] *)
Definition update_page_parent (id : nat) (parent : option nat) (st : Store) : Store :=
  mkStore (map (fun p => if Nat.eqb (page_id p) id
                         then set_parent (sent parent (parent_page_id p)) p
                         else p)
               (nods_page st))
          (nods_page_section st) (next_page_id st).

(** ** The outside world, and the calls made to it *)

(** What the collaborators answer.  The first argument is the number of
    calls made so far, so that any call may fail whatever came before. *)
Record World : Type := mkWorld {
  (** the listing of [docs] by the content host *)
  github_contents : option (list GithubFile);
  (** for a directory whose listing the host refuses, the moment at which
      the refusal arrives *)
  listing_refused_at : string -> nat;
  (** [axios.get(url)] of a document: its text, or [None] when it throws *)
  axios_get : nat -> string -> option string;
  (** [openai.createEmbedding({ model, input })]: the vector and
      [usage.total_tokens], or [None] when the call throws or its status
      is not 200 *)
  createEmbedding : nat -> string -> string -> option (Embedding * nat);
  (** whether the store answers this call with an [error] *)
  supabase_error : nat -> bool;
}.

Inductive Event : Type :=
| AxiosGet (url : string)
| SelectPage (path : option string)
| DeleteAllPageSections
| DeleteAllPages
| DeletePageSections (page_id : nat)
| UpsertPage (path : string)
| CreateEmbedding (model input : string)
| InsertPageSection (page_id : nat) (section : Section_)
| UpdatePageParent (page_id : nat) (parent : option nat)
| UpdatePageChecksum (page_id : nat) (checksum : string)
| ConsoleLog (message : string)
| ConsoleError (message : string)
| ConsoleErrorExn (e : Exn).

Definition is_embedding_call (e : Event) : bool :=
  match e with
  | CreateEmbedding _ _ => true
  | _ => false
  end.

Definition is_store_mutation (e : Event) : bool :=
  match e with
  | DeleteAllPageSections | DeleteAllPages | DeletePageSections _
  | UpsertPage _ | InsertPageSection _ _
  | UpdatePageParent _ _ | UpdatePageChecksum _ _ => true
  | _ => false
  end.

(** The state the script runs in: the store, and the count of the calls
    made to the collaborators. *)
Record State : Type := mkState {
  store : Store;
  clock : nat;
}.

(** An asynchronous computation: from a state to a result or a thrown
    exception, the state it leaves, and the calls and log lines it made. *)
Definition M (A : Type) : Type := State -> Result A * State * list Event.

Definition ret {A : Type} (a : A) : M A := fun s => (Ok a, s, []).

Definition throw {A : Type} (e : Exn) : M A := fun s => (Throw e, s, []).

Definition bind {A B : Type} (m : M A) (k : A -> M B) : M B :=
  fun s =>
    match m s with
    | (Ok a, s1, log1) =>
        match k a s1 with
        | (r, s2, log2) => (r, s2, log1 ++ log2)
        end
    | (Throw e, s1, log1) => (Throw e, s1, log1)
    end.

Notation "x <- m ;; k" := (bind m (fun x => k))
  (at level 61, m at next level, right associativity).
Notation "m ;;; k" := (bind m (fun _ => k))
  (at level 61, right associativity).

(** [try { m } catch (err) { handler(err) }] *)
Definition try_catch {A : Type} (m : M A) (handler : Exn -> M A) : M A :=
  fun s =>
    match m s with
    | (Ok a, s1, log1) => (Ok a, s1, log1)
    | (Throw e, s1, log1) =>
        match handler e s1 with
        | (r, s2, log2) => (r, s2, log1 ++ log2)
        end
    end.

(** [for (const x of xs) { body(x) }], one [await]ed round after the other. *)
Fixpoint for_of {A : Type} (xs : list A) (body : A -> M unit) : M unit :=
  match xs with
  | [] => ret tt
  | x :: rest => body x ;;; for_of rest body
  end.

Definition lift {A : Type} (r : Result A) : M A :=
  match r with
  | Ok a => ret a
  | Throw e => throw e
  end.

Definition console_log (message : string) : M unit :=
  fun s => (Ok tt, s, [ConsoleLog message]).

Definition console_error (message : string) : M unit :=
  fun s => (Ok tt, s, [ConsoleError message]).

Definition console_error_exn (e : Exn) : M unit :=
  fun s => (Ok tt, s, [ConsoleErrorExn e]).

Section Calls.
Variable w : World.

(** The rejection of [walk(dir)].  [Promise.all] rejects as soon as one of
    its promises does, with the reason of that one, and so does every
    [walk] above it, while the other requests are still on their way: the
    reason is the error of the request that is refused first.  (When the
    walk fails, at least one listing is refused.) *)
Definition first_refused (dir : string) : string :=
  match refused dir (github_contents w) with
  | [] => dir
  | d :: others => earliest (listing_refused_at w) d others
  end.

(** One call to the store: [query] is what the call does when the store
    does not answer with an error; the script throws the error [err]. *)
Definition supabase {A : Type} (e : Event) (err : Exn)
           (query : Store -> A * Store) : M A :=
  fun s =>
    if supabase_error w (clock s) then
      (Throw err, mkState (store s) (S (clock s)), [e])
    else
      let (a, st) := query (store s) in
      (Ok a, mkState st (S (clock s)), [e]).

Definition http_get (url : string) : M string :=
  fun s =>
    match axios_get w (clock s) url with
    | Some data => (Ok data, mkState (store s) (S (clock s)), [AxiosGet url])
    | None => (Throw (AxiosError url), mkState (store s) (S (clock s)), [AxiosGet url])
    end.

Definition openai_createEmbedding (model input : string) : M (Embedding * nat) :=
  fun s =>
    match createEmbedding w (clock s) model input with
    | Some response =>
        (Ok response, mkState (store s) (S (clock s)), [CreateEmbedding model input])
    | None =>
        (Throw (EmbeddingError input), mkState (store s) (S (clock s)),
         [CreateEmbedding model input])
    end.
End Calls.

(** ** Reconciliation and the driver: [generateEmbeddings] *)

Section Reconcile.
Context {X : Externals}.
Variable w : World.

(** [const shouldRefresh = false] *)
Definition shouldRefresh : bool := false.

(** [embeddingSource.load()] *)
Definition load (embeddingSource : GithubEmbeddingSource) : M ProcessedMdx :=
  contents <- http_get w (GITHUB_URL ++ filePath embeddingSource) ;;
  lift (processMdxForSearch contents).

(** The page selected by path, with its joined parent page. *)
Definition select_existingPage (path : string) (st : Store)
  : option (PageRecord * option PageRecord) :=
  option_map (fun p => (p, select_parentPage p st)) (select_page (Some path) st).

(** [existingPage?.checksum === checksum] *)
Definition checksum_matches (existing : option (PageRecord * option PageRecord))
           (checksum : string) : bool :=
  match existing with
  | Some (existingPage, _) =>
      match page_checksum existingPage with
      | Some c => String.eqb c checksum
      | None => false
      end
  | None => false
  end.

(** [existingParentPage?.path !== parentPath] *)
Definition parent_differs (existingParentPage : option PageRecord)
           (parentPath : option string) : bool :=
  match option_map page_path existingParentPage, parentPath with
  | Some a, Some b => negb (String.eqb a b)
  | None, None => false
  | _, _ => true
  end.

Definition fetch_parentPage (parentPath : option string) : M (option PageRecord) :=
  supabase w (SelectPage parentPath) FetchParentPageError
           (fun st => (select_page parentPath st, st)).

(** The branch taken when the checksums agree: relink the parent page if
    it changed, then [continue]. *)
Definition relink (path : string) (parentPath : option string)
           (existing : option (PageRecord * option PageRecord)) : M unit :=
  match existing with
  | None => throw TypeError
  | Some (existingPage, existingParentPage) =>
      if parent_differs existingParentPage parentPath then
        console_log ("[" ++ path ++ "] Parent page has changed. Updating to '"
                     ++ show_undefined parentPath ++ "'...") ;;;
        parentPage <- fetch_parentPage parentPath ;;
        supabase w (UpdatePageParent (page_id existingPage) (option_map page_id parentPage))
                 UpdatePageError
                 (fun st => (tt, update_page_parent (page_id existingPage)
                                                    (option_map page_id parentPage) st))
      else ret tt
  end.

(** One round of the loop over [sections]: the embedding of the section,
    then its row, inside the inner [try]. *)
Definition embed_section (path : string) (page : PageRecord) (section : Section_) : M unit :=
  let input := replace_newlines (content section) in
  try_catch
    (embeddingResponse <- openai_createEmbedding w OPENAI_MODEL input ;;
     supabase w (InsertPageSection (page_id page) section)
              (InsertPageSectionError input)
              (fun st => (tt, insert_page_section
                                (mkPageSection (page_id page) (slug section)
                                               (heading section) (content section)
                                               (snd embeddingResponse)
                                               (fst embeddingResponse)) st)))
    (fun err =>
       console_error ("Failed to generate embeddings for '" ++ path
                      ++ "' page section starting with '"
                      ++ substring 0 40 input ++ "...'") ;;;
       throw err).

(** The rest of the [try] block, when the page is new or has changed. *)
Definition regenerate (embeddingSource : GithubEmbeddingSource)
           (doc : ProcessedMdx)
           (existing : option (PageRecord * option PageRecord)) : M unit :=
  match existing with
  | Some (existingPage, _) =>
      console_log ("[" ++ path embeddingSource ++ "] "
                   ++ (if shouldRefresh then "Refresh flag set"
                       else "Docs have changed")
                   ++ ", removing old page sections and their embeddings") ;;;
      supabase w (DeletePageSections (page_id existingPage)) DeletePageSectionError
               (fun st => (tt, delete_page_sections (page_id existingPage) st))
  | None => ret tt
  end ;;;
  parentPage <- fetch_parentPage (parentPath embeddingSource) ;;
  page <- supabase w (UpsertPage (path embeddingSource)) UpsertPageError
                   (upsert_page (path embeddingSource) (source_type embeddingSource)
                                (source embeddingSource) (meta doc)
                                (option_map page_id parentPage)) ;;
  console_log ("[" ++ path embeddingSource ++ "] Adding "
               ++ number_to_string (List.length (sections doc))
               ++ " page sections (with embeddings)") ;;;
  for_of (sections doc) (embed_section (path embeddingSource) page) ;;;
  supabase w (UpdatePageChecksum (page_id page) (checksum doc)) UpdatePageError
           (fun st => (tt, update_page_checksum (page_id page) (checksum doc) st)).

(** The [try] block of the loop of [generateEmbeddings]: the
    reconciliation of one source against the store. *)
Definition reconcile (embeddingSource : GithubEmbeddingSource) : M unit :=
  doc <- load embeddingSource ;;
  existing <- supabase w (SelectPage (Some (path embeddingSource))) FetchPageError
                       (fun st => (select_existingPage (path embeddingSource) st, st)) ;;
  if negb shouldRefresh && checksum_matches existing (checksum doc) then
    relink (path embeddingSource) (parentPath embeddingSource) existing
  else
    regenerate embeddingSource doc existing.

(** The body of the loop: the [try] block and its [catch]. *)
Definition reconcile_guarded (embeddingSource : GithubEmbeddingSource) : M unit :=
  try_catch (reconcile embeddingSource)
    (fun err =>
       console_error ("Page '" ++ path embeddingSource
                      ++ "' or one/multiple of its page sections failed to store properly. Page has been marked with null checksum to indicate that it needs to be re-generated.") ;;;
       console_error_exn err).

(** [for (const embeddingSource of embeddingSources) { try ... catch ... }] *)
Definition reconcile_all (embeddingSources : list GithubEmbeddingSource) : M unit :=
  for_of embeddingSources reconcile_guarded.

Definition embeddingSources_of (entries : list WalkEntry) : list GithubEmbeddingSource :=
  map (fun entry => new_GithubEmbeddingSource "guide" (entry_path entry) None)
      (filter (fun entry => test_mdx_extension (entry_path entry)) entries).

Definition generateEmbeddings : M unit :=
  if (SUPABASE_URL =? "") || (SUPABASE_SERVICE_ROLE_KEY =? "") || (OPENAI_KEY =? "") then
    console_log "Environment variables NEXT_PUBLIC_SUPABASE_URL, SUPABASE_SERVICE_ROLE_KEY, and OPENAI_KEY are required: skipping embeddings generation"
  else
    (if shouldRefresh then
       console_log "Refresh flag set, deleting existing data..." ;;;
       supabase w DeleteAllPageSections DeletePageSectionError
                (fun st => (tt, mkStore (nods_page st) [] (next_page_id st))) ;;;
       supabase w DeleteAllPages DeletePageError
                (fun st => (tt, mkStore [] (nods_page_section st) (next_page_id st)))
     else console_log "Checking which pages are new or have changed") ;;;
    entries <- match walk "docs" None (github_contents w) with
               | Some entries => ret entries
               | None => throw (AxiosError (GITHUB_URL ++ first_refused w "docs"))
               end ;;
    let embeddingSources := embeddingSources_of entries in
    console_log ("Discovered " ++ number_to_string (List.length embeddingSources)
                 ++ " pages") ;;;
    (if shouldRefresh then console_log "Refresh flag set, re-generating all pages"
     else console_log "Checking which pages are new or have changed") ;;;
    reconcile_all embeddingSources ;;;
    console_log "Embedding generation complete".

End Reconcile.

(** ** Stand-ins for the libraries, and sample inputs, for the worked examples *)

Definition lower (c : ascii) : ascii :=
  let n := nat_of_ascii c in
  if (65 <=? n)%nat && (n <=? 90)%nat then ascii_of_nat (n + 32) else c.

Fixpoint sample_slug (s : string) : string :=
  match s with
  | EmptyString => EmptyString
  | String c rest =>
      String (if Ascii.eqb c " " then "-"%char else lower c) (sample_slug rest)
  end.

Fixpoint split_lines (s : string) : list string :=
  match s with
  | EmptyString => [EmptyString]
  | String c rest =>
      if Ascii.eqb c "010" then EmptyString :: split_lines rest
      else match split_lines rest with
           | [] => [String c EmptyString]
           | line :: lines => String c line :: lines
           end
  end.

(** A toy parser: one node per line that is not empty, a heading when the
    line starts with one or two number signs and a blank. *)
Definition sample_node_of_line (line : string) : Node :=
  match line with
  | String "#" (String " " text) => mkNode "heading" (Some text) None []
  | String "#" (String "#" (String " " text)) => mkNode "heading" (Some text) None []
  | _ => mkNode "paragraph" (Some line) None []
  end.

Definition sample_fromMarkdown (content : string) : option Node :=
  Some (mkNode "root" None None
               (map sample_node_of_line
                    (filter (fun line => negb (line =? "")) (split_lines content)))).

Definition sample_toString (node : Node) : string :=
  match node with
  | mkNode _ (Some v) _ _ => v
  | mkNode _ None _ _ => ""
  end.

Definition sample_toMarkdown (tree : Node) : string :=
  String.concat (String "010" EmptyString) (map sample_toString (node_children tree)).

Definition sample_externals : Externals := {|
  GITHUB_URL := "https://api.github.com/repos/vercel/next.js/contents/";
  OPENAI_MODEL := "text-embedding-ada-002";
  SUPABASE_URL := "https://example.supabase.co";
  SUPABASE_SERVICE_ROLE_KEY := "service-role-key";
  OPENAI_KEY := "sk-key";
  localeCompare := String.compare;
  unwrapTitleTag := fun content => content;
  sha256_base64 := fun content => content;
  github_slug := sample_slug;
  fromMarkdown := sample_fromMarkdown;
  toMarkdown := sample_toMarkdown;
  toString := sample_toString;
|}.

Definition sample_docs : list GithubFile :=
  [ Dir "01-app" (Some [File "intro.mdx"; File "notes.txt"]);
    Dir "03-pages" (Some [File "legacy.mdx"]);
    File "index.mdx";
    File "_app.mdx" ].

(** ** Vocabulary of the statements *)

(** The listing in which every ignored directory, at any depth, answers
    with a failure instead of its items. *)
Fixpoint seal_ignored (file : GithubFile) : GithubFile :=
  match file with
  | File name => File name
  | Dir name listing =>
      if includes ignoredDirectories name then Dir name None
      else Dir name (option_map (map seal_ignored) listing)
  end.

(** [listed_in dir files d name]: the file [name] is an item of the listing
    of the directory [d], which is [dir] itself or is reached from the
    listing [files] of [dir] through directories that are not ignored. *)
Inductive listed_in : string -> list GithubFile -> string -> string -> Prop :=
| listed_here dir files name :
    In (File name) files ->
    listed_in dir files dir name
| listed_below dir files sub items d name :
    In (Dir sub (Some items)) files ->
    includes ignoredDirectories sub = false ->
    listed_in (join dir sub) items d name ->
    listed_in dir files d name.

(** The key under which [getObjectFromExpression] files a member of the
    object literal, if it files it at all. *)
Definition member_key (m : ObjectMember) : option string :=
  match m with
  | Property (Identifier name) _ => if name =? "" then None else Some name
  | _ => None
  end.

(** The value [getObjectFromExpression] keeps of an expression. *)
Definition retained (e : Expression) : option LiteralValue :=
  match e with
  | Literal v => if truthy v then Some v else None
  | _ => None
  end.

(** [exports_meta node init]: the node is an ESM block whose program begins
    with [export const meta = init], [meta] being the first name that
    statement declares.  What the statement declares after it, and what
    follows the statement in the block, does not matter; nor does the kind
    of the declaration, [const], [let] or [var]. *)
Inductive exports_meta : Node -> option Expression -> Prop :=
| exports_meta_first value init declarators statements children :
    exports_meta
      (mkNode "mdxjsEsm" value
              (Some (ExportNamedDeclaration
                       (Some (VariableDeclaration
                                (mkDeclarator (Identifier "meta") init :: declarators)))
                     :: statements))
              children)
      init.

(** [export const meta = { title: 'Intro', draft: false }] as the parser
    hands it over. *)
Definition sample_meta_tree : Node :=
  mkNode "root" None None
    [mkNode "mdxjsEsm" (Some "export const meta = { title: 'Intro', draft: false }")
       (Some [ExportNamedDeclaration
                (Some (VariableDeclaration
                         [mkDeclarator (Identifier "meta")
                            (Some (ObjectExpression
                                     [Property (Identifier "title") (Literal (StringValue "Intro"));
                                      Property (Identifier "draft") (Literal (BooleanValue false))]))]))])
       []].

(** The keys of [occurrences]: the slugs handed out so far. *)
Definition slug_keys (occurrences : GithubSlugger.t) : list string :=
  map fst occurrences.

(** The slug tried after [n] collisions. *)
Definition suffixed (originalSlug : string) (n : nat) : string :=
  originalSlug ++ "-" ++ number_to_string n.

(** The slugs of the sections that have one. *)
Definition defined_slugs (sections : list Section_) : list string :=
  flat_map (fun s => match slug s with Some x => [x] | None => [] end) sections.

(** A tree as [splitTreeBy] makes them: a root with a first node, followed
    by nodes that do not satisfy the predicate. *)
Definition section_tree (predicate : Node -> bool) (tree : Node) : Prop :=
  exists first rest,
    tree = u "root" (first :: rest) /\ Forall (fun n => predicate n = false) rest.

(** A tree whose first node satisfies the predicate. *)
Definition opened_by (predicate : Node -> bool) (tree : Node) : Prop :=
  exists first rest,
    node_children tree = first :: rest /\ predicate first = true.

Section MdxVocabulary.
Context {X : Externals}.

(** The heading [processMdxForSearch] gives the section of a tree. *)
Definition section_heading_of (tree : Node) : option string :=
  match node_children tree with
  | first :: _ => if is_heading first then Some (toString first) else None
  | [] => None
  end.

(** The slugs of a sequence of headings, drawn in order from one slugger. *)
Fixpoint slug_headings (slugger : GithubSlugger.t) (headings : list (option string))
  : option (list (option string)) :=
  match headings with
  | [] => Some []
  | heading :: rest =>
      let slugged :=
        match heading with
        | Some h =>
            if h =? "" then Some (None, slugger)
            else option_map (fun r => (Some (fst r), snd r))
                            (GithubSlugger.slug slugger h)
        | None => Some (None, slugger)
        end in
      match slugged with
      | None => None
      | Some (slug, slugger') => option_map (cons slug) (slug_headings slugger' rest)
      end
  end.

End MdxVocabulary.

(** A body of two paragraphs and no heading. *)
Definition sample_plain_tree : Node :=
  mkNode "root" None None
    [mkNode "paragraph" (Some "Hello") None [];
     mkNode "paragraph" (Some "World") None []].

(** The document of the example of the specification. *)
Definition sample_document : string :=
  "# Intro
Hello

## Usage
Do X

## Usage
Do Y
".

(** [post m s Q]: what [m] returns or throws from the state [s], the state
    it leaves and the calls it made satisfy [Q]. *)
Definition post {A : Type} (m : M A) (s : State)
           (Q : Result A -> State -> list Event -> Prop) : Prop :=
  match m s with
  | (r, s', log) => Q r s' log
  end.

(** The section a row of [nods_page_section] was written from. *)
Definition section_of_row (r : PageSectionRecord) : Section_ :=
  mkSection (section_content r) (section_heading r) (section_slug r).


(** The calls of a loop over [sections] that runs to its end: for each
    section in turn, its embedding and then its row. *)
Definition section_events {X : Externals} (page_id : nat) (sections : list Section_)
  : list Event :=
  flat_map (fun section =>
              [CreateEmbedding OPENAI_MODEL (replace_newlines (content section));
               InsertPageSection page_id section]) sections.

(** What a run of the loop over [sections] for the page [page_id], ended
    or cut short, can log. *)
Definition loop_event (page_id : nat) (e : Event) : Prop :=
  match e with
  | CreateEmbedding _ _ => True
  | InsertPageSection id _ => id = page_id
  | ConsoleError _ => True
  | _ => False
  end.

(** The line the [catch] of the driver logs for a source. *)
Definition failure_message (embeddingSource : GithubEmbeddingSource) : string :=
  "Page '" ++ path embeddingSource
  ++ "' or one/multiple of its page sections failed to store properly. Page has been marked with null checksum to indicate that it needs to be re-generated.".

(** The constraints the store enforces on its tables: page ids are unique
    and below the serial, and a section row belongs to a page numbered
    below the serial. *)
Definition store_wf (st : Store) : Prop :=
  NoDup (map page_id (nods_page st)) /\
  Forall (fun p => page_id p < next_page_id st) (nods_page st) /\
  Forall (fun r => section_page_id r < next_page_id st) (nods_page_section st).

(** The address [load] fetches a source from. *)
Definition source_url {X : Externals} (embeddingSource : GithubEmbeddingSource) : string :=
  GITHUB_URL ++ filePath embeddingSource.

(** What one run of the loop over the sections of a page does, whether it
    reaches its end or is cut short by a failed embedding or a failed
    insertion: the pages are not touched, rows of this page are appended. *)
Definition loop_outcome {X : Externals} (page : PageRecord) (secs : list Section_) (s : State)
           (r : Result unit) (s' : State) (log : list Event) : Prop :=
  nods_page (store s') = nods_page (store s) /\
  next_page_id (store s') = next_page_id (store s) /\
  Forall (loop_event (page_id page)) log /\
  exists rows,
    nods_page_section (store s') = nods_page_section (store s) ++ rows /\
    Forall (fun row => section_page_id row = page_id page) rows /\
    match r with
    | Ok _ => log = section_events (page_id page) secs /\ map section_of_row rows = secs
    | Throw e => exists input, e = EmbeddingError input \/ e = InsertPageSectionError input
    end.

Definition is_fetch (e : Event) : bool :=
  match e with
  | AxiosGet _ => true
  | _ => false
  end.

(** What the reconciliation of a source can log after the fetch of its
    file: the pages it selects are its own, by its normalized path, and its
    parent, by the normalized parent path; the page it upserts is its own. *)
Definition reconcile_event (embeddingSource : GithubEmbeddingSource) (e : Event) : Prop :=
  match e with
  | AxiosGet _ => False
  | SelectPage key =>
      key = Some (path embeddingSource) \/ key = parentPath embeddingSource
  | UpsertPage key => key = path embeddingSource
  | DeleteAllPageSections | DeleteAllPages => False
  | ConsoleErrorExn _ => False
  | _ => True
  end.

(** A source is reconciled in a store when its page carries the checksum of
    a document the host served for it. *)
Definition reconciled {X : Externals} (w : World) (d : GithubEmbeddingSource)
           (st : Store) : Prop :=
  exists t contents doc p,
    axios_get w t (source_url d) = Some contents /\
    processMdxForSearch contents = Ok doc /\
    select_page (Some (path d)) st = Some p /\
    page_checksum p = Some (checksum doc).

(** A world where nothing fails: every file holds [sample_document]. *)
Definition sample_world : World := {|
  github_contents := Some sample_docs;
  listing_refused_at := fun _ => 0;
  axios_get := fun _ _ => Some sample_document;
  createEmbedding := fun _ _ _ => Some ([1; 2; 3]%Z, 7);
  supabase_error := fun _ => false;
|}.

(** The same world, but for the call numbered 17, which fails when it is a
    call to the embedding collaborator. *)
Definition sample_faulty_world : World := {|
  github_contents := Some sample_docs;
  listing_refused_at := fun _ => 0;
  axios_get := fun _ _ => Some sample_document;
  createEmbedding := fun t _ _ => if Nat.eqb t 17 then None else Some ([1; 2; 3]%Z, 7);
  supabase_error := fun _ => false;
|}.

Definition sample_sources : list GithubEmbeddingSource :=
  [new_GithubEmbeddingSource "guide" "docs/a.mdx" None;
   new_GithubEmbeddingSource "guide" "docs/b.mdx" None;
   new_GithubEmbeddingSource "guide" "docs/c.mdx" None].

(** An empty store, before any call. *)
Definition sample_state : State := mkState (mkStore [] [] 1) 0.


(** A store that holds the page [/index], up to date but without parent,
    and the page [/guide]. *)
Definition sample_linked_state : State :=
  mkState
    (mkStore
       [mkPage 1 "/index" (Some sample_document) (Some "github") (Some "guide") None None;
        mkPage 2 "/guide" None (Some "github") (Some "guide") None None]
       [mkPageSection 1 (Some "intro") (Some "Intro") "Intro" 7 [1; 2; 3]%Z]
       3)
    0.


(** The world where only the call numbered 3 fails, when it is a call to
    the store. *)
Definition sample_store_fault_world : World := {|
  github_contents := Some sample_docs;
  listing_refused_at := fun _ => 0;
  axios_get := fun _ _ => Some sample_document;
  createEmbedding := fun _ _ _ => Some ([1; 2; 3]%Z, 7);
  supabase_error := fun t => Nat.eqb t 3;
|}.


(** A store that holds the page [/index] with the checksum of an older
    text, and one section of it. *)
Definition sample_stale_state : State :=
  mkState
    (mkStore
       [mkPage 1 "/index" (Some "older text") (Some "github") (Some "guide") None None]
       [mkPageSection 1 (Some "intro") (Some "Intro") "Intro" 7 [1; 2; 3]%Z]
       2)
    0.

(** ** The modules beside the script *)

(** ** githubUtils.ts: the exported [walk] *)

Module GithubUtils.
Section Walk.
Context {X : Externals}.

(** The callback of [files.map], with the recursive call unfolded in place. *)
Fixpoint walk_file (dir : string) (parentPath : option string)
         (file : GithubFile) {struct file} : option (list WalkEntry) :=
  let path := join dir (file_name file) in
  let isDir := is_type_dir file in
  let isFile := is_type_file file in
  let isIgnoredDir := includes ignoredDirectories (file_name file) && is_type_dir file in
  let isIgnoredFile := includes ignoredFiles (file_name file) && is_type_file file in
  let isIgnored := isIgnoredDir || isIgnoredFile in
  let hasMdxFileExtension := test_mdx_extension (file_name file) && is_type_file file in
  if isIgnored then Some []
  else if isDir && negb isIgnored then
    match file with
    | Dir _ (Some files) =>
        option_map (fun entries => sort_by_path (concat entries))
                   (promise_all (map (walk_file path parentPath) files))
    | Dir _ None => None
    | File _ => Some []
    end
  else if isFile && negb isIgnored && hasMdxFileExtension then
    Some [mkWalkEntry path parentPath]
  else Some [].

Definition walk (dir : string) (parentPath : option string)
           (response : option (list GithubFile)) : option (list WalkEntry) :=
  match response with
  | None => None
  | Some files =>
      option_map (fun entries => sort_by_path (concat entries))
                 (promise_all (map (walk_file dir parentPath) files))
  end.

End Walk.
End GithubUtils.

(** [main().catch((err) => console.error(err))], the last line of the
    script. *)
Definition main {X : Externals} (w : World) : M unit :=
  try_catch (generateEmbeddings w) console_error_exn.

(** ** The second script

    The second script reads the members of the [meta] object with a
    conditional expression where the first uses [&&] and [||]; the rest of
    its markdown code ([splitTreeBy], the slugs) is that of the first. *)
Module Variant.

(** The callback of the [reduce] in [getObjectFromExpression]. *)
Definition getObjectFromExpression_step (object : Meta) (property : ObjectMember) : Meta :=
  match property with
  | SpreadElement _ => object
  | Property pkey pvalue =>
      let key :=
        match pkey with
        | Identifier name => Some name
        | _ => None
        end in
      let value :=
        match pvalue with
        | Literal v => Some v
        | _ => None
        end in
      match key with
      | None => object
      | Some key => if key =? "" then object else object_set object key value
      end
  end.

Definition getObjectFromExpression (properties : list ObjectMember) : Meta :=
  fold_left getObjectFromExpression_step properties [].

Definition extractMetaExport (mdxTree : Node) : option Meta :=
  match find is_meta_export (node_children mdxTree) with
  | None => None
  | Some metaExportNode =>
      let objectExpression :=
        match first_exported_declarator metaExportNode with
        | Some d =>
            match declarator_id d, declarator_init d with
            | Identifier name, Some (ObjectExpression properties) =>
                if name =? "meta" then Some properties else None
            | _, _ => None
            end
        | None => None
        end in
      match objectExpression with
      | None => None
      | Some properties => Some (getObjectFromExpression properties)
      end
  end.

Section Mdx.
Context {X : Externals}.

Definition processMdxTree (checksum : string) (mdxTree : Node) : Result ProcessedMdx :=
  let meta := extractMetaExport mdxTree in
  match unist_filter (fun node => negb (includes mdx_node_types (node_type node))) mdxTree with
  | None => Ok (mkProcessedMdx checksum meta [])
  | Some mdTree =>
      let sectionTrees := splitTreeBy mdTree is_heading in
      match sections_of GithubSlugger.new sectionTrees with
      | Some sections => Ok (mkProcessedMdx checksum meta sections)
      | None => Throw TypeError
      end
  end.

(** [processMdxForSearch] of the second script: the checksum is that of the
    text as it was fetched. *)
Definition processMdxForSearch (content : string) : Result ProcessedMdx :=
  let checksum := sha256_base64 content in
  match fromMarkdown content with
  | None => Throw MdxSyntaxError
  | Some mdxTree => processMdxTree checksum mdxTree
  end.

End Mdx.

(** *** The loop of the second script

    The second script reads only [data] of what the store answers: an
    error of the store leaves [data] null and goes unnoticed. *)

Section Reconcile.
Context {X : Externals}.
Variable w : World.

(** Whether the client hands back the row an upsert wrote when the script
    does not ask for it with [select()]: it does in its first major
    version, it does not in its second. *)
Variable returning : bool.

(** [(err as Error).message], which the libraries word. *)
Variable message_of : Exn -> string.

(** [const { data } = await supabaseClient...]: a call to the store of
    which the script reads [data] only. *)
Definition supabase_data {A : Type} (e : Event)
           (query : Store -> option A * Store) : M (option A) :=
  fun s =>
    if supabase_error w (clock s) then
      (Ok None, mkState (store s) (S (clock s)), [e])
    else
      let (a, st) := query (store s) in
      (Ok a, mkState st (S (clock s)), [e]).

(** [embeddingSource.load()]: the file is asked for under [this.path], the
    normalized path. *)
Definition load (embeddingSource : GithubEmbeddingSource) : M ProcessedMdx :=
  contents <- http_get w (GITHUB_URL ++ path embeddingSource) ;;
  lift (processMdxForSearch contents).

(** One round of the loop over [sections].  [page] is the one row that
    [single()] made of the answer, an object: [page[0]] is undefined, and
    reading its [id] throws before [insert] is called. *)
Definition embed_section (page : PageRecord) (section : Section_) : M unit :=
  let input := replace_newlines (content section) in
  embeddingResponse <- openai_createEmbedding w OPENAI_MODEL input ;;
  throw TypeError.

(** [existingPage?.checksum === checksum] *)
Definition checksum_matches (existingPage : option PageRecord) (checksum : string) : bool :=
  match existingPage with
  | Some p =>
      match page_checksum p with
      | Some c => String.eqb c checksum
      | None => false
      end
  | None => false
  end.

(** The [try] block of the loop. *)
Definition reconcile (embeddingSource : GithubEmbeddingSource) : M unit :=
  doc <- load embeddingSource ;;
  existingPage <- supabase_data (SelectPage (Some (path embeddingSource)))
                    (fun st => (select_page (Some (path embeddingSource)) st, st)) ;;
  if checksum_matches existingPage (checksum doc) && negb shouldRefresh then ret tt
  else
    match existingPage with
    | Some p =>
        supabase_data (DeletePageSections (page_id p))
                      (fun st => (Some tt, delete_page_sections (page_id p) st)) ;;;
        ret tt
    | None => ret tt
    end ;;;
    page <- supabase_data (UpsertPage (path embeddingSource))
              (fun st =>
                 let (p, st') := upsert_page (path embeddingSource)
                                             (source_type embeddingSource)
                                             (source embeddingSource) (meta doc) None st in
                 (if returning then Some p else None, st')) ;;
    match page with
    | Some p => for_of (sections doc) (embed_section p)
    | None => ret tt
    end.

Definition reconcile_guarded (embeddingSource : GithubEmbeddingSource) : M unit :=
  try_catch (reconcile embeddingSource)
    (fun err =>
       console_error ("Error processing page " ++ path embeddingSource ++ ": "
                      ++ message_of err)).

Definition reconcile_all (embeddingSources : list GithubEmbeddingSource) : M unit :=
  for_of embeddingSources reconcile_guarded.

Definition generateEmbeddings : M unit :=
  if (SUPABASE_URL =? "") || (SUPABASE_SERVICE_ROLE_KEY =? "") || (OPENAI_KEY =? "") then
    console_log "Environment variables SUPABASE_URL, SUPABASE_SERVICE_ROLE_KEY, and OPENAI_KEY are required: skipping embeddings generation"
  else
    (if shouldRefresh then
       console_log "Refresh flag set, deleting existing data..." ;;;
       supabase_data DeleteAllPageSections
                     (fun st => (Some tt, mkStore (nods_page st) [] (next_page_id st))) ;;;
       supabase_data DeleteAllPages
                     (fun st => (Some tt, mkStore [] (nods_page_section st) (next_page_id st))) ;;;
       ret tt
     else console_log "Checking which pages are new or have changed") ;;;
    entries <- match walkGithubDirectory "docs" (github_contents w) with
               | Some entries => ret entries
               | None => throw (AxiosError (GITHUB_URL ++ first_refused w "docs"))
               end ;;
    let embeddingSources := embeddingSources_of entries in
    console_log ("Discovered " ++ number_to_string (List.length embeddingSources)
                 ++ " pages") ;;;
    reconcile_all embeddingSources ;;;
    console_log "Embedding generation complete".

End Reconcile.
End Variant.

(** ** mdxUtils.ts

    The module holds the markdown code of the script once more, word for
    word, but for the heading of a section, which it takes with
    [firstNode.toString()]: the method every object inherits, not the
    function of mdast-util-to-string. *)
Module MdxUtils.

(** [Object.prototype.toString.call(node)] for a node of the tree, a plain
    object. *)
Definition Object_toString (node : Node) : string := "[object Object]".

Section Mdx.
Context {X : Externals}.

Fixpoint sections_of (slugger : GithubSlugger.t) (sectionTrees : list Node)
  : option (list Section_) :=
  match sectionTrees with
  | [] => Some []
  | tree :: rest =>
      match node_children tree with
      | [] => None
      | firstNode :: _ =>
          let heading :=
            if node_type firstNode =? "heading" then Some (Object_toString firstNode)
            else None in
          let slugged :=
            match heading with
            | Some h =>
                if h =? "" then Some (None, slugger)
                else option_map (fun r => (Some (fst r), snd r))
                                (GithubSlugger.slug slugger h)
            | None => Some (None, slugger)
            end in
          match slugged with
          | None => None
          | Some (slug, slugger') =>
              option_map (cons (mkSection (toMarkdown tree) heading slug))
                         (sections_of slugger' rest)
          end
      end
  end.

Definition processMdxTree (checksum : string) (mdxTree : Node) : Result ProcessedMdx :=
  let meta := extractMetaExport mdxTree in
  match unist_filter (fun node => negb (includes mdx_node_types (node_type node))) mdxTree with
  | None => Ok (mkProcessedMdx checksum meta [])
  | Some mdTree =>
      let sectionTrees := splitTreeBy mdTree is_heading in
      match sections_of GithubSlugger.new sectionTrees with
      | Some sections => Ok (mkProcessedMdx checksum meta sections)
      | None => Throw TypeError
      end
  end.

Definition processMdxForSearch (content : string) : Result ProcessedMdx :=
  let content := if content =? "" then content else unwrapTitleTag content in
  let checksum := sha256_base64 content in
  match fromMarkdown content with
  | None => Throw MdxSyntaxError
  | Some mdxTree => processMdxTree checksum mdxTree
  end.

End Mdx.
End MdxUtils.

(** ** embeddingUtils.ts *)
Module EmbeddingUtils.

(** A section object, with the [embedding] the function stores on it. *)
Definition EmbeddedSection : Type := (Section_ * option Embedding)%type.

Section WithWorld.
Context {X : Externals}.
Variable w : World.

(** The loop of [generateEmbeddings] over [sections], from the call
    numbered [t].  The sections are the objects of the caller: the second
    component is what they hold when the loop ends or throws. *)
Fixpoint embed_sections (t : nat) (sections : list EmbeddedSection)
  : Result unit * list EmbeddedSection * nat * list Event :=
  match sections with
  | [] => (Ok tt, [], t, [])
  | (section, embedding) :: rest =>
      let input := replace_newlines (content section) in
      match createEmbedding w t OPENAI_MODEL input with
      | Some (responseEmbedding, _) =>
          match embed_sections (S t) rest with
          | (r, rest', t', log) =>
              (r, (section, Some responseEmbedding) :: rest', t',
               CreateEmbedding OPENAI_MODEL input :: log)
          end
      | None =>
          (Throw (EmbeddingError input), (section, embedding) :: rest, S t,
           [CreateEmbedding OPENAI_MODEL input;
            ConsoleError ("Failed to generate embeddings for section starting with '"
                          ++ substring 0 40 input ++ "...'")])
      end
  end.

(** [generateEmbeddings(processedMdx)]: when it does not throw, it returns
    the array [sections] itself, the second component. *)
Definition generateEmbeddings (processedMdx : ProcessedMdx) (t : nat)
  : Result unit * list EmbeddedSection * nat * list Event :=
  embed_sections t (map (fun section => (section, None)) (sections processedMdx)).

End WithWorld.
End EmbeddingUtils.

(** ** supabaseUtils.ts *)
Module SupabaseUtils.
Section WithWorld.
Variable w : World.

Definition deleteExistingData : M unit :=
  supabase w DeleteAllPageSections DeletePageSectionError
           (fun st => (tt, mkStore (nods_page st) [] (next_page_id st))) ;;;
  supabase w DeleteAllPages DeletePageError
           (fun st => (tt, mkStore [] (nods_page_section st) (next_page_id st))).

End WithWorld.
End SupabaseUtils.

(** ** Vocabulary of the further properties *)

(** A file the walkers keep: not on the list of ignored files, and named
    with the extension of a document. *)
Definition eligible (name : string) : bool :=
  negb (includes ignoredFiles name) && test_mdx_extension name.

(** An item whose listing the walkers ask for and do not get: a directory
    that is not ignored and cannot be listed, or that holds such an item. *)
Fixpoint unlistable (file : GithubFile) : bool :=
  match file with
  | File _ => false
  | Dir name listing =>
      negb (includes ignoredDirectories name) &&
      match listing with
      | None => true
      | Some items => existsb unlistable items
      end
  end.

(** The order of the manifest: [a] does not come after [b]. *)
Definition path_le {X : Externals} (a b : WalkEntry) : Prop :=
  localeCompare (entry_path a) (entry_path b) <> Gt.

(** The rows of the section table that belong to the page [id]. *)
Definition rows_of (id : nat) (rows : list PageSectionRecord) : list PageSectionRecord :=
  filter (fun row => Nat.eqb (section_page_id row) id) rows.

(** The foreign key of the section table: every row belongs to a page that
    is there. *)
Definition no_orphans (st : Store) : Prop :=
  Forall (fun row => In (section_page_id row) (map page_id (nods_page st)))
         (nods_page_section st).

(** None of the three settings [generateEmbeddings] insists on is empty. *)
Definition configured {X : Externals} : bool :=
  negb ((SUPABASE_URL =? "") || (SUPABASE_SERVICE_ROLE_KEY =? "") || (OPENAI_KEY =? "")).

(** The test [processMdxForSearch] filters the tree with. *)
Definition not_mdx (node : Node) : bool :=
  negb (includes mdx_node_types (node_type node)).

(** Every node of the tree, at any depth, passes [test]. *)
Fixpoint every_node (test : Node -> bool) (node : Node) {struct node} : bool :=
  test node &&
  match node with
  | mkNode _ _ _ cs => forallb (every_node test) cs
  end.

(** The slugger after the slug [g] was asked for [S k] times, and no
    other. *)
Definition counted (g : string) (k : nat) : GithubSlugger.t :=
  (g, k) :: map (fun i => (suffixed g i, 0)) (seq 1 k).

(** The slugs handed out for one value asked for [n] times: the slug
    itself, then the slug with the suffixes [-1], [-2] and so on. *)
Definition counted_slugs (g : string) (n : nat) : list string :=
  match n with
  | 0 => []
  | S m => g :: map (suffixed g) (seq 1 m)
  end.

(** The values that are defined, in order. *)
Definition defined {A : Type} (l : list (option A)) : list A :=
  flat_map (fun o => match o with Some a => [a] | None => [] end) l.

(** The externals with [toString] replaced by the method of [Object]. *)
Definition with_Object_toString (X : Externals) : Externals := {|
  GITHUB_URL := @GITHUB_URL X;
  OPENAI_MODEL := @OPENAI_MODEL X;
  SUPABASE_URL := @SUPABASE_URL X;
  SUPABASE_SERVICE_ROLE_KEY := @SUPABASE_SERVICE_ROLE_KEY X;
  OPENAI_KEY := @OPENAI_KEY X;
  localeCompare := @localeCompare X;
  unwrapTitleTag := @unwrapTitleTag X;
  sha256_base64 := @sha256_base64 X;
  github_slug := @github_slug X;
  fromMarkdown := @fromMarkdown X;
  toMarkdown := @toMarkdown X;
  toString := MdxUtils.Object_toString;
|}.

(** The value the second script keeps of an expression. *)
Definition kept (e : Expression) : option LiteralValue :=
  match e with
  | Literal v => Some v
  | _ => None
  end.

(** The input of the embedding of a section. *)
Definition embedding_input (section : Section_) : string :=
  replace_newlines (content section).

(** The calls that store a result of the work: the row of a section, or
    the checksum that marks a page as done. *)
Definition stores_a_result (e : Event) : bool :=
  match e with
  | InsertPageSection _ _ | UpdatePageChecksum _ _ => true
  | _ => false
  end.

(** What a run of the loop, of one source or of all, leaves: nothing was
    stored of the work, the section table has lost rows at most, and a page
    that is not as it was has a null checksum. *)
Definition fruitless (calls : nat) (fetches : list Event)
           (s : State) (s' : State) (log : list Event) : Prop :=
  Forall (fun e => stores_a_result e = false) log /\
  incl (nods_page_section (store s')) (nods_page_section (store s)) /\
  (forall p, In p (nods_page (store s')) ->
             page_checksum p = None \/ In p (nods_page (store s))) /\
  List.length (filter is_embedding_call log) <= calls /\
  filter is_fetch log = fetches.

(** The lines the script writes with [console.error]. *)
Definition is_error_line (e : Event) : bool :=
  match e with
  | ConsoleError _ | ConsoleErrorExn _ => true
  | _ => false
  end.

(** A world in which no call fails, and every source of [sources] is
    served a text the parser accepts. *)
Definition unfailing {X : Externals} (w : World) (sources : list GithubEmbeddingSource) : Prop :=
  (forall t, supabase_error w t = false) /\
  (forall t model input, createEmbedding w t model input <> None) /\
  (forall t d, In d sources ->
     exists fetched document,
       axios_get w t (source_url d) = Some fetched /\
       processMdxForSearch fetched = Ok document).

(** Three sections under the same heading. *)
Definition sample_repetitive_document : string :=
  "# Usage
First

# Usage
Second

# Usage
Third
".

(* ================================================================== *)
(** * Part II: lemmas and theorems *)
(* ================================================================== *)

(** ** Induction over listings *)

Fixpoint GithubFile_ind' (P : GithubFile -> Prop)
         (Hfile : forall name, P (File name))
         (Hfail : forall name, P (Dir name None))
         (Hdir : forall name items, Forall P items -> P (Dir name (Some items)))
         (file : GithubFile) {struct file} : P file :=
  match file with
  | File name => Hfile name
  | Dir name None => Hfail name
  | Dir name (Some items) =>
      Hdir name items
           ((fix all (l : list GithubFile) : Forall P l :=
               match l with
               | [] => Forall_nil P
               | f :: rest =>
                   Forall_cons f (@GithubFile_ind' P Hfile Hfail Hdir f) (all rest)
               end) items)
  end.

(** ** Content discovery *)

Section DiscoveryFacts.
Context {X : Externals}.

Lemma sort_insert_In (e x : WalkEntry) (l : list WalkEntry) :
  In x (sort_insert e l) <-> x = e \/ In x l.
Proof.
  induction l as [|e' l IH]; simpl.
  - intuition congruence.
  - destruct (localeCompare (entry_path e) (entry_path e')); simpl;
      rewrite ?IH; intuition congruence.
Qed.

Lemma sort_by_path_In (x : WalkEntry) (l : list WalkEntry) :
  In x (sort_by_path l) <-> In x l.
Proof.
  induction l as [|e l IH]; simpl; [tauto|].
  rewrite sort_insert_In, IH. intuition congruence.
Qed.

Lemma promise_all_Some {A : Type} (ps : list (option A)) (rs : list A) :
  promise_all ps = Some rs -> ps = map Some rs.
Proof.
  revert rs; induction ps as [|p ps IH]; simpl; intros rs H.
  - now inversion H.
  - destruct p as [a|]; [|discriminate].
    destruct (promise_all ps) as [r|]; [|discriminate].
    inversion H; subst; simpl. now rewrite (IH r eq_refl).
Qed.

Lemma promise_all_ext {A B : Type} (f g : A -> option B) (l : list A) :
  Forall (fun a => f a = g a) l ->
  promise_all (map f l) = promise_all (map g l).
Proof.
  induction 1 as [|a l Ha _ IH]; simpl; [reflexivity|].
  now rewrite Ha, IH.
Qed.

(** Membership in the result of one level of [walk]. *)
Lemma In_walk_level {A : Type} (f : A -> option (list WalkEntry)) (l : list A)
      (entries : list WalkEntry) (e : WalkEntry) :
  option_map (fun es => sort_by_path (concat es)) (promise_all (map f l)) = Some entries ->
  In e entries ->
  exists a es, In a l /\ f a = Some es /\ In e es.
Proof.
  intros H He.
  destruct (promise_all (map f l)) as [ess|] eqn:E; [|discriminate].
  simpl in H. inversion H; subst; clear H.
  apply (proj1 (sort_by_path_In _ _)) in He. apply in_concat in He.
  destruct He as (es & Hes & Hin).
  apply promise_all_Some in E.
  assert (In (Some es) (map f l)) as Hm.
  { rewrite E. now apply in_map. }
  apply in_map_iff in Hm. destruct Hm as (a & Ha & Hl).
  now exists a, es.
Qed.

Lemma walk_file_Dir (dir : string) (parentPath : option string)
      (name : string) (listing : option (list GithubFile)) :
  walk_file dir parentPath (Dir name listing) =
  if includes ignoredDirectories name then Some []
  else walk (join dir name) parentPath listing.
Proof.
  cbn [walk_file walkGithubDirectory_file file_name is_type_dir is_type_file].
  rewrite ?andb_true_r, ?andb_false_r, ?orb_false_r.
  destruct (includes ignoredDirectories name); cbn [andb orb negb].
  - reflexivity.
  - now destruct listing.
Qed.

Lemma walk_file_File (dir : string) (parentPath : option string) (name : string) :
  walk_file dir parentPath (File name) =
  if includes ignoredFiles name then Some []
  else if test_mdx_extension name then Some [mkWalkEntry (join dir name) parentPath]
       else Some [].
Proof.
  cbn [walk_file walkGithubDirectory_file file_name is_type_dir is_type_file].
  rewrite ?andb_true_r, ?andb_false_r, ?orb_false_r, ?orb_false_l.
  destruct (includes ignoredFiles name); cbn [andb orb negb]; [reflexivity|].
  now destruct (test_mdx_extension name).
Qed.

Lemma walkGithubDirectory_file_Dir (dir name : string)
      (listing : option (list GithubFile)) :
  walkGithubDirectory_file dir (Dir name listing) =
  if includes ignoredDirectories name then Some []
  else walkGithubDirectory (join dir name) listing.
Proof.
  cbn [walk_file walkGithubDirectory_file file_name is_type_dir is_type_file].
  rewrite ?andb_true_r, ?andb_false_r, ?orb_false_r.
  destruct (includes ignoredDirectories name); cbn [andb orb negb].
  - reflexivity.
  - now destruct listing.
Qed.

Lemma walkGithubDirectory_file_File (dir name : string) :
  walkGithubDirectory_file dir (File name) =
  if includes ignoredFiles name then Some []
  else if test_mdx_extension name then Some [mkWalkEntry (join dir name) (Some dir)]
       else Some [].
Proof.
  cbn [walk_file walkGithubDirectory_file file_name is_type_dir is_type_file].
  rewrite ?andb_true_r, ?andb_false_r, ?orb_false_r, ?orb_false_l.
  destruct (includes ignoredFiles name); cbn [andb orb negb]; [reflexivity|].
  now destruct (test_mdx_extension name).
Qed.

Lemma walk_file_seal (file : GithubFile) :
  forall dir parentPath,
    walk_file dir parentPath (seal_ignored file) = walk_file dir parentPath file.
Proof.
  induction file as [name|name|name items IH] using GithubFile_ind'; intros dir parentPath.
  - reflexivity.
  - cbn [seal_ignored]. destruct (includes ignoredDirectories name) eqn:E; reflexivity.
  - cbn [seal_ignored]. destruct (includes ignoredDirectories name) eqn:E.
    + now rewrite !walk_file_Dir, E.
    + rewrite !walk_file_Dir, E. simpl. rewrite map_map.
      f_equal. apply promise_all_ext.
      eapply Forall_impl; [|exact IH]. intros f Hf. apply Hf.
Qed.

Lemma walk_file_listed (file : GithubFile) :
  forall dir parentPath entries e,
    walk_file dir parentPath file = Some entries ->
    In e entries ->
    entry_parentPath e = parentPath /\
    forall files, In file files ->
      exists d name, listed_in dir files d name /\ entry_path e = join d name.
Proof.
  induction file as [name|name|name items IH] using GithubFile_ind';
    intros dir parentPath entries e H He.
  - rewrite walk_file_File in H.
    destruct (includes ignoredFiles name);
      [inversion H; subst; contradiction|].
    destruct (test_mdx_extension name);
      inversion H; subst; [|contradiction].
    destruct He as [<-|[]]. simpl. split; [reflexivity|].
    intros files Hf. exists dir, name. split; [now apply listed_here|reflexivity].
  - rewrite walk_file_Dir in H.
    destruct (includes ignoredDirectories name); simpl in H;
      [inversion H; subst; contradiction|discriminate].
  - rewrite walk_file_Dir in H.
    destruct (includes ignoredDirectories name) eqn:E;
      [inversion H; subst; contradiction|].
    simpl in H.
    destruct (In_walk_level _ _ _ _ H He) as (f & es & Hf & Hes & Hin).
    rewrite Forall_forall in IH.
    destruct (IH f Hf _ _ _ _ Hes Hin) as [Hp Hloc].
    split; [exact Hp|].
    intros files Hfiles.
    destruct (Hloc items Hf) as (d & n & Hl & Hpath).
    exists d, n. split; [|exact Hpath].
    eapply listed_below; eauto.
Qed.

Lemma walkGithubDirectory_file_seal (file : GithubFile) :
  forall dir,
    walkGithubDirectory_file dir (seal_ignored file) = walkGithubDirectory_file dir file.
Proof.
  induction file as [name|name|name items IH] using GithubFile_ind'; intros dir.
  - reflexivity.
  - cbn [seal_ignored]. destruct (includes ignoredDirectories name) eqn:E; reflexivity.
  - cbn [seal_ignored]. destruct (includes ignoredDirectories name) eqn:E.
    + now rewrite !walkGithubDirectory_file_Dir, E.
    + rewrite !walkGithubDirectory_file_Dir, E. simpl. rewrite map_map.
      f_equal. apply promise_all_ext.
      eapply Forall_impl; [|exact IH]. intros f Hf. apply Hf.
Qed.

Lemma walkGithubDirectory_file_listed (file : GithubFile) :
  forall dir entries e,
    walkGithubDirectory_file dir file = Some entries ->
    In e entries ->
    forall files, In file files ->
      exists d name,
        listed_in dir files d name /\
        entry_path e = join d name /\ entry_parentPath e = Some d.
Proof.
  induction file as [name|name|name items IH] using GithubFile_ind';
    intros dir entries e H He.
  - rewrite walkGithubDirectory_file_File in H.
    destruct (includes ignoredFiles name);
      [inversion H; subst; contradiction|].
    destruct (test_mdx_extension name) eqn:T;
      inversion H; subst; [|contradiction].
    destruct He as [<-|[]]. intros files Hf. exists dir, name.
    split; [now apply listed_here|now split].
  - rewrite walkGithubDirectory_file_Dir in H.
    destruct (includes ignoredDirectories name); simpl in H;
      [inversion H; subst; contradiction|discriminate].
  - rewrite walkGithubDirectory_file_Dir in H.
    destruct (includes ignoredDirectories name) eqn:E;
      [inversion H; subst; contradiction|].
    simpl in H.
    destruct (In_walk_level _ _ _ _ H He) as (f & es & Hf & Hes & Hin).
    rewrite Forall_forall in IH.
    intros files Hfiles.
    destruct (IH f Hf _ _ _ Hes Hin items Hf) as (d & n & Hl & Hpath & Hpar).
    exists d, n. split; [|now split].
    eapply listed_below; eauto.
Qed.

Lemma walk_seal (dir : string) (parentPath : option string)
      (response : option (list GithubFile)) :
  walk dir parentPath (option_map (map seal_ignored) response) =
  walk dir parentPath response.
Proof.
  destruct response as [files|]; [|reflexivity].
  simpl. rewrite map_map. f_equal. apply promise_all_ext.
  apply Forall_forall. intros f _. apply walk_file_seal.
Qed.

Lemma walkGithubDirectory_seal (dir : string) (response : option (list GithubFile)) :
  walkGithubDirectory dir (option_map (map seal_ignored) response) =
  walkGithubDirectory dir response.
Proof.
  destruct response as [files|]; [|reflexivity].
  simpl. rewrite map_map. f_equal. apply promise_all_ext.
  apply Forall_forall. intros f _. apply walkGithubDirectory_file_seal.
Qed.

End DiscoveryFacts.


(** C7 -- A directory whose name is on the list of ignored directories
    contributes no entry, whatever it holds: the callback answers with the
    empty array before it recurses.  The manifest is the same when every
    ignored directory, at any depth, cannot even be listed, and every entry
    of the manifest is a file reached through directories that are not
    ignored.  This holds for [walk] and for [walkGithubDirectory]. *)
Theorem ignored_directories_are_pruned {X : Externals} :
  (forall dir parentPath name listing,
      includes ignoredDirectories name = true ->
      walk_file dir parentPath (Dir name listing) = Some [] /\
      walkGithubDirectory_file dir (Dir name listing) = Some [])
  /\ (forall dir parentPath response,
        walk dir parentPath (option_map (map seal_ignored) response) =
        walk dir parentPath response)
  /\ (forall dir response,
        walkGithubDirectory dir (option_map (map seal_ignored) response) =
        walkGithubDirectory dir response)
  /\ (forall dir parentPath files entries e,
        walk dir parentPath (Some files) = Some entries ->
        In e entries ->
        exists d name, listed_in dir files d name /\ entry_path e = join d name)
  /\ (forall dir files entries e,
        walkGithubDirectory dir (Some files) = Some entries ->
        In e entries ->
        exists d name, listed_in dir files d name /\ entry_path e = join d name).
Proof.
  repeat split.
  - rewrite walk_file_Dir. now rewrite H.
  - rewrite walkGithubDirectory_file_Dir. now rewrite H.
  - apply walk_seal.
  - apply walkGithubDirectory_seal.
  - intros dir parentPath files entries e H He. unfold walk in H.
    destruct (In_walk_level _ _ _ _ H He) as (f & es & Hf & Hes & Hin).
    exact (proj2 (walk_file_listed f _ _ _ _ Hes Hin) files Hf).
  - intros dir files entries e H He. unfold walkGithubDirectory in H.
    destruct (In_walk_level _ _ _ _ H He) as (f & es & Hf & Hes & Hin).
    destruct (walkGithubDirectory_file_listed f _ _ _ Hes Hin files Hf)
      as (d & n & Hl & Hp & _).
    now exists d, n.
Qed.

Lemma ignored_directories_are_pruned_witness :
  includes ignoredDirectories "03-pages" = true /\
  @walk_file sample_externals "docs" None
             (Dir "03-pages" (Some [File "legacy.mdx"])) = Some [].
Proof.
  split; [reflexivity|].
  exact (proj1 (proj1 (@ignored_directories_are_pruned sample_externals)
                      "docs" None "03-pages" (Some [File "legacy.mdx"]) eq_refl)).
Defined.

(** C9 (amended) -- Every entry returned by [walk dir parentPath] carries
    the [parentPath] the call was given, passed on unchanged to every
    nested directory; every entry returned by [walkGithubDirectory] carries
    the directory in whose listing the file stands. *)
Theorem walk_entries_carry_the_given_parentPath {X : Externals} :
  (forall dir parentPath response entries e,
      walk dir parentPath response = Some entries ->
      In e entries ->
      entry_parentPath e = parentPath)
  /\ (forall dir files entries e,
        walkGithubDirectory dir (Some files) = Some entries ->
        In e entries ->
        exists d name,
          listed_in dir files d name /\
          entry_path e = join d name /\ entry_parentPath e = Some d).
Proof.
  split.
  - intros dir parentPath [files|] entries e H He; [|discriminate].
    unfold walk in H.
    destruct (In_walk_level _ _ _ _ H He) as (f & es & Hf & Hes & Hin).
    exact (proj1 (walk_file_listed f _ _ _ _ Hes Hin)).
  - intros dir files entries e H He. unfold walkGithubDirectory in H.
    destruct (In_walk_level _ _ _ _ H He) as (f & es & Hf & Hes & Hin).
    exact (walkGithubDirectory_file_listed f _ _ _ Hes Hin files Hf).
Qed.

Lemma walk_entries_carry_the_given_parentPath_witness :
  @walk sample_externals "docs" None (Some sample_docs) =
  Some [mkWalkEntry "docs/01-app/intro.mdx" None; mkWalkEntry "docs/index.mdx" None]
  /\ entry_parentPath (mkWalkEntry "docs/01-app/intro.mdx" None) = None.
Proof.
  split; [reflexivity|].
  apply (proj1 (@walk_entries_carry_the_given_parentPath sample_externals)
               "docs" None (Some sample_docs)
               [mkWalkEntry "docs/01-app/intro.mdx" None; mkWalkEntry "docs/index.mdx" None]).
  - reflexivity.
  - left; reflexivity.
Defined.

(** C9, as stated, fails on [walk]: started the way the driver starts it,
    the file [docs/01-app/intro.mdx] is returned with no parent path at
    all, where its directory is [docs/01-app] (the tag
    [walkGithubDirectory] gives it). *)
Lemma walk_parentPath_counterexample :
  @walk sample_externals "docs" None
        (Some [Dir "01-app" (Some [File "intro.mdx"])]) =
  Some [mkWalkEntry "docs/01-app/intro.mdx" None]
  /\ @walkGithubDirectory sample_externals "docs"
        (Some [Dir "01-app" (Some [File "intro.mdx"])]) =
      Some [mkWalkEntry "docs/01-app/intro.mdx" (Some "docs/01-app")].
Proof. split; reflexivity. Qed.


(** ** Metadata *)

Lemma object_get_set_same (object : Meta) (key : string) (value : option LiteralValue) :
  object_get (object_set object key value) key = Some value.
Proof.
  induction object as [|[k v] rest IH]; simpl.
  - now rewrite String.eqb_refl.
  - destruct (k =? key) eqn:E; simpl; rewrite E; [reflexivity|exact IH].
Qed.

Lemma object_get_set_other (object : Meta) (key key' : string)
      (value : option LiteralValue) :
  key <> key' ->
  object_get (object_set object key value) key' = object_get object key'.
Proof.
  intros Hne. induction object as [|[k v] rest IH]; simpl.
  - destruct (key =? key') eqn:E; [|reflexivity].
    apply String.eqb_eq in E. contradiction.
  - destruct (k =? key) eqn:E; simpl.
    + apply String.eqb_eq in E. subst k.
      destruct (key =? key') eqn:E'; [|reflexivity].
      apply String.eqb_eq in E'. contradiction.
    + now rewrite IH.
Qed.

Lemma getObjectFromExpression_step_spec (object : Meta) (m : ObjectMember) :
  getObjectFromExpression_step object m =
  match m, member_key m with
  | Property _ value, Some key => object_set object key (retained value)
  | _, _ => object
  end.
Proof.
  destruct m as [k v|a]; [|reflexivity].
  destruct k; reflexivity.
Qed.

Lemma getObjectFromExpression_other_keys (properties : list ObjectMember) :
  forall (object : Meta) (key : string),
    Forall (fun m => member_key m <> Some key) properties ->
    object_get (fold_left getObjectFromExpression_step properties object) key =
    object_get object key.
Proof.
  induction properties as [|m rest IH]; intros object key H; simpl; [reflexivity|].
  inversion H as [|? ? Hm Hrest]; subst.
  rewrite (IH _ _ Hrest), getObjectFromExpression_step_spec.
  destruct m as [k v|a]; [|reflexivity].
  destruct (member_key (Property k v)) as [key'|] eqn:E; [|reflexivity].
  apply object_get_set_other. congruence.
Qed.

Lemma getObjectFromExpression_last_wins
      (before after : list ObjectMember) (key : string) (value : Expression) :
  key <> "" ->
  Forall (fun m => member_key m <> Some key) after ->
  object_get (getObjectFromExpression (before ++ Property (Identifier key) value :: after)) key =
  Some (retained value).
Proof.
  intros Hk Hafter. unfold getObjectFromExpression.
  rewrite fold_left_app. cbn [fold_left].
  rewrite (getObjectFromExpression_other_keys _ _ _ Hafter).
  rewrite getObjectFromExpression_step_spec. cbn [member_key].
  destruct (key =? "") eqn:E; [apply String.eqb_eq in E; contradiction|].
  apply object_get_set_same.
Qed.

Lemma find_none_iff {A : Type} (f : A -> bool) (l : list A) :
  (forall x, In x l -> f x = false) -> find f l = None.
Proof.
  induction l as [|a l IH]; intros H; simpl; [reflexivity|].
  rewrite (H a (or_introl eq_refl)). apply IH. intros x Hx. apply H. now right.
Qed.

Lemma find_first {A : Type} (f : A -> bool) (before after : list A) (x : A) :
  Forall (fun a => f a = false) before -> f x = true ->
  find f (before ++ x :: after) = Some x.
Proof.
  induction 1 as [|a l Ha _ IH]; intros Hx; simpl.
  - now rewrite Hx.
  - rewrite Ha. now apply IH.
Qed.

Lemma is_meta_export_exports_meta (node : Node) :
  is_meta_export node = true <-> exists init, exports_meta node init.
Proof.
  split.
  - unfold is_meta_export, first_exported_declarator.
    destruct node as [type value estree children]. cbn [node_type node_estree].
    intros H. apply andb_prop in H. destruct H as [Ht H].
    apply String.eqb_eq in Ht. subst type.
    destruct estree as [body|]; [|discriminate].
    destruct body as [|statement statements]; [discriminate|].
    destruct statement as [declaration|]; [|discriminate].
    destruct declaration as [declaration|]; [|discriminate].
    destruct declaration as [declarations|]; [|discriminate].
    destruct declarations as [|[id init] declarators]; [discriminate|].
    cbn [declarator_id] in H. destruct id; try discriminate.
    apply String.eqb_eq in H. subst. exists init. constructor.
  - intros (init & H). destruct H. reflexivity.
Qed.

Lemma no_meta_export (nodes : list Node) :
  (forall node init, In node nodes -> ~ exports_meta node init) ->
  Forall (fun n => is_meta_export n = false) nodes.
Proof.
  intros H. apply Forall_forall. intros n Hn.
  apply Bool.not_true_is_false. intros E.
  apply is_meta_export_exports_meta in E. destruct E as (init & E).
  exact (H n init Hn E).
Qed.

(** C5 (amended) -- [extractMetaExport] reads the first child of the tree
    that is an ESM block beginning with [export const meta = ...], [meta]
    being the first name the statement declares, and answers [undefined]
    when no child is one.  A block that begins with another statement, an
    import for one, is passed over whatever follows in it, and so is an
    export whose first name is not [meta].  When the initializer is an
    object literal, the answer is the object of its members that have an
    identifier for key.  Under its key, a member keeps its value when that
    is a truthy literal (a number other than 0, a string other than the
    empty one, [true], a regular expression); any other value, a literal
    [false] included, leaves [undefined] under the key. *)
Theorem extractMetaExport_keeps_truthy_literals :
  (forall mdxTree,
      (forall node init, In node (node_children mdxTree) -> ~ exports_meta node init) ->
      extractMetaExport mdxTree = None)
  /\ (forall mdxTree before node after init,
        node_children mdxTree = before ++ node :: after ->
        (forall n i, In n before -> ~ exports_meta n i) ->
        exports_meta node init ->
        extractMetaExport mdxTree =
        match init with
        | Some (ObjectExpression properties) => Some (getObjectFromExpression properties)
        | _ => None
        end)
  /\ (forall value type statements children i,
        ~ exports_meta (mkNode "mdxjsEsm" value (Some (OtherStatement type :: statements))
                               children) i)
  /\ (forall value name init declarators statements children i,
        name <> "meta" ->
        ~ exports_meta
            (mkNode "mdxjsEsm" value
                    (Some (ExportNamedDeclaration
                             (Some (VariableDeclaration
                                      (mkDeclarator (Identifier name) init :: declarators)))
                           :: statements))
                    children) i)
  /\ (forall before key value after,
        key <> "" ->
        Forall (fun m => member_key m <> Some key) after ->
        object_get (getObjectFromExpression
                      (before ++ Property (Identifier key) value :: after)) key =
        Some (retained value))
  /\ (forall properties key,
        Forall (fun m => member_key m <> Some key) properties ->
        object_get (getObjectFromExpression properties) key = None)
  /\ (forall v, retained (Literal v) = if truthy v then Some v else None)
  /\ (forall n, n <> 0%Z -> truthy (NumberValue n) = true)
  /\ (forall s, s <> "" -> truthy (StringValue s) = true)
  /\ truthy (BooleanValue true) = true
  /\ (forall pattern flags, truthy (RegExpValue pattern flags) = true)
  /\ truthy (BooleanValue false) = false
  /\ (forall name, retained (Identifier name) = None)
  /\ (forall properties, retained (ObjectExpression properties) = None)
  /\ (forall type, retained (OtherExpression type) = None).
Proof.
  repeat match goal with |- _ /\ _ => split end; try reflexivity.
  - intros mdxTree H. unfold extractMetaExport.
    rewrite (find_none_iff is_meta_export (node_children mdxTree)); [reflexivity|].
    apply Forall_forall. now apply no_meta_export.
  - intros mdxTree before node after init Hc Hb Hn. unfold extractMetaExport.
    rewrite Hc, (find_first is_meta_export before after node).
    + destruct Hn. cbn. now destruct init as [[]|].
    + apply no_meta_export. intros n i Hin. now apply Hb.
    + apply is_meta_export_exports_meta. now exists init.
  - intros value type statements children i H. inversion H.
  - intros value name init declarators statements children i Hname H.
    inversion H. congruence.
  - intros. now apply getObjectFromExpression_last_wins.
  - intros properties key H. unfold getObjectFromExpression.
    now rewrite (getObjectFromExpression_other_keys _ _ _ H).
  - intros n Hn. simpl. destruct (n =? 0)%Z eqn:E; [|reflexivity].
    apply Z.eqb_eq in E. contradiction.
  - intros s Hs. simpl. destruct (s =? "") eqn:E; [|reflexivity].
    apply String.eqb_eq in E. contradiction.
Qed.

Lemma extractMetaExport_keeps_truthy_literals_witness :
  extractMetaExport sample_meta_tree =
  Some (getObjectFromExpression
          [Property (Identifier "title") (Literal (StringValue "Intro"));
           Property (Identifier "draft") (Literal (BooleanValue false))])
  /\ object_get (getObjectFromExpression
                   [Property (Identifier "title") (Literal (StringValue "Intro"));
                    Property (Identifier "draft") (Literal (BooleanValue false))])
                "title" = Some (Some (StringValue "Intro")).
Proof.
  split.
  - refine (proj1 (proj2 extractMetaExport_keeps_truthy_literals)
                  sample_meta_tree [] _ [] _ eq_refl _ (exports_meta_first _ _ _ _ _)).
    intros n i [].
  - refine (proj1 (proj2 (proj2 (proj2 (proj2 extractMetaExport_keeps_truthy_literals))))
                  [] "title" (Literal (StringValue "Intro")) _ _ _).
    + discriminate.
    + repeat constructor. discriminate.
Defined.

(** C5, as stated, fails: the literal [false] of
    [export const meta = { title: 'Intro', draft: false }] is not kept. *)
Lemma literal_false_counterexample :
  extractMetaExport sample_meta_tree =
  Some [("title", Some (StringValue "Intro")); ("draft", None)].
Proof. reflexivity. Qed.

(** An export of [meta] that follows an import in the same block is not
    read. *)
Example meta_export_after_an_import :
  extractMetaExport
    (mkNode "root" None None
       [mkNode "mdxjsEsm"
          (Some "import A from './a'; export const meta = { title: 'Intro' }")
          (Some [OtherStatement "ImportDeclaration";
                 ExportNamedDeclaration
                   (Some (VariableDeclaration
                            [mkDeclarator (Identifier "meta")
                               (Some (ObjectExpression
                                        [Property (Identifier "title")
                                                  (Literal (StringValue "Intro"))]))]))])
          []]) = None.
Proof. reflexivity. Qed.


(** ** The slugger *)

Lemma append_inj_r (a b c : string) : (a ++ b = a ++ c)%string -> b = c.
Proof.
  induction a as [|x a IH]; simpl; intros H; [exact H|].
  inversion H. now apply IH.
Qed.

Lemma append_ne (a b : string) : b <> "" -> (a ++ b)%string <> a.
Proof.
  intros Hb H. induction a as [|x a IH]; simpl in H.
  - contradiction.
  - inversion H. now apply IH.
Qed.

Lemma number_to_string_inj (n m : nat) :
  number_to_string n = number_to_string m -> n = m.
Proof.
  unfold number_to_string. intros H.
  apply Unsigned.to_uint_inj.
  assert (Some (Nat.to_uint n) = Some (Nat.to_uint m)) as E.
  { rewrite <- !NilEmpty.usu. now rewrite H. }
  now inversion E.
Qed.

Lemma suffixed_inj (originalSlug : string) (n m : nat) :
  suffixed originalSlug n = suffixed originalSlug m -> n = m.
Proof.
  unfold suffixed. intros H. apply append_inj_r in H.
  apply (append_inj_r "-") in H. now apply number_to_string_inj.
Qed.

Lemma suffixed_ne (originalSlug : string) (n : nat) :
  suffixed originalSlug n <> originalSlug.
Proof. unfold suffixed. apply append_ne. discriminate. Qed.

Lemma has_In (occurrences : GithubSlugger.t) (key : string) :
  GithubSlugger.has occurrences key = true <-> In key (slug_keys occurrences).
Proof.
  unfold GithubSlugger.has, slug_keys. rewrite existsb_exists. split.
  - intros ([k n] & Hin & E). simpl in E. apply String.eqb_eq in E. subst.
    apply (in_map fst) in Hin. exact Hin.
  - intros H. apply in_map_iff in H. destruct H as ([k n] & E & Hin).
    simpl in E. subst. exists (key, n). split; [exact Hin|apply String.eqb_refl].
Qed.

Lemma keys_increment (occurrences : GithubSlugger.t) (key : string) :
  slug_keys (GithubSlugger.increment occurrences key) = slug_keys occurrences.
Proof.
  induction occurrences as [|[k n] rest IH]; simpl; [reflexivity|].
  destruct (k =? key); simpl; [reflexivity|]. now f_equal.
Qed.

Lemma get_increment (occurrences : GithubSlugger.t) (key : string) :
  In key (slug_keys occurrences) ->
  GithubSlugger.get (GithubSlugger.increment occurrences key) key =
  S (GithubSlugger.get occurrences key).
Proof.
  induction occurrences as [|[k n] rest IH]; simpl; [contradiction|].
  intros [E|Hin].
  - subst. rewrite String.eqb_refl. simpl. now rewrite String.eqb_refl.
  - destruct (k =? key) eqn:E; simpl; rewrite E; [reflexivity|]. now apply IH.
Qed.

(** The loop of [slug] ends before its rounds run out: the slugs it has
    tried are distinct keys, and there are only so many keys. *)
Lemma slug_loop_returns (fuel : nat) :
  forall (occurrences : GithubSlugger.t) (originalSlug result : string)
         (tried : list string),
    NoDup (result :: tried) ->
    incl tried (slug_keys occurrences) ->
    (forall x, In x (result :: tried) ->
               x = originalSlug \/
               exists k, k <= GithubSlugger.get occurrences originalSlug /\
                         x = suffixed originalSlug k) ->
    (In result (slug_keys occurrences) -> In originalSlug (slug_keys occurrences)) ->
    List.length (slug_keys occurrences) <= fuel + List.length tried ->
    exists r occurrences',
      GithubSlugger.slug_loop fuel occurrences originalSlug result = Some (r, occurrences') /\
      ~ In r (slug_keys occurrences') /\
      slug_keys occurrences' = slug_keys occurrences.
Proof.
  induction fuel as [|fuel IH]; intros occ orig result tried Hnd Hincl Hshape Horig Hfuel;
    cbn [GithubSlugger.slug_loop]; destruct (GithubSlugger.has occ result) eqn:Hhas.
  - exfalso. apply has_In in Hhas.
    assert (incl (result :: tried) (slug_keys occ)) as Hi.
    { intros x [<-|Hx]; [exact Hhas|now apply Hincl]. }
    pose proof (NoDup_incl_length Hnd Hi) as Hl. simpl in Hl, Hfuel. lia.
  - exists result, occ. repeat split.
    intros Hin. apply has_In in Hin. congruence.
  - apply has_In in Hhas. pose proof (Horig Hhas) as Ho.
    pose proof (get_increment occ orig Ho) as Hget.
    destruct (IH (GithubSlugger.increment occ orig) orig
                 (suffixed orig
                    (GithubSlugger.get (GithubSlugger.increment occ orig) orig))
                 (result :: tried)) as (r & occ' & Hr & Hnot & Hkeys).
    + constructor; [|exact Hnd]. rewrite Hget. intros Hin.
      destruct (Hshape _ Hin) as [E|(k & Hk & E)].
      * exact (suffixed_ne _ _ E).
      * apply suffixed_inj in E. lia.
    + rewrite keys_increment. intros x [<-|Hx]; [exact Hhas|now apply Hincl].
    + rewrite Hget. intros x [<-|Hx].
      * right. exists (S (GithubSlugger.get occ orig)). split; [lia|reflexivity].
      * destruct (Hshape _ Hx) as [E|(k & Hk & E)]; [now left|].
        right. exists k. split; [lia|exact E].
    + intros _. now rewrite keys_increment.
    + rewrite keys_increment. simpl. lia.
    + exists r, occ'. unfold suffixed in Hr. rewrite Hr. repeat split; [exact Hnot|].
      now rewrite Hkeys, keys_increment.
  - exists result, occ. repeat split.
    intros Hin. apply has_In in Hin. congruence.
Qed.

Section SluggerFacts.
Context {X : Externals}.

(** [slugger.slug(value)] always returns, with a slug it never gave before. *)
Lemma slug_returns (occurrences : GithubSlugger.t) (value : string) :
  exists r occurrences',
    GithubSlugger.slug occurrences value = Some (r, occurrences') /\
    ~ In r (slug_keys occurrences) /\
    slug_keys occurrences' = slug_keys occurrences ++ [r].
Proof.
  unfold GithubSlugger.slug.
  destruct (slug_loop_returns (S (List.length occurrences)) occurrences
              (github_slug value) (github_slug value) [])
    as (r & occ' & Hr & Hnot & Hkeys).
  - constructor; [intros []|constructor].
  - intros x [].
  - intros x [<-|[]]. now left.
  - tauto.
  - unfold slug_keys. rewrite length_map. simpl. lia.
  - exists r, (GithubSlugger.add occ' r). rewrite Hr. repeat split.
    + now rewrite <- Hkeys.
    + unfold GithubSlugger.add, slug_keys. rewrite map_app. simpl.
      fold (slug_keys occ'). now rewrite Hkeys.
Qed.

Lemma slug_first (value : string) :
  GithubSlugger.slug GithubSlugger.new value =
  Some (github_slug value, [(github_slug value, 0)]).
Proof. reflexivity. Qed.

Lemma slug_second (value : string) :
  GithubSlugger.slug [(github_slug value, 0)] value =
  Some ((github_slug value ++ "-1")%string,
        [(github_slug value, 1); ((github_slug value ++ "-1")%string, 0)]).
Proof.
  unfold GithubSlugger.slug.
  assert ((github_slug value =? (github_slug value ++ "-1"))%string = false) as E.
  { apply String.eqb_neq. intros E. symmetry in E. revert E.
    apply append_ne. discriminate. }
  generalize dependent (github_slug value). intros g E.
  cbn -[String.eqb append number_to_string].
  rewrite !String.eqb_refl.
  cbn -[String.eqb append number_to_string].
  rewrite !String.eqb_refl.
  change (number_to_string 1) with "1".
  change (g ++ "-" ++ "1")%string with (g ++ "-1")%string.
  rewrite E. reflexivity.
Qed.

End SluggerFacts.

(** ** Segmentation *)

Lemma last_opt_snoc {A : Type} (l : list A) (x : A) : last_opt (l ++ [x]) = Some x.
Proof.
  induction l as [|a l IH]; [reflexivity|].
  simpl. destruct (l ++ [x]) eqn:E; [now destruct l|exact IH].
Qed.

Lemma list_snoc_cases {A : Type} (l : list A) :
  l = [] \/ exists init x, l = init ++ [x].
Proof.
  destruct l as [|a l]; [now left|right].
  destruct (@exists_last _ (a :: l)) as (init & x & E); [discriminate|].
  now exists init, x.
Qed.

Section SplitFacts.
Variable predicate : Node -> bool.

Lemma splitTreeBy_step_snoc (init : list Node) (lastTree node : Node) :
  splitTreeBy_step predicate (init ++ [lastTree]) node =
  if predicate node then (init ++ [lastTree]) ++ [u "root" [node]]
  else init ++ [push_child lastTree node].
Proof.
  unfold splitTreeBy_step. now rewrite last_opt_snoc, removelast_last.
Qed.

Lemma push_child_children (tree node : Node) :
  node_children (push_child tree node) = node_children tree ++ [node].
Proof. now destruct tree. Qed.

Lemma concat_children_snoc (init : list Node) (tree : Node) :
  concat (map node_children (init ++ [tree])) =
  concat (map node_children init) ++ node_children tree.
Proof. now rewrite map_app, concat_app; simpl; rewrite app_nil_r. Qed.

Lemma tl_snoc {A : Type} (init : list A) (x y : A) :
  tl ((init ++ [x]) ++ [y]) = tl (init ++ [x]) ++ [y].
Proof. now destruct init. Qed.

(** What [splitTreeBy] keeps true, child after child. *)
Lemma splitTreeBy_invariant (body : list Node) :
  let trees := fold_left (splitTreeBy_step predicate) body [] in
  concat (map node_children trees) = body /\
  Forall (section_tree predicate) trees /\
  Forall (opened_by predicate) (tl trees).
Proof.
  induction body as [|node body IH] using rev_ind; [repeat split; constructor|].
  cbv zeta in *. rewrite fold_left_app. cbn [fold_left].
  destruct IH as (Hcat & Hsec & Hopen).
  destruct (list_snoc_cases (fold_left (splitTreeBy_step predicate) body []))
    as [E|(init & lastTree & E)]; rewrite E in *.
  - simpl in Hcat. subst body. simpl. repeat split.
    + constructor; [|constructor]. exists node, []. now split.
    + constructor.
  - rewrite splitTreeBy_step_snoc.
    apply Forall_app in Hsec. destruct Hsec as [Hinit Hlast].
    pose proof (Forall_inv Hlast) as Hl. clear Hlast.
    destruct (predicate node) eqn:Hp.
    + repeat split.
      * now rewrite concat_children_snoc, Hcat.
      * apply Forall_app. split; [apply Forall_app; split; [exact Hinit|now constructor]|].
        constructor; [|constructor]. exists node, []. now split.
      * rewrite tl_snoc. apply Forall_app. split; [exact Hopen|].
        constructor; [|constructor]. exists node, []. now split.
    + rewrite concat_children_snoc in Hcat. repeat split.
      * now rewrite concat_children_snoc, push_child_children, app_assoc, Hcat.
      * apply Forall_app. split; [exact Hinit|]. constructor; [|constructor].
        destruct Hl as (first & rest & -> & Hrest).
        exists first, (rest ++ [node]). split; [reflexivity|].
        apply Forall_app. split; [exact Hrest|now constructor].
      * destruct init as [|t init]; [constructor|].
        simpl in *. apply Forall_app in Hopen. destruct Hopen as [Ho Hlo].
        apply Forall_app. split; [exact Ho|]. constructor; [|constructor].
        destruct (Forall_inv Hlo) as (first & rest & Hc & Hf).
        exists first, (rest ++ [node]).
        now rewrite push_child_children, Hc.
Qed.

(** Two ways of cutting a list after its longest run of nodes that do not
    satisfy the predicate agree. *)
Lemma leading_run_unique (pre1 pre2 x1 x2 : list Node) :
  Forall (fun n => predicate n = false) pre1 ->
  Forall (fun n => predicate n = false) pre2 ->
  pre1 ++ x1 = pre2 ++ x2 ->
  (forall n, hd_error x1 = Some n -> predicate n = true) ->
  (forall n, hd_error x2 = Some n -> predicate n = true) ->
  pre1 = pre2.
Proof.
  revert pre2. induction pre1 as [|a pre1 IH]; intros pre2 H1 H2 E Hx1 Hx2.
  - destruct pre2 as [|b pre2]; [reflexivity|]. simpl in E. subst x1.
    inversion H2; subst. rewrite (Hx1 b eq_refl) in *. discriminate.
  - destruct pre2 as [|b pre2]; simpl in E.
    + subst x2. inversion H1; subst. rewrite (Hx2 a eq_refl) in *. discriminate.
    + inversion E; subst. inversion H1; inversion H2; subst.
      f_equal. now apply (IH pre2).
Qed.

(** The first tree holds exactly what comes before the first node that
    satisfies the predicate. *)
Lemma splitTreeBy_leading (tree : Node) (pre rest : list Node) :
  node_children tree = pre ++ rest ->
  pre <> [] ->
  Forall (fun n => predicate n = false) pre ->
  (forall n, hd_error rest = Some n -> predicate n = true) ->
  exists trees,
    splitTreeBy tree predicate = u "root" pre :: trees /\
    concat (map node_children trees) = rest.
Proof.
  intros Hbody Hne Hpre Hrest. unfold splitTreeBy.
  destruct (splitTreeBy_invariant (node_children tree)) as (Hcat & Hsec & Hopen).
  cbv zeta in *.
  destruct (fold_left (splitTreeBy_step predicate) (node_children tree) [])
    as [|t0 trees].
  - simpl in Hcat. rewrite <- Hcat in Hbody. destruct pre; [contradiction|discriminate].
  - destruct (Forall_inv Hsec) as (first & others & -> & Hothers).
    cbn [map concat node_children u] in Hcat. simpl in Hopen.
    rewrite Hbody in Hcat.
    assert (predicate first = false) as Hfirst.
    { destruct pre as [|p pre]; [contradiction|].
      simpl in Hcat. inversion Hcat; subst. now inversion Hpre. }
    assert (first :: others = pre) as E.
    { apply (leading_run_unique (first :: others) pre
                                (concat (map node_children trees)) rest).
      - now constructor.
      - exact Hpre.
      - exact Hcat.
      - intros n Hn. destruct trees as [|t1 trees]; [discriminate|].
        destruct (Forall_inv Hopen) as (h & r & Hc & Hh).
        simpl in Hn. rewrite Hc in Hn. simpl in Hn. now inversion Hn; subst.
      - exact Hrest. }
    exists trees. rewrite E in *. split; [reflexivity|].
    now apply app_inv_head in Hcat.
Qed.

End SplitFacts.


Section SectionsFacts.
Context {X : Externals}.

Lemma splitTreeBy_children_nonempty (tree : Node) (predicate : Node -> bool) :
  Forall (fun t => node_children t <> []) (splitTreeBy tree predicate).
Proof.
  destruct (splitTreeBy_invariant predicate (node_children tree)) as (_ & Hsec & _).
  eapply Forall_impl; [|exact Hsec].
  intros t (first & rest & -> & _). discriminate.
Qed.

Lemma sections_of_spec (trees : list Node) :
  forall slugger,
    Forall (fun t => node_children t <> []) trees ->
    exists secs,
      sections_of slugger trees = Some secs /\
      map content secs = map toMarkdown trees /\
      map heading secs = map section_heading_of trees /\
      slug_headings slugger (map heading secs) = Some (map slug secs) /\
      NoDup (defined_slugs secs) /\
      (forall x, In x (defined_slugs secs) -> ~ In x (slug_keys slugger)).
Proof.
  induction trees as [|tree trees IH]; intros slugger Hne.
  - exists []. repeat split; try constructor. intros x [].
  - pose proof (Forall_inv Hne) as Htree. apply Forall_inv_tail in Hne.
    cbn [sections_of]. unfold section_heading_of at 1.
    destruct (node_children tree) as [|first others] eqn:Hc; [contradiction|].
    fold (is_heading first).
    destruct (is_heading first) eqn:Hh.
    + destruct (toString first =? "") eqn:Hempty.
      * destruct (IH slugger Hne) as (secs & -> & H1 & H2 & H3 & H4 & H5).
        eexists. split; [reflexivity|]. cbn [map content heading slug].
        split; [now rewrite H1|].
        split; [rewrite H2; f_equal; unfold section_heading_of; now rewrite Hc, Hh|].
        split; [|now split].
        cbn [slug_headings]. now rewrite Hempty, H3.
      * destruct (slug_returns slugger (toString first)) as (r & occ' & Hs & Hr & Hk).
        rewrite Hs. cbn [option_map fst snd].
        destruct (IH occ' Hne) as (secs & -> & H1 & H2 & H3 & H4 & H5).
        eexists. split; [reflexivity|]. cbn [map content heading slug].
        split; [now rewrite H1|].
        split; [rewrite H2; f_equal; unfold section_heading_of; now rewrite Hc, Hh|].
        split; [|split].
        -- cbn [slug_headings]. rewrite Hempty, Hs. cbn [option_map fst snd].
           now rewrite H3.
        -- simpl. constructor; [|exact H4].
           intros Hin. apply (H5 _ Hin). rewrite Hk. apply in_or_app. right. now left.
        -- simpl. intros x [<-|Hx]; [exact Hr|].
           intros Hin. apply (H5 _ Hx). rewrite Hk. apply in_or_app. now left.
    + destruct (IH slugger Hne) as (secs & -> & H1 & H2 & H3 & H4 & H5).
      eexists. split; [reflexivity|]. cbn [map content heading slug].
      split; [now rewrite H1|].
      split; [rewrite H2; f_equal; unfold section_heading_of; now rewrite Hc, Hh|].
      split; [|now split].
      cbn [slug_headings]. now rewrite H3.
Qed.

Lemma slug_headings_returns (headings : list (option string)) :
  forall slugger, exists slugs, slug_headings slugger headings = Some slugs.
Proof.
  induction headings as [|[h|] rest IH]; intros slugger; cbn [slug_headings].
  - now exists [].
  - destruct (h =? "").
    + destruct (IH slugger) as (slugs & ->). now eexists.
    + destruct (slug_returns slugger h) as (r & occ' & -> & _).
      cbn [option_map fst snd]. destruct (IH occ') as (slugs & ->). now eexists.
  - destruct (IH slugger) as (slugs & ->). now eexists.
Qed.

(** [processMdxForSearch] throws on a document only when the parser does. *)
Lemma processMdxTree_returns (checksum : string) (mdxTree : Node) :
  exists secs,
    processMdxTree checksum mdxTree =
    Ok (mkProcessedMdx checksum (extractMetaExport mdxTree) secs) /\
    NoDup (defined_slugs secs) /\
    slug_headings GithubSlugger.new (map heading secs) = Some (map slug secs).
Proof.
  unfold processMdxTree.
  destruct (unist_filter _ mdxTree) as [mdTree|].
  - destruct (sections_of_spec (splitTreeBy mdTree is_heading) GithubSlugger.new
                (splitTreeBy_children_nonempty mdTree is_heading))
      as (secs & -> & _ & _ & H3 & H4 & _).
    now exists secs.
  - exists []. repeat split. constructor.
Qed.

End SectionsFacts.

(** C4 (amended) -- The trees [splitTreeBy] cuts the stripped body into
    partition it in order; every tree is a root under which only the first
    node may be a heading, and every tree but the first starts with a
    heading, which is the first node of the content of its section.  What
    comes before the first heading, if anything does, is the first tree and
    its section has no heading.  A body that is not empty and has no
    heading gives exactly one section, the whole body, with neither heading
    nor slug; an empty body gives no section. *)
Theorem segmentation_starts_a_section_at_each_heading {X : Externals} (mdTree : Node) :
  let body := node_children mdTree in
  let trees := splitTreeBy mdTree is_heading in
  concat (map node_children trees) = body
  /\ Forall (section_tree is_heading) trees
  /\ Forall (opened_by is_heading) (tl trees)
  /\ (exists secs,
        sections_of GithubSlugger.new trees = Some secs /\
        map content secs = map toMarkdown trees /\
        map heading secs = map section_heading_of trees /\
        forall checksum mdxTree,
          unist_filter (fun node => negb (includes mdx_node_types (node_type node)))
                       mdxTree = Some mdTree ->
          processMdxTree checksum mdxTree =
          Ok (mkProcessedMdx checksum (extractMetaExport mdxTree) secs))
  /\ (forall pre rest,
        body = pre ++ rest ->
        pre <> [] ->
        Forall (fun n => is_heading n = false) pre ->
        (forall n, hd_error rest = Some n -> is_heading n = true) ->
        exists others,
          trees = u "root" pre :: others /\
          concat (map node_children others) = rest /\
          section_heading_of (u "root" pre) = None)
  /\ (body <> [] ->
      Forall (fun n => is_heading n = false) body ->
      trees = [u "root" body] /\
      sections_of GithubSlugger.new trees =
      Some [mkSection (toMarkdown (u "root" body)) None None])
  /\ (body = [] ->
      trees = [] /\ sections_of GithubSlugger.new trees = Some []).
Proof.
  cbv zeta.
  destruct (splitTreeBy_invariant is_heading (node_children mdTree)) as (Hcat & Hsec & Hopen).
  cbv zeta in *. fold (splitTreeBy mdTree is_heading) in *.
  assert (forall pre rest,
             node_children mdTree = pre ++ rest ->
             pre <> [] ->
             Forall (fun n => is_heading n = false) pre ->
             (forall n, hd_error rest = Some n -> is_heading n = true) ->
             exists others,
               splitTreeBy mdTree is_heading = u "root" pre :: others /\
               concat (map node_children others) = rest /\
               section_heading_of (u "root" pre) = None) as Hlead.
  { intros pre rest Hb Hne Hpre Hrest.
    destruct (splitTreeBy_leading is_heading mdTree pre rest Hb Hne Hpre Hrest)
      as (others & Ht & Hc).
    exists others. repeat split; try assumption.
    destruct pre as [|p pre]; [contradiction|].
    unfold section_heading_of. simpl. now rewrite (Forall_inv Hpre). }
  repeat match goal with |- _ /\ _ => split end; try assumption.
  - destruct (sections_of_spec (splitTreeBy mdTree is_heading) GithubSlugger.new
                (splitTreeBy_children_nonempty mdTree is_heading))
      as (secs & Hs & H1 & H2 & _).
    exists secs. repeat split; try assumption.
    intros checksum mdxTree Hf. unfold processMdxTree. now rewrite Hf, Hs.
  - intros Hne Hall.
    destruct (Hlead (node_children mdTree) []) as (others & Ht & Hc & _);
      try assumption; [now rewrite app_nil_r|discriminate|].
    assert (others = []) as ->.
    { destruct others as [|t others]; [reflexivity|].
      rewrite Ht in Hsec. apply Forall_inv_tail in Hsec.
      destruct (Forall_inv Hsec) as (first & rest & -> & _). discriminate. }
    split; [exact Ht|]. rewrite Ht.
    destruct (node_children mdTree) as [|first rest] eqn:Hb; [contradiction|].
    cbn [sections_of node_children u].
    fold (is_heading first). now rewrite (Forall_inv Hall).
  - intros Hb. unfold splitTreeBy. rewrite Hb. now split.
Qed.

Lemma segmentation_starts_a_section_at_each_heading_witness :
  node_children sample_plain_tree <> [] /\
  Forall (fun n => is_heading n = false) (node_children sample_plain_tree) /\
  splitTreeBy sample_plain_tree is_heading = [u "root" (node_children sample_plain_tree)].
Proof.
  assert (node_children sample_plain_tree <> []) as Hne by discriminate.
  assert (Forall (fun n => is_heading n = false) (node_children sample_plain_tree)) as Hall
      by (repeat constructor).
  split; [exact Hne|]. split; [exact Hall|].
  pose proof (@segmentation_starts_a_section_at_each_heading
                sample_externals sample_plain_tree) as H.
  cbv zeta in H.
  exact (proj1 (proj1 (proj2 (proj2 (proj2 (proj2 (proj2 H))))) Hne Hall)).
Defined.

(** C4, as stated, fails on a document whose stripped body is empty: the
    empty text, or a text that holds nothing but its [meta] export, has no
    heading and gets no section at all, where the claim promises one. *)
Lemma empty_body_counterexample :
  @processMdxForSearch sample_externals "" = Ok (mkProcessedMdx "" None [])
  /\ @processMdxTree sample_externals "checksum" sample_meta_tree =
     Ok (mkProcessedMdx "checksum"
                        (Some [("title", Some (StringValue "Intro")); ("draft", None)])
                        []).
Proof. split; reflexivity. Qed.

(** C6 -- The slugs of the sections of a document are pairwise distinct;
    they are the slugs drawn, in order, from a slugger that starts empty
    for this document, for the sequence of its headings, so that they
    depend on nothing else; a heading met a second time gets the suffix
    [-1]; and the slugger always returns. *)
Theorem slugs_are_unique_within_a_document {X : Externals} :
  (forall content doc,
      processMdxForSearch content = Ok doc ->
      NoDup (defined_slugs (sections doc)) /\
      slug_headings GithubSlugger.new (map heading (sections doc)) =
      Some (map slug (sections doc)))
  /\ (forall h,
        h <> "" ->
        slug_headings GithubSlugger.new [Some h; Some h] =
        Some [Some (github_slug h); Some (github_slug h ++ "-1")%string])
  /\ (forall h rest,
        h <> "" ->
        exists slugs,
          slug_headings GithubSlugger.new (Some h :: rest) =
          Some (Some (github_slug h) :: slugs))
  /\ (forall slugger value,
        exists r slugger',
          GithubSlugger.slug slugger value = Some (r, slugger') /\
          ~ In r (slug_keys slugger) /\
          slug_keys slugger' = slug_keys slugger ++ [r])
  /\ (forall content,
        fromMarkdown (if content =? "" then content else unwrapTitleTag content) <> None ->
        exists doc, processMdxForSearch content = Ok doc).
Proof.
  repeat match goal with |- _ /\ _ => split end.
  - intros content doc H. unfold processMdxForSearch in H.
    destruct (fromMarkdown _) as [mdxTree|]; [|discriminate].
    destruct (processMdxTree_returns
                (sha256_base64 (if content =? "" then content else unwrapTitleTag content))
                mdxTree) as (secs & E & Hnd & Hs).
    rewrite E in H. inversion H; subst. now split.
  - intros h Hh. cbn [slug_headings].
    destruct (h =? "") eqn:E; [apply String.eqb_eq in E; contradiction|].
    rewrite slug_first. cbn [option_map fst snd].
    rewrite slug_second. reflexivity.
  - intros h rest Hh. cbn [slug_headings].
    destruct (h =? "") eqn:E; [apply String.eqb_eq in E; contradiction|].
    rewrite slug_first. cbn [option_map fst snd].
    destruct (slug_headings_returns rest [(github_slug h, 0)]) as (slugs & ->).
    now exists slugs.
  - apply slug_returns.
  - intros content H. unfold processMdxForSearch.
    destruct (fromMarkdown _) as [mdxTree|]; [|contradiction].
    destruct (processMdxTree_returns
                (sha256_base64 (if content =? "" then content else unwrapTitleTag content))
                mdxTree) as (secs & E & _).
    eexists. exact E.
Qed.

Lemma slugs_are_unique_within_a_document_witness :
  @processMdxForSearch sample_externals sample_document =
  Ok (mkProcessedMdx sample_document None
        [mkSection ("Intro" ++ String "010" "Hello") (Some "Intro") (Some "intro");
         mkSection ("Usage" ++ String "010" "Do X") (Some "Usage") (Some "usage");
         mkSection ("Usage" ++ String "010" "Do Y") (Some "Usage") (Some "usage-1")])
  /\ NoDup ["intro"; "usage"; "usage-1"].
Proof.
  split; [reflexivity|].
  exact (proj1 (proj1 (@slugs_are_unique_within_a_document sample_externals)
                      sample_document _ eq_refl)).
Defined.


(** ** The page store *)

Lemma find_map_preserving {A : Type} (test : A -> bool) (f : A -> A) (l : list A) :
  (forall a, test (f a) = test a) ->
  find test (map f l) = option_map f (find test l).
Proof.
  intros H. induction l as [|a l IH]; simpl; [reflexivity|].
  rewrite H. destruct (test a); [reflexivity|exact IH].
Qed.

Lemma find_app_none {A : Type} (test : A -> bool) (l : list A) (x : A) :
  find test l = None -> find test (l ++ [x]) = if test x then Some x else None.
Proof.
  induction l as [|a l IH]; simpl; [reflexivity|].
  destruct (test a); [discriminate|exact IH].
Qed.

Lemma select_page_pages (key : option string) (st st' : Store) :
  nods_page st' = nods_page st -> select_page key st' = select_page key st.
Proof. intros E. unfold select_page. now rewrite E. Qed.

Lemma select_page_path (key : string) (st : Store) (p : PageRecord) :
  select_page (Some key) st = Some p -> page_path p = key /\ In p (nods_page st).
Proof.
  unfold select_page. intros H. apply find_some in H. destruct H as [Hin E].
  apply String.eqb_eq in E. now split.
Qed.

Lemma select_page_update_checksum (key : option string) (id : nat) (c : string) (st : Store) :
  select_page key (update_page_checksum id c st) =
  option_map (fun p => if Nat.eqb (page_id p) id then set_checksum (Some c) p else p)
             (select_page key st).
Proof.
  unfold select_page, update_page_checksum. simpl.
  apply find_map_preserving. intros a. now destruct (Nat.eqb (page_id a) id).
Qed.

Lemma select_page_update_parent (key : option string) (id : nat) (parent : option nat)
      (st : Store) :
  select_page key (update_page_parent id parent st) =
  option_map (fun p => if Nat.eqb (page_id p) id
                       then set_parent (sent parent (parent_page_id p)) p else p)
             (select_page key st).
Proof.
  unfold select_page, update_page_parent. simpl.
  apply find_map_preserving. intros a. now destruct (Nat.eqb (page_id a) id).
Qed.

Lemma upsert_page_selected (path type source : string) (meta : option Meta)
      (parent : option nat) (st : Store) :
  let page := fst (upsert_page path type source meta parent st) in
  let st' := snd (upsert_page path type source meta parent st) in
  select_page (Some path) st' = Some page /\
  page_checksum page = None /\
  page_path page = path /\
  nods_page_section st' = nods_page_section st /\
  (forall p, select_page (Some path) st = Some p -> page_id page = page_id p) /\
  (select_page (Some path) st = None -> page_id page = next_page_id st).
Proof.
  cbv zeta. unfold upsert_page, select_page. cbn [show_undefined].
  destruct (find (fun p => String.eqb (page_path p) path) (nods_page st)) as [p|] eqn:E;
    cbn [fst snd nods_page nods_page_section].
  - repeat split.
    + rewrite find_map_preserving.
      * rewrite E. cbn [option_map]. apply find_some in E. destruct E as [_ E].
        now rewrite E.
      * intros a. destruct (String.eqb (page_path a) path) eqn:Ea; [exact Ea|exact Ea].
    + apply find_some in E. destruct E as [_ E]. now apply String.eqb_eq in E.
    + intros p0 H. now inversion H.
    + discriminate.
  - repeat split.
    + rewrite (find_app_none _ _ _ E). cbn [page_path]. now rewrite String.eqb_refl.
    + discriminate.
Qed.

Lemma upsert_page_other (path type source : string) (meta : option Meta)
      (parent : option nat) (st : Store) (key : string) :
  key <> path ->
  select_page (Some key) (snd (upsert_page path type source meta parent st)) =
  select_page (Some key) st.
Proof.
  intros Hne. unfold upsert_page, select_page. cbn [show_undefined].
  destruct (find (fun p => String.eqb (page_path p) path) (nods_page st)) as [p|] eqn:E;
    cbn [snd nods_page].
  - induction (nods_page st) as [|a l IH] in E |- *; [reflexivity|]. simpl in *.
    destruct (String.eqb (page_path a) path) eqn:Ea.
    + cbn [page_path upserted_over]. apply String.eqb_eq in Ea.
      destruct (String.eqb (page_path a) key) eqn:Ek.
      * apply String.eqb_eq in Ek. congruence.
      * clear IH E.
        induction l as [|b l IH]; [reflexivity|]. simpl.
        destruct (String.eqb (page_path b) path) eqn:Eb.
        -- cbn [page_path upserted_over]. apply String.eqb_eq in Eb.
           destruct (String.eqb (page_path b) key) eqn:Ekb;
             [apply String.eqb_eq in Ekb; congruence|exact IH].
        -- destruct (String.eqb (page_path b) key); [reflexivity|exact IH].
    + destruct (String.eqb (page_path a) key); [reflexivity|now apply IH].
  - induction (nods_page st) as [|a l IH] in E |- *; simpl in *.
    + destruct (String.eqb path key) eqn:Ek; [|reflexivity].
      apply String.eqb_eq in Ek. congruence.
    + destruct (String.eqb (page_path a) path); [discriminate|].
      destruct (String.eqb (page_path a) key); [reflexivity|now apply IH].
Qed.

(** ** Running the script: the rules of [post] *)

Lemma post_ret {A : Type} (a : A) (s : State) (Q : Result A -> State -> list Event -> Prop) :
  Q (Ok a) s [] -> post (ret a) s Q.
Proof. exact (fun H => H). Qed.

Lemma post_throw {A : Type} (e : Exn) (s : State)
      (Q : Result A -> State -> list Event -> Prop) :
  Q (Throw e) s [] -> post (throw e) s Q.
Proof. exact (fun H => H). Qed.

Lemma post_lift {A : Type} (r : Result A) (s : State)
      (Q : Result A -> State -> list Event -> Prop) :
  Q r s [] -> post (lift r) s Q.
Proof. now destruct r. Qed.

Lemma post_bind {A B : Type} (m : M A) (k : A -> M B) (s : State)
      (Q : Result B -> State -> list Event -> Prop) :
  post m s (fun r s1 log1 =>
              match r with
              | Ok a => post (k a) s1 (fun r2 s2 log2 => Q r2 s2 (log1 ++ log2))
              | Throw e => Q (Throw e) s1 log1
              end) ->
  post (bind m k) s Q.
Proof.
  unfold post, bind. destruct (m s) as [[[a|e] s1] log1]; [|trivial].
  now destruct (k a s1) as [[r2 s2] log2].
Qed.

Lemma post_try_catch {A : Type} (m : M A) (handler : Exn -> M A) (s : State)
      (Q : Result A -> State -> list Event -> Prop) :
  post m s (fun r s1 log1 =>
              match r with
              | Ok a => Q (Ok a) s1 log1
              | Throw e => post (handler e) s1 (fun r2 s2 log2 => Q r2 s2 (log1 ++ log2))
              end) ->
  post (try_catch m handler) s Q.
Proof.
  unfold post, try_catch. destruct (m s) as [[[a|e] s1] log1]; [trivial|].
  now destruct (handler e s1) as [[r2 s2] log2].
Qed.

Lemma post_conseq {A : Type} (m : M A) (s : State)
      (Q Q' : Result A -> State -> list Event -> Prop) :
  post m s Q -> (forall r s' log, Q r s' log -> Q' r s' log) -> post m s Q'.
Proof.
  unfold post. destruct (m s) as [[r s'] log]. intros H HQ. now apply HQ.
Qed.

Lemma post_console_log (message : string) (s : State)
      (Q : Result unit -> State -> list Event -> Prop) :
  Q (Ok tt) s [ConsoleLog message] -> post (console_log message) s Q.
Proof. exact (fun H => H). Qed.

Lemma post_console_error (message : string) (s : State)
      (Q : Result unit -> State -> list Event -> Prop) :
  Q (Ok tt) s [ConsoleError message] -> post (console_error message) s Q.
Proof. exact (fun H => H). Qed.

Lemma post_console_error_exn (e : Exn) (s : State)
      (Q : Result unit -> State -> list Event -> Prop) :
  Q (Ok tt) s [ConsoleErrorExn e] -> post (console_error_exn e) s Q.
Proof. exact (fun H => H). Qed.

Section RunFacts.
Context {X : Externals}.
Variable w : World.

Lemma post_supabase {A : Type} (e : Event) (err : Exn) (query : Store -> A * Store)
      (s : State) (Q : Result A -> State -> list Event -> Prop) :
  (supabase_error w (clock s) = true ->
   Q (Throw err) (mkState (store s) (S (clock s))) [e]) ->
  (supabase_error w (clock s) = false ->
   Q (Ok (fst (query (store s))))
     (mkState (snd (query (store s))) (S (clock s))) [e]) ->
  post (supabase w e err query) s Q.
Proof.
  unfold post, supabase. intros Ht Hf.
  destruct (supabase_error w (clock s)); [now apply Ht|].
  destruct (query (store s)) as [a st]. now apply Hf.
Qed.

Lemma post_http_get (url : string) (s : State)
      (Q : Result string -> State -> list Event -> Prop) :
  (axios_get w (clock s) url = None ->
   Q (Throw (AxiosError url)) (mkState (store s) (S (clock s))) [AxiosGet url]) ->
  (forall data, axios_get w (clock s) url = Some data ->
                Q (Ok data) (mkState (store s) (S (clock s))) [AxiosGet url]) ->
  post (http_get w url) s Q.
Proof.
  unfold post, http_get. intros Hn Hs.
  destruct (axios_get w (clock s) url) as [data|]; [now apply Hs|now apply Hn].
Qed.

Lemma post_openai_createEmbedding (model input : string) (s : State)
      (Q : Result (Embedding * nat) -> State -> list Event -> Prop) :
  (createEmbedding w (clock s) model input = None ->
   Q (Throw (EmbeddingError input)) (mkState (store s) (S (clock s)))
     [CreateEmbedding model input]) ->
  (forall response, createEmbedding w (clock s) model input = Some response ->
                    Q (Ok response) (mkState (store s) (S (clock s)))
                      [CreateEmbedding model input]) ->
  post (openai_createEmbedding w model input) s Q.
Proof.
  unfold post, openai_createEmbedding. intros Hn Hs.
  destruct (createEmbedding w (clock s) model input) as [response|];
    [now apply Hs|now apply Hn].
Qed.

Lemma post_embed_loop (path : string) (page : PageRecord) (secs : list Section_) :
  forall s, post (for_of secs (embed_section w path page)) s (loop_outcome page secs s).
Proof.
  induction secs as [|sec secs IH]; intros s.
  - cbn [for_of]. apply post_ret. repeat split; try constructor.
    exists []. rewrite app_nil_r. repeat split. constructor.
  - cbn [for_of]. apply post_bind. unfold embed_section at 1.
    apply post_try_catch, post_bind, post_openai_createEmbedding.
    + intros _. apply post_bind, post_console_error, post_throw.
      repeat split; try (repeat constructor).
      exists []. rewrite app_nil_r. repeat split; [constructor|]. eexists. now left.
    + intros response _. apply post_supabase; intros _.
      * apply post_bind, post_console_error, post_throw.
        repeat split; try (repeat constructor).
        exists []. rewrite app_nil_r. repeat split; [constructor|]. eexists. now right.
      * eapply post_conseq; [apply IH|].
        intros r s' log (Hp & Hn & Hlog & rows & Hrows & Hids & Hr).
        cbn [store nods_page nods_page_section next_page_id insert_page_section fst snd] in *.
        repeat split; try assumption.
        -- simpl. constructor; [exact I|]. constructor; [reflexivity|exact Hlog].
        -- eexists (_ :: rows). rewrite Hrows, <- app_assoc. split; [reflexivity|].
           split; [constructor; [reflexivity|exact Hids]|].
           destruct r as [[]|e]; [|exact Hr].
           destruct Hr as [-> <-]. split; [reflexivity|]. now destruct sec.
Qed.

End RunFacts.

(** ** Reconciliation

    The proofs below run [reconcile] by cases on the answers of the
    collaborators; the tactics walk through the script once and leave one
    goal for every way it can go. *)

Ltac wp_step :=
  lazymatch goal with
  | |- post (bind _ _) _ _ => apply post_bind
  | |- post (ret _) _ _ => apply post_ret
  | |- post (throw _) _ _ => apply post_throw
  | |- post (lift _) _ _ => apply post_lift
  | |- post (console_log _) _ _ => apply post_console_log
  | |- post (console_error _) _ _ => apply post_console_error
  | |- post (console_error_exn _) _ _ => apply post_console_error_exn
  end.
Ltac wp := repeat (cbv beta iota; wp_step); cbv beta iota.

Ltac norm := cbv beta iota; cbn [store clock fst snd app] in *.

(* the store call at hand fails, or it does not *)
Ltac call := lazymatch goal with |- post (supabase _ _ _ _) _ _ => apply post_supabase; intros ?Hcall; norm end.

Ltac explore_relink :=
  unfold relink;
  lazymatch goal with
  | |- post (match ?ex with _ => _ end) _ _ =>
      destruct ex as [[existingPage existingParentPage]|] eqn:Hexisting; norm
  end;
  [ lazymatch goal with
    | |- post (if ?b then _ else _) _ _ => destruct b eqn:Hparent; norm
    end;
    [ wp; unfold fetch_parentPage; call; [ | wp; call ]
    | wp ]
  | wp ].

Ltac explore_regenerate :=
  unfold regenerate; wp;
  lazymatch goal with
  | |- post (match ?ex with _ => _ end) _ _ =>
      destruct ex as [[existingPage existingParentPage]|] eqn:Hexisting; norm
  end;
  [ wp; call | wp ];
  try (wp; unfold fetch_parentPage; call;
       [ | wp; call;
           [ | wp; eapply post_conseq; [apply post_embed_loop|];
               intros r1 s1 log1 Hloop; norm;
               destruct r1 as [[]|e1]; norm; [ call | ] ] ]).

Ltac explore_reconcile :=
  unfold reconcile, load; wp; apply post_http_get;
  [ intros Hget; norm
  | intros contents Hget; wp;
    destruct (processMdxForSearch contents) as [doc|e] eqn:Hdoc; norm;
    [ apply post_bind; call;
      [ | lazymatch goal with
          | |- post (if ?b then _ else _) _ _ => destruct b eqn:Hmatch; norm
          end;
          [ explore_relink | explore_regenerate ] ]
    | ] ].


(* The facts of the loop over the sections, and of the upsert before it. *)
Ltac loop_facts :=
  lazymatch goal with
  | Hloop : loop_outcome _ _ _ _ _ _ |- _ =>
      unfold loop_outcome in Hloop; cbn [store] in Hloop;
      destruct Hloop as (Hpages & Hnext & Hlog & rows & Hrows & Hids & Hresult);
      lazymatch type of Hpages with
      | context [upsert_page ?a ?b ?c ?d ?e ?f] =>
          remember (upsert_page a b c d e f) as upserted eqn:Hupserted;
          pose proof (upsert_page_selected a b c d e f) as Hup;
          cbv zeta in Hup; rewrite <- Hupserted in Hup;
          destruct Hup as (Hselected & Hnull & Hpath & Hsections & Hsame & Hfresh)
      end
  end.

Section ReconcileFacts.
Context {X : Externals}.
Variable w : World.


Lemma select_existingPage_Some (path : string) (st : Store) (p : PageRecord)
      (par : option PageRecord) :
  select_existingPage path st = Some (p, par) ->
  select_page (Some path) st = Some p /\ par = select_parentPage p st.
Proof.
  unfold select_existingPage.
  destruct (select_page (Some path) st); cbn [option_map]; [|discriminate].
  intros H. inversion H. now split.
Qed.

Lemma select_existingPage_None (path : string) (st : Store) :
  select_existingPage path st = None -> select_page (Some path) st = None.
Proof.
  unfold select_existingPage.
  now destruct (select_page (Some path) st).
Qed.


Lemma rows_of_delete_same (id : nat) (st : Store) :
  rows_of id (nods_page_section (delete_page_sections id st)) = [].
Proof.
  cbn. induction (nods_page_section st) as [|row rows IH]; [reflexivity|].
  cbn. destruct (Nat.eqb (section_page_id row) id) eqn:E; cbn; [exact IH|].
  now rewrite E.
Qed.


Lemma checksum_matches_true (p : PageRecord) (par : option PageRecord) (c : string) :
  negb shouldRefresh && checksum_matches (Some (p, par)) c = true ->
  page_checksum p = Some c.
Proof.
  cbn. destruct (page_checksum p) as [c'|]; [|discriminate].
  intros H. apply String.eqb_eq in H. now subst.
Qed.

Lemma checksum_matches_false (p : PageRecord) (par : option PageRecord) (c : string) :
  negb shouldRefresh && checksum_matches (Some (p, par)) c = false ->
  page_checksum p <> Some c.
Proof.
  cbn. destruct (page_checksum p) as [c'|]; [|discriminate].
  intros H E. inversion E; subst. now rewrite String.eqb_refl in H.
Qed.

(** A reconciliation that ends without an exception leaves the page of the
    source with the checksum of the document it fetched. *)
Lemma reconcile_success (embeddingSource : GithubEmbeddingSource) (s : State) :
  post (reconcile w embeddingSource) s (fun r s' log =>
    r = Ok tt ->
    exists contents doc p,
      axios_get w (clock s) (source_url embeddingSource) = Some contents /\
      processMdxForSearch contents = Ok doc /\
      select_page (Some (path embeddingSource)) (store s') = Some p /\
      page_checksum p = Some (checksum doc)).
Proof.
  explore_reconcile.
  all: intros Hr; try discriminate.
  all: try loop_facts.
  all: exists contents, doc.
  - (* the parent link was rewritten *)
    destruct (select_existingPage_Some _ _ _ _ Hexisting) as [Hp _].
    exists (set_parent (sent (option_map page_id
                                (select_page (parentPath embeddingSource) (store s)))
                             (parent_page_id existingPage)) existingPage).
    repeat split; try assumption.
    + rewrite select_page_update_parent, Hp. cbn [option_map].
      now rewrite Nat.eqb_refl.
    + exact (checksum_matches_true _ _ _ Hmatch).
  - (* nothing had changed *)
    destruct (select_existingPage_Some _ _ _ _ Hexisting) as [Hp _].
    exists existingPage. repeat split; try assumption.
    exact (checksum_matches_true _ _ _ Hmatch).
  - exists (set_checksum (Some (checksum doc)) (fst upserted)).
    repeat split; try assumption.
    rewrite select_page_update_checksum, (select_page_pages _ _ _ Hpages), Hselected.
    cbn [option_map]. now rewrite Nat.eqb_refl.
  - exists (set_checksum (Some (checksum doc)) (fst upserted)).
    repeat split; try assumption.
    rewrite select_page_update_checksum, (select_page_pages _ _ _ Hpages), Hselected.
    cbn [option_map]. now rewrite Nat.eqb_refl.
Qed.

(** The calls a reconciliation makes: one fetch, of the file under its raw
    path, and then only calls about the page of the normalized path. *)
Lemma reconcile_events (embeddingSource : GithubEmbeddingSource) (s : State) :
  post (reconcile w embeddingSource) s (fun r s' log =>
    exists rest,
      log = AxiosGet (source_url embeddingSource) :: rest /\
      Forall (reconcile_event embeddingSource) rest).
Proof.
  explore_reconcile.
  all: try loop_facts.
  all: eexists; split; [reflexivity|].
  all: repeat (constructor; [cbn; tauto|]).
  all: try constructor.
  all: try (apply Forall_app; split; [|repeat constructor]).
  all: eapply Forall_impl; [|exact Hlog]; intros [] H; cbn in *; tauto.
Qed.





End ReconcileFacts.


Lemma update_page_parent_others (id : nat) (parent : option nat) (st : Store)
      (q : PageRecord) :
  In q (nods_page st) -> page_id q <> id ->
  In q (nods_page (update_page_parent id parent st)).
Proof.
  intros Hin Hne. cbn [update_page_parent nods_page].
  apply in_map_iff. exists q. split; [|exact Hin].
  destruct (Nat.eqb (page_id q) id) eqn:E; [|reflexivity].
  apply Nat.eqb_eq in E. contradiction.
Qed.




Section RelinkFacts.
Context {X : Externals}.
Variable w : World.


End RelinkFacts.


(** ** The normalized path *)

Lemma extension_not_inside (c : ascii) (stem ext : string) :
  ext = ".md" \/ ext = ".mdx" ->
  (String c (stem ++ ext) =? ".mdx")%string || (String c (stem ++ ext) =? ".md")%string = false.
Proof.
  intros Hext. apply orb_false_iff. split; apply String.eqb_neq; intros E.
  - destruct stem as [|? [|? [|? [|? ?]]]]; destruct Hext as [-> | ->];
      simpl in E; inversion E.
  - destruct stem as [|? [|? [|? ?]]]; destruct Hext as [-> | ->];
      simpl in E; inversion E.
Qed.

Lemma replace_mdx_extension_strips (stem ext : string) :
  ext = ".md" \/ ext = ".mdx" ->
  replace_mdx_extension (stem ++ ext) = stem.
Proof.
  intros Hext. induction stem as [|c stem IH].
  - destruct Hext as [-> | ->]; reflexivity.
  - change (String c stem ++ ext)%string with (String c (stem ++ ext)).
    cbn [replace_mdx_extension].
    rewrite (extension_not_inside c stem ext Hext). now rewrite IH.
Qed.

(** ** The constraints of the store, and what a reconciliation leaves alone *)

Lemma store_wf_delete (id : nat) (st : Store) :
  store_wf st -> store_wf (delete_page_sections id st).
Proof.
  intros (Hnd & Hp & Hs). repeat split; try assumption.
  cbn. eapply incl_Forall; [apply incl_filter|exact Hs].
Qed.

Lemma store_wf_map (f : PageRecord -> PageRecord) (st : Store) :
  (forall p, page_id (f p) = page_id p) ->
  store_wf st ->
  store_wf (mkStore (map f (nods_page st)) (nods_page_section st) (next_page_id st)).
Proof.
  intros Hf (Hnd & Hp & Hs). repeat split; cbn; try assumption.
  - rewrite map_map. erewrite map_ext; [exact Hnd|]. exact Hf.
  - apply Forall_map. eapply Forall_impl; [|exact Hp].
    intros p Hlt. now rewrite Hf.
Qed.

Lemma store_wf_update_checksum (id : nat) (c : string) (st : Store) :
  store_wf st -> store_wf (update_page_checksum id c st).
Proof.
  apply store_wf_map. intros p. now destruct (Nat.eqb (page_id p) id).
Qed.

Lemma store_wf_update_parent (id : nat) (parent : option nat) (st : Store) :
  store_wf st -> store_wf (update_page_parent id parent st).
Proof.
  apply store_wf_map. intros p. now destruct (Nat.eqb (page_id p) id).
Qed.

Lemma store_wf_upsert (path type source : string) (meta : option Meta)
      (parent : option nat) (st : Store) :
  store_wf st ->
  store_wf (snd (upsert_page path type source meta parent st)) /\
  page_id (fst (upsert_page path type source meta parent st)) <
  next_page_id (snd (upsert_page path type source meta parent st)).
Proof.
  intros Hwf. unfold upsert_page.
  destruct (find (fun p => String.eqb (page_path p) path) (nods_page st)) as [p|] eqn:E;
    cbn [fst snd].
  - split.
    + apply (store_wf_map
               (fun q => if String.eqb (page_path q) path
                         then upserted_over q type source meta parent else q));
        [|exact Hwf].
      intros q. now destruct (String.eqb (page_path q) path).
    + cbn. destruct Hwf as (_ & Hp & _). rewrite Forall_forall in Hp.
      apply Hp. now apply find_some in E.
  - destruct Hwf as (Hnd & Hp & Hs). split; [|cbn; lia].
    repeat split; cbn.
    + rewrite map_app. cbn. apply NoDup_app; [exact Hnd|repeat constructor; intros []|].
      intros x Hx [<-|[]]. apply in_map_iff in Hx. destruct Hx as (q & Hq & Hin).
      rewrite Forall_forall in Hp. specialize (Hp q Hin). lia.
    + apply Forall_app. split.
      * eapply Forall_impl; [|exact Hp]. cbn. intros; lia.
      * repeat constructor.
    + eapply Forall_impl; [|exact Hs]. cbn. intros; lia.
Qed.

Lemma store_wf_rows (st st' : Store) (rows : list PageSectionRecord) (id : nat) :
  store_wf st ->
  nods_page st' = nods_page st ->
  next_page_id st' = next_page_id st ->
  nods_page_section st' = nods_page_section st ++ rows ->
  Forall (fun row => section_page_id row = id) rows ->
  id < next_page_id st ->
  store_wf st'.
Proof.
  intros (Hnd & Hp & Hs) Epages Enext Erows Hrows Hid.
  unfold store_wf. rewrite Epages, Enext, Erows. repeat split; try assumption.
  apply Forall_app. split; [exact Hs|].
  eapply Forall_impl; [|exact Hrows]. cbn. intros row ->. exact Hid.
Qed.

Lemma distinct_paths_distinct_ids (st : Store) (a b : PageRecord) :
  store_wf st ->
  In a (nods_page st) -> In b (nods_page st) ->
  page_path a <> page_path b ->
  page_id a <> page_id b.
Proof.
  intros (Hnd & _ & _) Ha Hb Hpath Hid.
  induction (nods_page st) as [|q l IH]; [contradiction|].
  cbn in Hnd. inversion Hnd as [|? ? Hnotin Hnd']; subst.
  destruct Ha as [->|Ha], Hb as [->|Hb].
  - contradiction.
  - apply Hnotin. rewrite Hid. now apply in_map.
  - apply Hnotin. rewrite <- Hid. now apply in_map.
  - now apply IH.
Qed.

Lemma upsert_page_paths (path type source : string) (meta : option Meta)
      (parent : option nat) (st : Store) :
  exists l,
    map page_path (nods_page (snd (upsert_page path type source meta parent st))) =
    map page_path (nods_page st) ++ l /\ (l = [] \/ l = [path]).
Proof.
  unfold upsert_page.
  destruct (find (fun p => String.eqb (page_path p) path) (nods_page st)) as [p|];
    cbn [snd nods_page].
  - exists []. rewrite app_nil_r. split; [|now left].
    rewrite map_map. apply map_ext. intros q.
    now destruct (String.eqb (page_path q) path).
  - exists [path]. split; [|now right]. now rewrite map_app.
Qed.

(** What holds once the page is upserted and the loop over its sections has
    run, to its end or not, and after the checksum is written. *)
Lemma write_page_frame (path type source : string) (meta : option Meta)
      (parent : option nat) (st st1 : Store) (rows : list PageSectionRecord)
      (c : string) :
  let upserted := upsert_page path type source meta parent st in
  nods_page st1 = nods_page (snd upserted) ->
  next_page_id st1 = next_page_id (snd upserted) ->
  nods_page_section st1 = nods_page_section (snd upserted) ++ rows ->
  Forall (fun row => section_page_id row = page_id (fst upserted)) rows ->
  (store_wf st ->
   store_wf st1 /\ store_wf (update_page_checksum (page_id (fst upserted)) c st1)) /\
  (forall k p,
      k <> path -> store_wf st ->
      select_page (Some k) st = Some p ->
      select_page (Some k) st1 = Some p /\
      select_page (Some k) (update_page_checksum (page_id (fst upserted)) c st1) = Some p) /\
  (exists l,
      map page_path (nods_page st1) = map page_path (nods_page st) ++ l /\
      (l = [] \/ l = [path])).
Proof.
  cbv zeta. intros Epages Enext Erows Hrows.
  pose proof (upsert_page_selected path type source meta parent st) as Hup.
  cbv zeta in Hup. destruct Hup as (Hselected & _ & Hpath & _).
  assert (store_wf st -> store_wf st1) as Hwf1.
  { intros Hwf. destruct (store_wf_upsert path type source meta parent st Hwf) as [Hw Hlt].
    exact (store_wf_rows _ _ rows _ Hw Epages Enext Erows Hrows Hlt). }
  split; [|split].
  - intros Hwf. split; [now apply Hwf1|]. apply store_wf_update_checksum. now apply Hwf1.
  - intros k p Hk Hwf Hp.
    assert (select_page (Some k) st1 = Some p) as Hp1.
    { rewrite (select_page_pages _ _ _ Epages). now rewrite upsert_page_other. }
    split; [exact Hp1|].
    rewrite select_page_update_checksum, Hp1. cbn [option_map].
    destruct (Nat.eqb (page_id p) _) eqn:E; [|reflexivity].
    apply Nat.eqb_eq in E. exfalso.
    destruct (select_page_path _ _ _ Hp1) as [Hpp Hin].
    rewrite <- (select_page_pages (Some path) _ _ Epages) in Hselected.
    destruct (select_page_path _ _ _ Hselected) as [_ Hin'].
    revert E. apply (distinct_paths_distinct_ids st1); try assumption.
    + now apply Hwf1.
    + congruence.
  - rewrite Epages. apply upsert_page_paths.
Qed.

Section DriverFacts.
Context {X : Externals}.
Variable w : World.

Lemma update_page_parent_paths (id : nat) (parent : option nat) (st : Store) :
  map page_path (nods_page (update_page_parent id parent st)) =
  map page_path (nods_page st).
Proof.
  cbn. rewrite map_map. apply map_ext. intros p.
  now destruct (Nat.eqb (page_id p) id).
Qed.

Lemma update_page_checksum_paths (id : nat) (c : string) (st : Store) :
  map page_path (nods_page (update_page_checksum id c st)) =
  map page_path (nods_page st).
Proof.
  cbn. rewrite map_map. apply map_ext. intros p.
  now destruct (Nat.eqb (page_id p) id).
Qed.

(** A reconciliation keeps the constraints of the store, leaves the
    checksum of the page of every other path as it is, and adds at most the
    page of its own path. *)
Lemma reconcile_frame (embeddingSource : GithubEmbeddingSource) (s : State) :
  post (reconcile w embeddingSource) s (fun r s' log =>
    (store_wf (store s) -> store_wf (store s')) /\
    (forall k p,
        k <> path embeddingSource -> store_wf (store s) ->
        select_page (Some k) (store s) = Some p ->
        exists p', select_page (Some k) (store s') = Some p' /\
                   page_checksum p' = page_checksum p) /\
    (exists l,
        map page_path (nods_page (store s')) = map page_path (nods_page (store s)) ++ l /\
        (l = [] \/ l = [path embeddingSource]))).
Proof.
  explore_reconcile.
  all: try loop_facts.
  all: try (destruct (write_page_frame _ _ _ _ _ _ _ rows (checksum doc)
                        (eq_trans Hpages (f_equal (fun u => nods_page (snd u)) Hupserted))
                        (eq_trans Hnext (f_equal (fun u => next_page_id (snd u)) Hupserted))
                        (eq_trans Hrows (f_equal (fun u => nods_page_section (snd u) ++ rows)
                                                 Hupserted))
                        (eq_ind _ (fun u => Forall (fun row => section_page_id row = page_id (fst u)) rows)
                                Hids _ Hupserted))
             as (Hwf & Hframe & Hpaths)).
  all: split; [|split].
  (* the constraints *)
  all: try (intros Hw; first [ exact Hw
                             | now apply store_wf_delete
                             | now apply store_wf_update_parent ]).
  all: try (intros Hw; rewrite <- Hupserted in Hwf;
            first [ apply Hwf; first [exact Hw | now apply store_wf_delete] ]).
  (* the other pages *)
  all: try (match goal with |- forall k p, _ => intros k p Hk Hw Hp end;
            first [ exists p; split; [exact Hp|reflexivity]
                  | rewrite select_page_update_parent, Hp; cbn [option_map];
                    eexists; split; [reflexivity|];
                    now destruct (Nat.eqb (page_id p) _)
                  | exists p; split; [|reflexivity];
                    rewrite <- Hupserted in Hframe;
                    apply (Hframe k p Hk); first [exact Hw | now apply store_wf_delete | exact Hp] ]).
  (* the paths of the pages *)
  all: try (match goal with |- exists l, _ => idtac end;
            first [ exists []; rewrite app_nil_r; split; [|now left];
                    first [ reflexivity | apply update_page_parent_paths ]
                  | rewrite ?update_page_checksum_paths; exact Hpaths ]).
Qed.

(** The loop body never throws: what [reconcile] throws is logged. *)
Lemma reconcile_guarded_run (embeddingSource : GithubEmbeddingSource) (s : State) :
  exists r0 s' log0,
    reconcile w embeddingSource s = (r0, s', log0) /\
    reconcile_guarded w embeddingSource s =
    (Ok tt, s',
     match r0 with
     | Ok _ => log0
     | Throw e => log0 ++ [ConsoleError (failure_message embeddingSource); ConsoleErrorExn e]
     end).
Proof.
  unfold reconcile_guarded, try_catch.
  destruct (reconcile w embeddingSource s) as [[[[]|e] s'] log0];
    eexists _, _, _; split; reflexivity.
Qed.

Lemma for_of_app {A : Type} (xs ys : list A) (body : A -> M unit) :
  forall s,
    for_of (xs ++ ys) body s =
    match for_of xs body s with
    | (Ok _, s1, log1) =>
        match for_of ys body s1 with
        | (r, s2, log2) => (r, s2, log1 ++ log2)
        end
    | (Throw e, s1, log1) => (Throw e, s1, log1)
    end.
Proof.
  induction xs as [|x xs IH]; intros s.
  - cbn. now destruct (for_of ys body s) as [[r s2] log2].
  - cbn [for_of app]. unfold bind.
    destruct (body x s) as [[[[]|e] s1] log1]; [|reflexivity].
    rewrite IH. destruct (for_of xs body s1) as [[[[]|e] s2] log2]; [|reflexivity].
    destruct (for_of ys body s2) as [[r s3] log3]. now rewrite app_assoc.
Qed.

Lemma filter_reconcile_events (embeddingSource : GithubEmbeddingSource) (log : list Event) :
  Forall (reconcile_event embeddingSource) log -> filter is_fetch log = [].
Proof.
  induction 1 as [|e log He _ IH]; [reflexivity|].
  cbn. destruct e; cbn in *; try contradiction; exact IH.
Qed.

Lemma reconcile_all_spec (sources : list GithubEmbeddingSource) :
  forall s,
    post (reconcile_all w sources) s (fun r s' log =>
      r = Ok tt /\
      filter is_fetch log = map (fun d => AxiosGet (source_url d)) sources /\
      (store_wf (store s) -> store_wf (store s')) /\
      (forall k p,
          ~ In k (map path sources) -> store_wf (store s) ->
          select_page (Some k) (store s) = Some p ->
          exists p', select_page (Some k) (store s') = Some p' /\
                     page_checksum p' = page_checksum p) /\
      (store_wf (store s) -> NoDup (map path sources) ->
       forall d, In d sources ->
                 In (ConsoleError (failure_message d)) log \/ reconciled w d (store s'))).
Proof.
  induction sources as [|d sources IH]; intros s.
  - cbn. split; [reflexivity|]. split; [reflexivity|]. split; [tauto|].
    split; [|tauto]. intros k p _ _ Hp. now exists p.
  - unfold reconcile_all in *. cbn [for_of]. unfold post, bind.
    destruct (reconcile_guarded_run d s) as (r0 & s1 & log0 & Hrun & ->).
    specialize (IH s1). unfold post in IH.
    destruct (for_of sources (reconcile_guarded w) s1) as [[r s'] log].
    destruct IH as (-> & Hfetch & Hwf & Hframe & Hall).
    pose proof (reconcile_success w d s) as Hsucc.
    pose proof (reconcile_events w d s) as Hev.
    pose proof (reconcile_frame d s) as Hfr.
    unfold post in Hsucc, Hev, Hfr. rewrite Hrun in Hsucc, Hev, Hfr.
    destruct Hev as (rest & -> & Hrest).
    destruct Hfr as (Hwf0 & Hframe0 & _).
    split; [reflexivity|]. split; [|split; [|split]].
    + rewrite filter_app, Hfetch. cbn [map].
      destruct r0; rewrite ?filter_app; cbn;
        now rewrite (filter_reconcile_events d rest Hrest).
    + intros Hw. now apply Hwf, Hwf0.
    + intros k p Hk Hw Hp. cbn [map] in Hk.
      destruct (Hframe0 k p) as (p1 & Hp1 & Hc1); try assumption.
      { intros ->. apply Hk. now left. }
      destruct (Hframe k p1) as (p2 & Hp2 & Hc2); try assumption.
      { intros Hin. apply Hk. now right. }
      { now apply Hwf0. }
      exists p2. split; [exact Hp2|congruence].
    + intros Hw Hnd d' [<-|Hin].
      * destruct r0 as [[]|e].
        -- right. destruct (Hsucc eq_refl) as (contents & doc & p & Hget & Hdoc & Hp & Hc).
           cbn [map] in Hnd. inversion Hnd as [|? ? Hnotin _]; subst.
           destruct (Hframe (path d) p Hnotin (Hwf0 Hw) Hp) as (p' & Hp' & Hc').
           exists (clock s), contents, doc, p'. repeat split; try assumption. congruence.
        -- left. apply in_or_app. left. apply in_or_app. right. now left.
      * cbn [map] in Hnd. inversion Hnd as [|? ? _ Hnd']; subst.
        destruct (Hall (Hwf0 Hw) Hnd' d' Hin) as [Hlog|Hrec]; [left|now right].
        apply in_or_app. now right.
Qed.

(** [generateEmbeddings] ends without an exception unless the discovery
    itself fails. *)
Lemma generateEmbeddings_completes (s : State) :
  post (generateEmbeddings w) s (fun r s' log =>
    r = Ok tt \/
    (walk "docs" None (github_contents w) = None /\
     r = Throw (AxiosError (GITHUB_URL ++ first_refused w "docs")))).
Proof.
  unfold generateEmbeddings.
  destruct ((SUPABASE_URL =? "") || (SUPABASE_SERVICE_ROLE_KEY =? "") || (OPENAI_KEY =? ""))%string.
  - apply post_console_log. now left.
  - unfold shouldRefresh. wp.
    destruct (walk "docs" None (github_contents w)) as [entries|] eqn:Hwalk.
    + wp. eapply post_conseq; [apply reconcile_all_spec|].
      intros r s' log (-> & _). wp. now left.
    + wp. right. now split.
Qed.

End DriverFacts.




(** C3 -- The loop over the sources never throws: whatever fails for a
    source, the run goes to its end.  Every source of the manifest, before
    and after one that failed, has had its file fetched, in order.  When
    the store meets its constraints and the sources have distinct paths,
    every source either has its failure logged or is left fully reconciled
    at the end of the run, with a page carrying the checksum of its
    document.  And when the reconciliation of [b] throws, the run is the
    run over the sources before it, then the calls of [b] followed by the
    two log lines of the [catch], then the run over the sources after it
    from the state [b] left. *)
Theorem failures_are_isolated {X : Externals} (w : World)
        (sources : list GithubEmbeddingSource) (s : State) :
  post (reconcile_all w sources) s (fun r s' log =>
    r = Ok tt /\
    filter is_fetch log = map (fun d => AxiosGet (source_url d)) sources /\
    (store_wf (store s) -> NoDup (map path sources) ->
     forall d, In d sources ->
               In (ConsoleError (failure_message d)) log \/ reconciled w d (store s')))
  /\
  (forall before b after s1 log1 e s2 log2 r3 s3 log3,
      sources = before ++ b :: after ->
      reconcile_all w before s = (Ok tt, s1, log1) ->
      reconcile w b s1 = (Throw e, s2, log2) ->
      reconcile_all w after s2 = (r3, s3, log3) ->
      r3 = Ok tt /\
      reconcile_all w sources s =
      (Ok tt, s3,
       log1 ++ (log2 ++ [ConsoleError (failure_message b); ConsoleErrorExn e]) ++ log3))
  /\
  post (generateEmbeddings w) s (fun r s' log =>
    r = Ok tt \/
    (walk "docs" None (github_contents w) = None /\
     r = Throw (AxiosError (GITHUB_URL ++ first_refused w "docs")))).
Proof.
  split; [|split; [|apply generateEmbeddings_completes]].
  - eapply post_conseq; [apply reconcile_all_spec|].
    intros r s' log (Hr & Hf & _ & _ & Hall). now repeat split.
  - intros before b after s1 log1 e s2 log2 r3 s3 log3 -> Hbefore Hb Hafter.
    pose proof (reconcile_all_spec w after s2) as Hr3.
    unfold post in Hr3. rewrite Hafter in Hr3. destruct Hr3 as [-> _].
    split; [reflexivity|].
    unfold reconcile_all in *. rewrite for_of_app, Hbefore.
    cbn [for_of]. unfold bind.
    destruct (reconcile_guarded_run w b s1) as (r0 & s2' & log0 & Hrun & ->).
    rewrite Hb in Hrun. inversion Hrun; subst. now rewrite Hafter.
Qed.

(** C10 -- The page of a discovered file is selected and upserted not under
    the path of the file but under the path the constructor of the source
    derives from it: the leading [docs] and the trailing [.md] or [.mdx]
    cut off, as in [docs/01-app/intro.mdx] and [/01-app/intro]; the parent
    path is derived in the same way.  The raw path serves only to fetch the
    file. *)
Theorem pages_are_keyed_by_the_normalized_path {X : Externals} (w : World) :
  path (new_GithubEmbeddingSource "guide" "docs/01-app/intro.mdx" None) = "/01-app/intro"
  /\ (forall source stem parentFilePath,
        path (new_GithubEmbeddingSource source ("docs" ++ stem ++ ".mdx") parentFilePath) = stem /\
        path (new_GithubEmbeddingSource source ("docs" ++ stem ++ ".md") parentFilePath) = stem)
  /\ (forall source filePath parent,
        parentPath (new_GithubEmbeddingSource source filePath (Some parent)) =
        Some (path (new_GithubEmbeddingSource source parent None)) /\
        parentPath (new_GithubEmbeddingSource source filePath None) = None)
  /\ (forall source filePath parentFilePath s,
        let embeddingSource := new_GithubEmbeddingSource source filePath parentFilePath in
        post (reconcile w embeddingSource) s (fun r s' log =>
          (forall url, In (AxiosGet url) log -> url = (GITHUB_URL ++ filePath)%string) /\
          (forall key, In (UpsertPage key) log ->
                       key = replace_mdx_extension (replace_docs_prefix filePath)) /\
          (forall key, In (SelectPage key) log ->
                       key = Some (replace_mdx_extension (replace_docs_prefix filePath)) \/
                       key = option_map (fun p => replace_mdx_extension (replace_docs_prefix p))
                                        parentFilePath) /\
          (exists added,
              map page_path (nods_page (store s')) =
              map page_path (nods_page (store s)) ++ added /\
              (added = [] \/
               added = [replace_mdx_extension (replace_docs_prefix filePath)])))).
Proof.
  split; [reflexivity|].
  split; [intros source stem parentFilePath; split|].
  - cbn [path new_GithubEmbeddingSource].
    change (replace_docs_prefix ("docs" ++ stem ++ ".mdx")) with (stem ++ ".mdx")%string.
    apply replace_mdx_extension_strips. now right.
  - cbn [path new_GithubEmbeddingSource].
    change (replace_docs_prefix ("docs" ++ stem ++ ".md")) with (stem ++ ".md")%string.
    apply replace_mdx_extension_strips. now left.
  - split; [intros; split; reflexivity|].
    intros source filePath parentFilePath s embeddingSource.
    pose proof (reconcile_events w embeddingSource s) as Hev.
    pose proof (reconcile_frame w embeddingSource s) as Hfr.
    unfold post in *.
    destruct (reconcile w embeddingSource s) as [[r s'] log].
    destruct Hev as (rest & -> & Hrest). rewrite Forall_forall in Hrest.
    destruct Hfr as (_ & _ & Hpaths).
    split; [|split; [|split]].
    + intros url [E|Hin]; [now inversion E|]. destruct (Hrest _ Hin).
    + intros key [E|Hin]; [discriminate|]. exact (Hrest _ Hin).
    + intros key [E|Hin]; [discriminate|]. exact (Hrest _ Hin).
    + exact Hpaths.
Qed.



(** When the document of a page has changed, its old sections are deleted
    before the page is written with a null checksum.  If the selection of
    the parent page fails in between, the run stops there: the page keeps
    the checksum it had, and its sections are gone. *)
Theorem stale_checksum_after_failed_parent_lookup {X : Externals} (w : World)
        (embeddingSource : GithubEmbeddingSource) (s : State)
        (fetched : string) (document : ProcessedMdx) (page : PageRecord) :
  axios_get w (clock s) (source_url embeddingSource) = Some fetched ->
  processMdxForSearch fetched = Ok document ->
  supabase_error w (S (clock s)) = false ->
  select_page (Some (path embeddingSource)) (store s) = Some page ->
  page_checksum page <> Some (checksum document) ->
  supabase_error w (S (S (clock s))) = false ->
  supabase_error w (S (S (S (clock s)))) = true ->
  post (reconcile w embeddingSource) s (fun r s' log =>
    r = Throw FetchParentPageError /\
    store s' = delete_page_sections (page_id page) (store s) /\
    select_page (Some (path embeddingSource)) (store s') = Some page /\
    Forall (fun row => section_page_id row <> page_id page)
           (nods_page_section (store s'))).
Proof.
  intros Hget0 Hdoc0 Hselected Hp Hc Hdelete Hlookup. unfold source_url in Hget0.
  explore_reconcile.
  all: try congruence.
  all: rewrite Hget0 in Hget; inversion Hget; subst contents.
  all: rewrite Hdoc0 in Hdoc; try discriminate; inversion Hdoc; subst doc.
  all: try (destruct (select_existingPage_Some _ _ _ _ Hexisting) as [Hp' Hpar']).
  all: try (apply select_existingPage_None in Hexisting; congruence).
  all: rewrite Hp in Hp'; inversion Hp'; subst existingPage.
  all: try (apply checksum_matches_true in Hmatch; contradiction).
  repeat split; try assumption.
  cbn. apply Forall_forall. intros row Hrow. apply filter_In in Hrow.
  destruct Hrow as [_ Hrow]. apply negb_true_iff, Nat.eqb_neq in Hrow. exact Hrow.
Qed.

(** ** Worked examples *)





Lemma failures_are_isolated_witness :
  post (reconcile_all sample_faulty_world sample_sources (X := sample_externals))
       sample_state
       (fun r s' log =>
          r = Ok tt /\
          forall d, In d sample_sources ->
                    In (ConsoleError (failure_message d)) log \/
                    @reconciled sample_externals sample_faulty_world d (store s')).
Proof.
  eapply post_conseq;
    [exact (proj1 (@failures_are_isolated sample_externals sample_faulty_world
                                          sample_sources sample_state))|].
  intros r s' log (Hr & _ & Hall). split; [exact Hr|]. apply Hall.
  - repeat split; constructor.
  - vm_compute. repeat constructor; cbn; intuition discriminate.
Defined.



Lemma stale_checksum_after_failed_parent_lookup_witness :
  post (reconcile sample_store_fault_world
                  (new_GithubEmbeddingSource "guide" "docs/index.mdx" None)
                  (X := sample_externals))
       sample_stale_state
       (fun r s' log =>
          r = Throw FetchParentPageError /\
          store s' = mkStore [mkPage 1 "/index" (Some "older text") (Some "github")
                                     (Some "guide") None None] [] 2).
Proof.
  eapply post_conseq.
  - apply (@stale_checksum_after_failed_parent_lookup
             sample_externals sample_store_fault_world
             (new_GithubEmbeddingSource "guide" "docs/index.mdx" None)
             sample_stale_state sample_document
             (mkProcessedMdx sample_document None
                [mkSection ("Intro" ++ String "010" "Hello") (Some "Intro") (Some "intro");
                 mkSection ("Usage" ++ String "010" "Do X") (Some "Usage") (Some "usage");
                 mkSection ("Usage" ++ String "010" "Do Y") (Some "Usage") (Some "usage-1")])
             (mkPage 1 "/index" (Some "older text") (Some "github") (Some "guide")
                     None None));
      try reflexivity.
    discriminate.
  - intros r s' log (Hr & Hs & _). split; [exact Hr|]. rewrite Hs. reflexivity.
Defined.

(* ================================================================== *)
(** * Part III: further properties of the code *)
(* ================================================================== *)

(** ** Discovery *)

Section MoreDiscoveryFacts.
Context {X : Externals}.

Lemma promise_all_None {A : Type} (ps : list (option A)) :
  promise_all ps = None <-> In None ps.
Proof.
  induction ps as [|p ps IH]; simpl.
  - split; [discriminate|tauto].
  - destruct p as [a|].
    + destruct (promise_all ps) as [r|].
      * split; [discriminate|]. intros [H|H]; [discriminate|]. apply IH in H. discriminate.
      * split; [intros _; right; now apply IH|reflexivity].
    + split; [now left|reflexivity].
Qed.

Lemma promise_all_map_Some {A B : Type} (f : A -> option B) (l : list A) (rs : list B) :
  promise_all (map f l) = Some rs ->
  forall a, In a l -> exists r, f a = Some r /\ In r rs.
Proof.
  revert rs. induction l as [|x l IH]; intros rs H a Ha; [contradiction|].
  simpl in H. destruct (f x) as [r|] eqn:Ex; [|discriminate].
  destruct (promise_all (map f l)) as [rs'|]; [|discriminate].
  inversion H; subst. destruct Ha as [<-|Ha].
  - exists r. split; [exact Ex|now left].
  - destruct (IH rs' eq_refl a Ha) as (r' & Hr & Hin). exists r'. split; [exact Hr|now right].
Qed.

Lemma GithubUtils_walk_file_agrees (file : GithubFile) :
  forall dir parentPath,
    GithubUtils.walk_file dir parentPath file = walk_file dir parentPath file.
Proof.
  induction file as [name|name|name items IH] using GithubFile_ind'; intros dir parentPath.
  - cbn [GithubUtils.walk_file walk_file file_name is_type_dir is_type_file].
    rewrite ?andb_true_r, ?andb_false_r, ?orb_false_r, ?orb_false_l.
    now destruct (includes ignoredFiles name).
  - cbn [GithubUtils.walk_file walk_file file_name is_type_dir is_type_file].
    rewrite ?andb_true_r, ?andb_false_r, ?orb_false_r, ?orb_false_l.
    now destruct (includes ignoredDirectories name).
  - cbn [GithubUtils.walk_file walk_file file_name is_type_dir is_type_file].
    rewrite ?andb_true_r, ?andb_false_r, ?orb_false_r, ?orb_false_l.
    destruct (includes ignoredDirectories name); cbn [andb orb negb]; [reflexivity|].
    f_equal. apply promise_all_ext.
    eapply Forall_impl; [|exact IH]. intros f Hf. apply Hf.
Qed.

Lemma sort_insert_paths (e1 e2 : WalkEntry) (l1 : list WalkEntry) :
  forall l2,
    entry_path e1 = entry_path e2 ->
    map entry_path l1 = map entry_path l2 ->
    map entry_path (sort_insert e1 l1) = map entry_path (sort_insert e2 l2).
Proof.
  induction l1 as [|a l1 IH]; intros [|b l2] He Hl; try discriminate.
  - simpl. now rewrite He.
  - simpl in Hl. inversion Hl as [[Hab Hrest]]. simpl.
    rewrite He, Hab.
    destruct (localeCompare (entry_path e2) (entry_path b)); simpl;
      rewrite ?He, ?Hab, ?Hrest; try reflexivity.
    f_equal. now apply IH.
Qed.

Lemma sort_by_path_paths (l1 : list WalkEntry) :
  forall l2,
    map entry_path l1 = map entry_path l2 ->
    map entry_path (sort_by_path l1) = map entry_path (sort_by_path l2).
Proof.
  induction l1 as [|a l1 IH]; intros [|b l2] Hl; try discriminate; [reflexivity|].
  simpl in Hl. inversion Hl. simpl. apply sort_insert_paths; [assumption|now apply IH].
Qed.

Lemma walk_level_paths {A : Type} (f g : A -> option (list WalkEntry)) (l : list A) :
  Forall (fun a => option_map (map entry_path) (f a) = option_map (map entry_path) (g a)) l ->
  option_map (map entry_path)
             (option_map (fun es => sort_by_path (concat es)) (promise_all (map f l))) =
  option_map (map entry_path)
             (option_map (fun es => sort_by_path (concat es)) (promise_all (map g l))).
Proof.
  intros H.
  assert (option_map (fun es => map entry_path (concat es)) (promise_all (map f l)) =
          option_map (fun es => map entry_path (concat es)) (promise_all (map g l))) as E.
  { induction H as [|a l Ha _ IH]; [reflexivity|]. simpl.
    destruct (f a) as [ra|], (g a) as [rb|]; try discriminate; [|reflexivity].
    destruct (promise_all (map f l)) as [rsa|], (promise_all (map g l)) as [rsb|];
      try discriminate; [|reflexivity].
    simpl in *. inversion Ha as [Ea]. inversion IH as [Eb]. now rewrite !map_app, Ea, Eb. }
  destruct (promise_all (map f l)) as [rsa|], (promise_all (map g l)) as [rsb|];
    try discriminate; [|reflexivity].
  simpl in *. inversion E. f_equal. now apply sort_by_path_paths.
Qed.

Lemma walkers_file_paths (file : GithubFile) :
  forall dir parentPath,
    option_map (map entry_path) (walkGithubDirectory_file dir file) =
    option_map (map entry_path) (walk_file dir parentPath file).
Proof.
  induction file as [name|name|name items IH] using GithubFile_ind'; intros dir parentPath.
  - rewrite walk_file_File, walkGithubDirectory_file_File.
    destruct (includes ignoredFiles name); [reflexivity|].
    now destruct (test_mdx_extension name).
  - rewrite walk_file_Dir, walkGithubDirectory_file_Dir.
    now destruct (includes ignoredDirectories name).
  - rewrite walk_file_Dir, walkGithubDirectory_file_Dir.
    destruct (includes ignoredDirectories name); [reflexivity|].
    cbn [walk walkGithubDirectory]. apply walk_level_paths.
    eapply Forall_impl; [|exact IH]. intros f Hf. apply Hf.
Qed.

Lemma walk_file_eligible (file : GithubFile) :
  forall dir parentPath entries e,
    walk_file dir parentPath file = Some entries ->
    In e entries ->
    forall files, In file files ->
      exists d name,
        listed_in dir files d name /\ eligible name = true /\
        entry_path e = join d name.
Proof.
  induction file as [name|name|name items IH] using GithubFile_ind';
    intros dir parentPath entries e H He.
  - rewrite walk_file_File in H.
    destruct (includes ignoredFiles name) eqn:Ei;
      [inversion H; subst; contradiction|].
    destruct (test_mdx_extension name) eqn:Et;
      inversion H; subst; [|contradiction].
    destruct He as [<-|[]]. intros files Hf. exists dir, name.
    split; [now apply listed_here|]. split; [|reflexivity].
    unfold eligible. now rewrite Ei, Et.
  - rewrite walk_file_Dir in H.
    destruct (includes ignoredDirectories name); simpl in H;
      [inversion H; subst; contradiction|discriminate].
  - rewrite walk_file_Dir in H.
    destruct (includes ignoredDirectories name) eqn:E;
      [inversion H; subst; contradiction|].
    simpl in H.
    destruct (In_walk_level _ _ _ _ H He) as (f & es & Hf & Hes & Hin).
    rewrite Forall_forall in IH.
    intros files Hfiles.
    destruct (IH f Hf _ _ _ _ Hes Hin items Hf) as (d & n & Hl & Hel & Hpath).
    exists d, n. split; [|now split].
    eapply listed_below; eauto.
Qed.

Lemma In_walk_level_intro {A : Type} (f : A -> option (list WalkEntry)) (l : list A)
      (entries : list WalkEntry) (a : A) (es : list WalkEntry) (e : WalkEntry) :
  option_map (fun es => sort_by_path (concat es)) (promise_all (map f l)) = Some entries ->
  In a l -> f a = Some es -> In e es -> In e entries.
Proof.
  intros H Ha Hf He.
  destruct (promise_all (map f l)) as [ess|] eqn:E; [|discriminate].
  simpl in H. inversion H; subst; clear H.
  apply sort_by_path_In. apply in_concat.
  destruct (promise_all_map_Some f l ess E a Ha) as (r & Hr & Hin).
  rewrite Hf in Hr. inversion Hr; subst. now exists r.
Qed.

Lemma listed_in_found (dir : string) (files : list GithubFile) (d name : string) :
  listed_in dir files d name ->
  eligible name = true ->
  forall parentPath entries,
    walk dir parentPath (Some files) = Some entries ->
    In (mkWalkEntry (join d name) parentPath) entries.
Proof.
  intros Hl Hel. unfold eligible in Hel. apply andb_prop in Hel. destruct Hel as [Hi Ht].
  apply negb_true_iff in Hi.
  induction Hl as [dir files name Hin | dir files sub items d name Hin Hsub _ IH];
    intros parentPath entries H; cbn [walk] in H.
  - apply (In_walk_level_intro _ _ _ (File name) [mkWalkEntry (join dir name) parentPath] _ H Hin).
    + rewrite walk_file_File, Hi, Ht. reflexivity.
    + now left.
  - destruct (promise_all (map (walk_file dir parentPath) files)) as [ess|] eqn:E;
      [|discriminate].
    destruct (promise_all_map_Some _ _ _ E _ Hin) as (es & Hes & _).
    rewrite walk_file_Dir, Hsub in Hes.
    rewrite <- E in H.
    apply (In_walk_level_intro _ _ _ (Dir sub (Some items)) es _ H Hin).
    + now rewrite walk_file_Dir, Hsub.
    + now apply (IH Hi Ht parentPath).
Qed.

Lemma walk_file_None (file : GithubFile) :
  forall dir parentPath,
    walk_file dir parentPath file = None <-> unlistable file = true.
Proof.
  induction file as [name|name|name items IH] using GithubFile_ind'; intros dir parentPath.
  - rewrite walk_file_File. cbn [unlistable].
    destruct (includes ignoredFiles name); [split; discriminate|].
    destruct (test_mdx_extension name); split; discriminate.
  - rewrite walk_file_Dir. cbn [unlistable].
    destruct (includes ignoredDirectories name); cbn; split; (discriminate || reflexivity).
  - rewrite walk_file_Dir. cbn [unlistable].
    destruct (includes ignoredDirectories name); cbn [negb andb]; [split; discriminate|].
    cbn [walk].
    destruct (promise_all (map (walk_file (join dir name) parentPath) items)) as [ess|] eqn:E.
    + split; [discriminate|]. intros Hex. exfalso.
      apply existsb_exists in Hex. destruct Hex as (f & Hf & Hu).
      rewrite Forall_forall in IH. apply (IH f Hf (join dir name) parentPath) in Hu.
      destruct (promise_all_map_Some _ _ _ E f Hf) as (r & Hr & _). congruence.
    + split; [intros _|reflexivity].
      apply promise_all_None in E. apply in_map_iff in E. destruct E as (f & Hf & Hin).
      apply existsb_exists. exists f. split; [exact Hin|].
      rewrite Forall_forall in IH. now apply (IH f Hin (join dir name) parentPath).
Qed.

Lemma refused_file_nil (file : GithubFile) :
  forall dir, refused_file dir file = [] <-> unlistable file = false.
Proof.
  induction file as [name|name|name items IH] using GithubFile_ind'; intros dir.
  - split; reflexivity.
  - cbn [refused_file unlistable].
    destruct (includes ignoredDirectories name); cbn; split; (discriminate || reflexivity).
  - cbn [refused_file unlistable].
    destruct (includes ignoredDirectories name); cbn [negb andb]; [split; reflexivity|].
    induction IH as [|f items Hf _ IHitems]; [split; reflexivity|].
    cbn [flat_map existsb]. rewrite orb_false_iff, <- IHitems, <- (Hf (join dir name)).
    split.
    + intros E. now apply app_eq_nil in E.
    + intros [-> ->]. reflexivity.
Qed.

Lemma walk_None_refused (dir : string) (parentPath : option string)
      (response : option (list GithubFile)) :
  walk dir parentPath response = None -> refused dir response <> [].
Proof.
  destruct response as [files|]; [|discriminate]. cbn [walk refused].
  destruct (promise_all (map (walk_file dir parentPath) files)) as [ess|] eqn:E;
    [discriminate|].
  intros _ Hnil.
  apply promise_all_None in E. apply in_map_iff in E. destruct E as (f & Hf & Hin).
  apply walk_file_None in Hf.
  assert (refused_file dir f = []) as Hr.
  { clear Hf. induction files as [|g files IH]; [contradiction|].
    cbn [flat_map] in Hnil. apply app_eq_nil in Hnil. destruct Hnil as [Hg Hrest].
    destruct Hin as [->|Hin]; [exact Hg|now apply IH]. }
  apply refused_file_nil in Hr. congruence.
Qed.

Lemma earliest_In (moment : string -> nat) (others : list string) :
  forall first, In (earliest moment first others) (first :: others).
Proof.
  induction others as [|d rest IH]; intros first; cbn [earliest]; [now left|].
  destruct (IH (if Nat.ltb (moment d) (moment first) then d else first)) as [E|Hin].
  - rewrite <- E. destruct (Nat.ltb (moment d) (moment first)); [right; now left|now left].
  - right. now right.
Qed.

Lemma earliest_least (moment : string -> nat) (others : list string) :
  forall first d,
    In d (first :: others) -> moment (earliest moment first others) <= moment d.
Proof.
  induction others as [|a rest IH]; intros first d Hd; cbn [earliest].
  - destruct Hd as [->|[]]. apply Nat.le_refl.
  - pose proof (IH (if Nat.ltb (moment a) (moment first) then a else first)) as Hc.
    assert (moment (if Nat.ltb (moment a) (moment first) then a else first) <= moment first /\
            moment (if Nat.ltb (moment a) (moment first) then a else first) <= moment a)
      as [Hfirst Ha].
    { destruct (Nat.ltb (moment a) (moment first)) eqn:E.
      - apply Nat.ltb_lt in E. split; lia.
      - apply Nat.ltb_ge in E. split; lia. }
    destruct Hd as [->|[->|Hd]].
    + eapply Nat.le_trans; [apply Hc; now left|exact Hfirst].
    + eapply Nat.le_trans; [apply Hc; now left|exact Ha].
    + apply Hc. now right.
Qed.

(** When the discovery fails, the listing whose refusal it fails with is one
    the walkers asked for and were refused, and none was refused before. *)
Lemma first_refused_spec (w : World) (dir : string) (parentPath : option string) :
  walk dir parentPath (github_contents w) = None ->
  In (first_refused w dir) (refused dir (github_contents w)) /\
  forall d, In d (refused dir (github_contents w)) ->
            listing_refused_at w (first_refused w dir) <= listing_refused_at w d.
Proof.
  intros H. apply walk_None_refused in H. unfold first_refused.
  destruct (refused dir (github_contents w)) as [|d others]; [contradiction|].
  split; [apply earliest_In|]. intros d' Hd'. now apply earliest_least.
Qed.

Lemma sort_insert_Sorted (e : WalkEntry) (l : list WalkEntry) :
  (forall a b, localeCompare a b = Gt -> localeCompare b a <> Gt) ->
  Sorted path_le l -> Sorted path_le (sort_insert e l).
Proof.
  intros Hasym. induction 1 as [|a l Hs IH Hhd]; simpl.
  - repeat constructor.
  - destruct (localeCompare (entry_path e) (entry_path a)) eqn:E.
    + constructor; [now constructor|]. constructor. unfold path_le. now rewrite E.
    + constructor; [now constructor|]. constructor. unfold path_le. now rewrite E.
    + constructor; [exact IH|].
      destruct l as [|b l]; simpl.
      * constructor. now apply Hasym.
      * inversion Hhd; subst.
        destruct (localeCompare (entry_path e) (entry_path b));
          constructor; try assumption; now apply Hasym.
Qed.

Lemma sort_by_path_Sorted (l : list WalkEntry) :
  (forall a b, localeCompare a b = Gt -> localeCompare b a <> Gt) ->
  Sorted path_le (sort_by_path l).
Proof.
  intros Hasym. induction l as [|e l IH]; simpl; [constructor|].
  now apply sort_insert_Sorted.
Qed.

Lemma test_mdx_extension_app (a b : string) :
  test_mdx_extension b = true -> test_mdx_extension (a ++ b) = true.
Proof.
  intros H. induction a as [|c a IH]; [exact H|].
  cbn [append test_mdx_extension]. rewrite IH. apply orb_true_r.
Qed.

End MoreDiscoveryFacts.

Lemma GithubUtils_walk_agrees {X : Externals}
      (dir : string) (parentPath : option string) (response : option (list GithubFile)) :
  GithubUtils.walk dir parentPath response = walk dir parentPath response.
Proof.
  destruct response as [files|]; [|reflexivity].
  cbn [GithubUtils.walk walk]. f_equal. apply promise_all_ext.
  apply Forall_forall. intros f _. apply GithubUtils_walk_file_agrees.
Qed.

Lemma walkers_paths {X : Externals}
      (dir : string) (parentPath : option string) (response : option (list GithubFile)) :
  option_map (map entry_path) (walkGithubDirectory dir response) =
  option_map (map entry_path) (walk dir parentPath response).
Proof.
  destruct response as [files|]; [|reflexivity].
  cbn [walkGithubDirectory walk]. apply walk_level_paths.
  apply Forall_forall. intros f _. apply walkers_file_paths.
Qed.

(** The three walkers of the repository find the same files, in the same
    order: [walk] of githubUtils.ts returns what [walk] of the script
    returns, failures included, and [walkGithubDirectory] returns entries
    of the same paths (it differs in the parent path it tags them with). *)
Theorem the_walkers_find_the_same_files {X : Externals}
        (dir : string) (parentPath : option string) (response : option (list GithubFile)) :
  GithubUtils.walk dir parentPath response = walk dir parentPath response
  /\ option_map (map entry_path) (walkGithubDirectory dir response) =
     option_map (map entry_path) (walk dir parentPath response).
Proof.
  split; [apply GithubUtils_walk_agrees|apply walkers_paths].
Qed.

(** When [walk] returns, its manifest holds one entry for every eligible
    file (one with the extension [.md] or [.mdx] that is not on the list of
    ignored files) standing in the listed directory or below it through
    directories that are not ignored, and it holds nothing else. *)
Theorem manifest_holds_exactly_the_eligible_files {X : Externals}
        (dir : string) (parentPath : option string) (files : list GithubFile)
        (entries : list WalkEntry) :
  walk dir parentPath (Some files) = Some entries ->
  forall e,
    In e entries <->
    exists d name,
      listed_in dir files d name /\ eligible name = true /\
      e = mkWalkEntry (join d name) parentPath.
Proof.
  intros H e. split.
  - intros He. pose proof H as H'. unfold walk in H'.
    destruct (In_walk_level _ _ _ _ H' He) as (f & es & Hf & Hes & Hin).
    destruct (walk_file_eligible f _ _ _ _ Hes Hin files Hf) as (d & name & Hl & Hel & Hp).
    destruct (walk_file_listed f _ _ _ _ Hes Hin) as [Hpp _].
    exists d, name. split; [exact Hl|]. split; [exact Hel|].
    destruct e as [p pp]. simpl in *. now subst.
  - intros (d & name & Hl & Hel & ->). now apply (listed_in_found dir files).
Qed.

Lemma manifest_holds_exactly_the_eligible_files_witness :
  exists d name,
    listed_in "docs" sample_docs d name /\ eligible name = true /\
    mkWalkEntry "docs/01-app/intro.mdx" None = mkWalkEntry (join d name) None.
Proof.
  apply (proj1 (@manifest_holds_exactly_the_eligible_files
                  sample_externals "docs" None sample_docs
                  [mkWalkEntry "docs/01-app/intro.mdx" None; mkWalkEntry "docs/index.mdx" None]
                  eq_refl (mkWalkEntry "docs/01-app/intro.mdx" None))).
  now left.
Defined.

(** The discovery fails as a whole exactly when the listing it starts from
    fails, or the listing of a directory it has to enter: one that is not
    ignored, at any depth below directories that are not ignored.  What an
    ignored directory answers does not matter.  [walkGithubDirectory] fails
    in the same cases. *)
Theorem discovery_fails_when_a_listing_fails {X : Externals}
        (dir : string) (parentPath : option string) (response : option (list GithubFile)) :
  (walk dir parentPath response = None <->
   match response with
   | None => True
   | Some files => existsb unlistable files = true
   end)
  /\ (walkGithubDirectory dir response = None <-> walk dir parentPath response = None).
Proof.
  split.
  - destruct response as [files|]; [|split; trivial]. cbn [walk].
    destruct (promise_all (map (walk_file dir parentPath) files)) as [ess|] eqn:E.
    + split; [discriminate|]. intros Hex. exfalso.
      apply existsb_exists in Hex. destruct Hex as (f & Hf & Hu).
      apply (walk_file_None f dir parentPath) in Hu.
      destruct (promise_all_map_Some _ _ _ E f Hf) as (r & Hr & _). congruence.
    + split; [intros _|reflexivity].
      apply promise_all_None in E. apply in_map_iff in E. destruct E as (f & Hf & Hin).
      apply existsb_exists. exists f. split; [exact Hin|].
      now apply (walk_file_None f dir parentPath).
  - pose proof (walkers_paths dir parentPath response) as H.
    destruct (walkGithubDirectory dir response), (walk dir parentPath response);
      try discriminate; split; congruence.
Qed.
(** With a comparator that never puts two paths each after the other, the
    manifest comes out sorted by path: no entry comes after its successor;
    with a transitive comparator, no entry comes after any later one. *)
Theorem manifest_is_sorted_by_path {X : Externals} :
  (forall a b, localeCompare a b = Gt -> localeCompare b a <> Gt) ->
  forall dir parentPath response entries,
    (walk dir parentPath response = Some entries \/
     walkGithubDirectory dir response = Some entries) ->
    Sorted path_le entries /\
    (Relations_1.Transitive path_le -> StronglySorted path_le entries).
Proof.
  intros Hasym dir parentPath response entries H.
  assert (Sorted path_le entries) as Hs.
  { destruct response as [files|]; [|destruct H; discriminate].
    cbn [walk walkGithubDirectory] in H.
    destruct H as [H|H];
      match type of H with
      | option_map _ ?p = _ => destruct p as [ess|]; [|discriminate]
      end;
      inversion H; subst; now apply sort_by_path_Sorted. }
  split; [exact Hs|]. intros Htrans. now apply Sorted_StronglySorted.
Qed.

Lemma manifest_is_sorted_by_path_witness :
  Sorted (@path_le sample_externals)
         [mkWalkEntry "docs/01-app/intro.mdx" None; mkWalkEntry "docs/index.mdx" None].
Proof.
  refine (proj1 (@manifest_is_sorted_by_path sample_externals _
                   "docs" None (Some sample_docs) _ (or_introl eq_refl))).
  intros a b Hab Hba. cbn [localeCompare sample_externals] in *.
  rewrite String.compare_antisym, Hba in Hab. discriminate.
Defined.

(** The driver makes one source of every entry of the manifest, in order:
    the filter by extension it applies once more removes nothing.  A source
    is fetched under the path of its entry and never has a parent, whatever
    parent path the entry carries. *)
Theorem every_manifest_entry_becomes_a_source {X : Externals} :
  (forall dir parentPath response entries,
      walk dir parentPath response = Some entries ->
      embeddingSources_of entries =
      map (fun entry => new_GithubEmbeddingSource "guide" (entry_path entry) None) entries /\
      map filePath (embeddingSources_of entries) = map entry_path entries)
  /\ (forall entries,
        Forall (fun d => parentPath d = None /\ parentFilePath d = None /\
                         source d = "guide" /\ source_type d = "github")
               (embeddingSources_of entries)).
Proof.
  split.
  - intros dir parentPath response entries H.
    assert (filter (fun entry => test_mdx_extension (entry_path entry)) entries = entries) as E.
    { apply forallb_filter_id. apply forallb_forall. intros e He.
      destruct response as [files|]; [|discriminate].
      pose proof H as H'. unfold walk in H'.
      destruct (In_walk_level _ _ _ _ H' He) as (f & es & Hf & Hes & Hin).
      destruct (walk_file_eligible f _ _ _ _ Hes Hin files Hf) as (d & name & _ & Hel & ->).
      unfold eligible in Hel. apply andb_prop in Hel. destruct Hel as [_ Ht].
      unfold join. apply test_mdx_extension_app. now apply (test_mdx_extension_app "/"). }
    unfold embeddingSources_of. rewrite E. split; [reflexivity|].
    rewrite map_map. reflexivity.
  - intros entries. unfold embeddingSources_of. apply Forall_map.
    apply Forall_forall. intros e _. cbn. repeat split.
Qed.

(** ** The store *)

(** ** More on the store *)

Lemma rows_of_app (id : nat) (l l' : list PageSectionRecord) :
  rows_of id (l ++ l') = rows_of id l ++ rows_of id l'.
Proof. apply filter_app. Qed.

Lemma rows_of_same (id : nat) (rows : list PageSectionRecord) :
  Forall (fun row => section_page_id row = id) rows -> rows_of id rows = rows.
Proof.
  induction 1 as [|row rows Hr _ IH]; [reflexivity|].
  cbn. rewrite Hr, Nat.eqb_refl. f_equal. exact IH.
Qed.

Lemma rows_of_other (id id' : nat) (rows : list PageSectionRecord) :
  Forall (fun row => section_page_id row = id) rows -> id' <> id -> rows_of id' rows = [].
Proof.
  intros H Hne. induction H as [|row rows Hr _ IH]; [reflexivity|].
  cbn. rewrite Hr. destruct (Nat.eqb id id') eqn:E; [|exact IH].
  apply Nat.eqb_eq in E. congruence.
Qed.

Lemma rows_of_delete_other (id id' : nat) (st : Store) :
  id' <> id ->
  rows_of id' (nods_page_section (delete_page_sections id st)) =
  rows_of id' (nods_page_section st).
Proof.
  intros Hne. cbn. induction (nods_page_section st) as [|row rows IH]; [reflexivity|].
  cbn. destruct (Nat.eqb (section_page_id row) id) eqn:E; cbn.
  - apply Nat.eqb_eq in E.
    destruct (Nat.eqb (section_page_id row) id') eqn:E'; [|exact IH].
    apply Nat.eqb_eq in E'. congruence.
  - destruct (Nat.eqb (section_page_id row) id'); [f_equal|]; exact IH.
Qed.

Lemma rows_of_fresh (st : Store) :
  store_wf st -> rows_of (next_page_id st) (nods_page_section st) = [].
Proof.
  intros (_ & _ & Hs). unfold rows_of.
  induction Hs as [|row rows Hr _ IH]; [reflexivity|].
  cbn. destruct (Nat.eqb (section_page_id row) (next_page_id st)) eqn:E; [|exact IH].
  apply Nat.eqb_eq in E. lia.
Qed.

Lemma upsert_page_keeps (path type source : string) (meta : option Meta)
      (parent : option nat) (st : Store) (q : PageRecord) :
  In q (nods_page st) -> page_path q <> path ->
  In q (nods_page (snd (upsert_page path type source meta parent st))).
Proof.
  intros Hin Hne. unfold upsert_page.
  destruct (find (fun p => String.eqb (page_path p) path) (nods_page st)) as [p|];
    cbn [snd nods_page].
  - apply in_map_iff. exists q. split; [|exact Hin].
    destruct (String.eqb (page_path q) path) eqn:E; [|reflexivity].
    apply String.eqb_eq in E. contradiction.
  - apply in_or_app. now left.
Qed.

Lemma upsert_page_ids (path type source : string) (meta : option Meta)
      (parent : option nat) (st : Store) :
  exists l,
    map page_id (nods_page (snd (upsert_page path type source meta parent st))) =
    map page_id (nods_page st) ++ l.
Proof.
  unfold upsert_page.
  destruct (find (fun p => String.eqb (page_path p) path) (nods_page st)) as [p|];
    cbn [snd nods_page].
  - exists []. rewrite app_nil_r, map_map. apply map_ext. intros q.
    now destruct (String.eqb (page_path q) path).
  - eexists. now rewrite map_app.
Qed.

Lemma upsert_page_paths_fresh (path type source : string) (meta : option Meta)
      (parent : option nat) (st : Store) :
  exists l,
    map page_path (nods_page (snd (upsert_page path type source meta parent st))) =
    map page_path (nods_page st) ++ l /\
    (l = [] \/ (l = [path] /\ ~ In path (map page_path (nods_page st)))).
Proof.
  unfold upsert_page.
  destruct (find (fun p => String.eqb (page_path p) path) (nods_page st)) as [p|] eqn:E;
    cbn [snd nods_page].
  - exists []. rewrite app_nil_r. split; [|now left].
    rewrite map_map. apply map_ext. intros q.
    now destruct (String.eqb (page_path q) path).
  - exists [path]. split; [now rewrite map_app|]. right. split; [reflexivity|].
    intros Hin. apply in_map_iff in Hin. destruct Hin as (q & Hq & Hin).
    apply (find_none _ _ E) in Hin. cbn in Hin. rewrite Hq, String.eqb_refl in Hin.
    discriminate.
Qed.

Lemma update_page_checksum_others (id : nat) (c : string) (st : Store) (q : PageRecord) :
  In q (nods_page st) -> page_id q <> id ->
  In q (nods_page (update_page_checksum id c st)).
Proof.
  intros Hin Hne. cbn [update_page_checksum nods_page].
  apply in_map_iff. exists q. split; [|exact Hin].
  destruct (Nat.eqb (page_id q) id) eqn:E; [|reflexivity].
  apply Nat.eqb_eq in E. contradiction.
Qed.

Lemma update_page_checksum_ids (id : nat) (c : string) (st : Store) :
  map page_id (nods_page (update_page_checksum id c st)) = map page_id (nods_page st).
Proof.
  cbn. rewrite map_map. apply map_ext. intros p. now destruct (Nat.eqb (page_id p) id).
Qed.

Lemma update_page_parent_ids (id : nat) (parent : option nat) (st : Store) :
  map page_id (nods_page (update_page_parent id parent st)) = map page_id (nods_page st).
Proof.
  cbn. rewrite map_map. apply map_ext. intros p. now destruct (Nat.eqb (page_id p) id).
Qed.

Lemma no_orphans_delete (id : nat) (st : Store) :
  no_orphans st -> no_orphans (delete_page_sections id st).
Proof.
  unfold no_orphans. cbn. intros H. eapply incl_Forall; [apply incl_filter|exact H].
Qed.

(** What the upsert of a page and the loop over its sections leave of a
    page of another path and of its rows. *)
Lemma write_page_keeps (path type source : string) (meta : option Meta)
      (parent : option nat) (st st1 : Store) (rows : list PageSectionRecord)
      (c : string) (q : PageRecord) :
  let upserted := upsert_page path type source meta parent st in
  nods_page st1 = nods_page (snd upserted) ->
  nods_page_section st1 = nods_page_section (snd upserted) ++ rows ->
  Forall (fun row => section_page_id row = page_id (fst upserted)) rows ->
  store_wf st ->
  In q (nods_page st) -> page_path q <> path ->
  page_id q <> page_id (fst upserted) /\
  In q (nods_page st1) /\
  In q (nods_page (update_page_checksum (page_id (fst upserted)) c st1)) /\
  rows_of (page_id q) (nods_page_section st1) = rows_of (page_id q) (nods_page_section st).
Proof.
  cbv zeta. intros Epages Erows Hrows Hwf Hq Hne.
  pose proof (upsert_page_selected path type source meta parent st) as Hup.
  cbv zeta in Hup. destruct Hup as (Hselected & _ & Hpath & Hsections & _).
  destruct (store_wf_upsert path type source meta parent st Hwf) as [Hwf' _].
  pose proof (upsert_page_keeps path type source meta parent st q Hq Hne) as Hq'.
  destruct (select_page_path _ _ _ Hselected) as [_ Hin'].
  assert (page_id q <> page_id (fst (upsert_page path type source meta parent st))) as Hid.
  { apply (distinct_paths_distinct_ids _ _ _ Hwf' Hq' Hin'). congruence. }
  split; [exact Hid|].
  assert (In q (nods_page st1)) as Hq1 by now rewrite Epages.
  split; [exact Hq1|]. split; [now apply update_page_checksum_others|].
  rewrite Erows, rows_of_app, (rows_of_other _ _ _ Hrows Hid), app_nil_r.
  now rewrite Hsections.
Qed.

Lemma no_orphans_write (path type source : string) (meta : option Meta)
      (parent : option nat) (st st1 : Store) (rows : list PageSectionRecord) :
  let upserted := upsert_page path type source meta parent st in
  nods_page st1 = nods_page (snd upserted) ->
  nods_page_section st1 = nods_page_section (snd upserted) ++ rows ->
  Forall (fun row => section_page_id row = page_id (fst upserted)) rows ->
  no_orphans st -> no_orphans st1.
Proof.
  cbv zeta. intros Epages Erows Hrows Hno.
  pose proof (upsert_page_selected path type source meta parent st) as Hup.
  cbv zeta in Hup. destruct Hup as (Hselected & _ & _ & Hsections & _).
  destruct (upsert_page_ids path type source meta parent st) as (l & Hids).
  destruct (select_page_path _ _ _ Hselected) as [_ Hin'].
  unfold no_orphans. rewrite Epages, Erows, Hsections, Hids.
  apply Forall_app. split.
  - eapply Forall_impl; [|exact Hno]. intros row Hr. apply in_or_app. now left.
  - eapply Forall_impl; [|exact Hrows]. cbn. intros row ->.
    rewrite <- Hids. now apply in_map.
Qed.

(** ** Reconciliation and the driver *)

Section MoreReconcileFacts.
Context {X : Externals}.
Variable w : World.

(** What a reconciliation keeps, however it ends: the pages of the other
    paths and their rows, the foreign key of the section table, and every
    path of the page table, to which it adds at most its own. *)
Lemma reconcile_keeps (embeddingSource : GithubEmbeddingSource) (s : State) :
  post (reconcile w embeddingSource) s (fun r s' log =>
    (store_wf (store s) ->
     forall q, In q (nods_page (store s)) -> page_path q <> path embeddingSource ->
       In q (nods_page (store s')) /\
       rows_of (page_id q) (nods_page_section (store s')) =
       rows_of (page_id q) (nods_page_section (store s))) /\
    (no_orphans (store s) -> no_orphans (store s')) /\
    (exists l,
        map page_path (nods_page (store s')) = map page_path (nods_page (store s)) ++ l /\
        (l = [] \/
         (l = [path embeddingSource] /\
          ~ In (path embeddingSource) (map page_path (nods_page (store s))))))).
Proof.
  explore_reconcile.
  all: try loop_facts.
  all: try subst upserted.
  all: try (destruct (select_existingPage_Some _ _ _ _ Hexisting) as [Hp _];
            destruct (select_page_path _ _ _ Hp) as [Hpp Hpin]).
  all: split; [|split].
  (* nothing was written *)
  all: try (intros Hwf q Hq Hne; split; [exact Hq|reflexivity]).
  all: try (intros Hno; exact Hno).
  all: try (exists []; rewrite app_nil_r; split; [reflexivity|now left]).
  (* the pages of the other paths *)
  all: try (intros Hwf q Hq Hne;
            try (assert (page_id q <> page_id existingPage) as Hid
                  by (apply (distinct_paths_distinct_ids (store s)); try assumption;
                      congruence));
            first
              [ split; [apply update_page_parent_others; assumption|reflexivity]
              | split; [exact Hq|now apply rows_of_delete_other]
              | destruct (write_page_keeps _ _ _ _ _ _ _ rows (checksum doc) q
                            Hpages Hrows Hids (store_wf_delete _ _ Hwf) Hq Hne)
                  as (_ & H1 & H2 & H3);
                split; [first [exact H1|exact H2]|];
                cbn [update_page_checksum nods_page_section]; rewrite H3;
                now apply rows_of_delete_other
              | destruct (write_page_keeps _ _ _ _ _ _ _ rows (checksum doc) q
                            Hpages Hrows Hids Hwf Hq Hne)
                  as (_ & H1 & H2 & H3);
                split; [first [exact H1|exact H2]|];
                cbn [update_page_checksum nods_page_section]; exact H3 ]).
  (* the foreign key *)
  all: try (intros Hno;
            first
              [ now apply no_orphans_delete
              | unfold no_orphans; rewrite update_page_parent_ids; exact Hno
              | apply (no_orphans_write _ _ _ _ _ _ _ rows Hpages Hrows Hids);
                first [exact Hno|now apply no_orphans_delete]
              | unfold no_orphans; rewrite update_page_checksum_ids;
                cbn [update_page_checksum nods_page_section];
                apply (no_orphans_write _ _ _ _ _ _ _ rows Hpages Hrows Hids);
                first [exact Hno|now apply no_orphans_delete] ]).
  (* the paths *)
  all: try (exists []; rewrite app_nil_r; split; [apply update_page_parent_paths|now left]).
  all: rewrite ?update_page_checksum_paths, Hpages;
    first [ apply upsert_page_paths_fresh
          | exact (upsert_page_paths_fresh _ _ _ _ _
                     (delete_page_sections (page_id existingPage) (store s))) ].
Qed.


(** A reconciliation that regenerates a page and ends without an exception:
    the page it leaves, and the rows it wrote for it. *)
Lemma reconcile_rewrites_sections (embeddingSource : GithubEmbeddingSource) (s : State) :
  post (reconcile w embeddingSource) s (fun r s' log =>
    r = Ok tt ->
    forall fetched document,
      axios_get w (clock s) (source_url embeddingSource) = Some fetched ->
      processMdxForSearch fetched = Ok document ->
      (forall p, select_page (Some (path embeddingSource)) (store s) = Some p ->
                 page_checksum p <> Some (checksum document)) ->
      exists p rows,
        select_page (Some (path embeddingSource)) (store s') = Some p /\
        page_checksum p = Some (checksum document) /\
        map section_of_row rows = sections document /\
        Forall (fun row => section_page_id row = page_id p) rows /\
        match select_page (Some (path embeddingSource)) (store s) with
        | Some p0 =>
            page_id p = page_id p0 /\
            nods_page_section (store s') =
            nods_page_section (delete_page_sections (page_id p0) (store s)) ++ rows
        | None =>
            page_id p = next_page_id (store s) /\
            nods_page_section (store s') = nods_page_section (store s) ++ rows
        end).
Proof.
  explore_reconcile.
  all: intros Hr; try discriminate.
  all: intros fetched document Hget0 Hdoc0 Hdiff; unfold source_url in Hget0.
  all: rewrite Hget in Hget0; inversion Hget0; subst fetched.
  all: rewrite Hdoc in Hdoc0; inversion Hdoc0; subst document.
  all: try loop_facts.
  all: try (destruct (select_existingPage_Some _ _ _ _ Hexisting) as [Hp _]).
  all: try (apply select_existingPage_None in Hexisting).
  all: try (apply checksum_matches_true in Hmatch; exfalso; exact (Hdiff _ Hp Hmatch)).
  all: destruct Hresult as [_ Hmap].
  all: exists (set_checksum (Some (checksum doc)) (fst upserted)), rows.
  all: split; [rewrite select_page_update_checksum, (select_page_pages _ _ _ Hpages), Hselected;
               cbn [option_map]; now rewrite Nat.eqb_refl|].
  all: split; [reflexivity|]. 
  all: split; [exact Hmap|].
  all: split; [exact Hids|].
  all: cbn [update_page_checksum nods_page_section store page_id set_checksum].
  all: rewrite Hrows, Hsections.
  - rewrite Hp. split; [|reflexivity]. apply Hsame. exact Hp.
  - rewrite Hexisting. split; [|reflexivity]. apply Hfresh. exact Hexisting.
Qed.


Lemma NoDup_snoc_fresh {A : Type} (l : list A) (x : A) :
  NoDup l -> ~ In x l -> NoDup (l ++ [x]).
Proof.
  intros Hnd Hx. apply NoDup_app; [exact Hnd|repeat constructor; intros []|].
  intros y Hy [<-|[]]. contradiction.
Qed.

(** What the loop over the sources keeps. *)
Lemma reconcile_all_keeps (sources : list GithubEmbeddingSource) :
  forall s,
    post (reconcile_all w sources) s (fun r s' log =>
      (store_wf (store s) ->
       forall q, In q (nods_page (store s)) -> ~ In (page_path q) (map path sources) ->
         In q (nods_page (store s')) /\
         rows_of (page_id q) (nods_page_section (store s')) =
         rows_of (page_id q) (nods_page_section (store s))) /\
      (store_wf (store s) -> store_wf (store s')) /\
      (no_orphans (store s) -> no_orphans (store s')) /\
      (exists added,
          map page_path (nods_page (store s')) =
          map page_path (nods_page (store s)) ++ added /\
          incl added (map path sources) /\
          (NoDup (map page_path (nods_page (store s))) ->
           NoDup (map page_path (nods_page (store s')))))).
Proof.
  induction sources as [|d sources IH]; intros s.
  - cbn. split; [intros _ q Hq _; now split|]. split; [tauto|]. split; [tauto|].
    exists []. rewrite app_nil_r. split; [reflexivity|]. split; [apply incl_refl|tauto].
  - unfold reconcile_all in *. cbn [for_of]. unfold post, bind.
    destruct (reconcile_guarded_run w d s) as (r0 & s1 & log0 & Hrun & ->).
    specialize (IH s1). unfold post in IH.
    destruct (for_of sources (reconcile_guarded w) s1) as [[r s'] log].
    destruct IH as (Hkeep & Hwf & Hno & added & Hpaths & Hincl & Hnd).
    pose proof (reconcile_keeps d s) as Hk.
    pose proof (reconcile_frame w d s) as Hfr.
    unfold post in Hk, Hfr. rewrite Hrun in Hk, Hfr.
    destruct Hk as (Hkeep0 & Hno0 & l & Hpaths0 & Hl).
    destruct Hfr as (Hwf0 & _ & _).
    split; [|split; [|split; [|]]].
    + intros Hw q Hq Hnot. cbn [map] in Hnot.
      destruct (Hkeep0 Hw q Hq) as [Hq1 Hrows1]; [intros E; apply Hnot; now left|].
      destruct (Hkeep (Hwf0 Hw) q Hq1) as [Hq2 Hrows2]; [intros Hin; apply Hnot; now right|].
      split; [exact Hq2|congruence].
    + intros Hw. now apply Hwf, Hwf0.
    + intros H. now apply Hno, Hno0.
    + exists (l ++ added). split; [now rewrite Hpaths, Hpaths0, app_assoc|]. split.
      * cbn [map]. apply incl_app.
        -- destruct Hl as [->|[-> _]]; [apply incl_nil_l|].
           intros x [<-|[]]. now left.
        -- now apply incl_tl.
      * intros H. apply Hnd. rewrite Hpaths0.
        destruct Hl as [->|[-> Hfresh]]; [now rewrite app_nil_r|].
        now apply NoDup_snoc_fresh.
Qed.

(** A reconciliation that finds the checksum of the fetched document on the
    page leaves the section table as it is. *)
Lemma reconcile_unchanged_sections (embeddingSource : GithubEmbeddingSource) (s : State) :
  post (reconcile w embeddingSource) s (fun r s' log =>
    forall fetched document p0,
      axios_get w (clock s) (source_url embeddingSource) = Some fetched ->
      processMdxForSearch fetched = Ok document ->
      select_page (Some (path embeddingSource)) (store s) = Some p0 ->
      page_checksum p0 = Some (checksum document) ->
      nods_page_section (store s') = nods_page_section (store s)).
Proof.
  explore_reconcile.
  all: intros fetched document p0 Hget0 Hdoc0 Hp0 Hc0; unfold source_url in Hget0.
  all: try reflexivity.
  all: rewrite Hget in Hget0; inversion Hget0; subst fetched.
  all: rewrite Hdoc in Hdoc0; inversion Hdoc0; subst document.
  all: try (destruct (select_existingPage_Some _ _ _ _ Hexisting) as [Hp _];
            rewrite Hp0 in Hp; inversion Hp; subst existingPage;
            apply checksum_matches_false in Hmatch; contradiction).
  all: apply select_existingPage_None in Hexisting; congruence.
Qed.

(** The three ways [generateEmbeddings] can go. *)
Lemma generateEmbeddings_run (s : State) :
  (configured = false /\
   exists message, generateEmbeddings w s = (Ok tt, s, [ConsoleLog message]))
  \/ (configured = true /\
      walk "docs" None (github_contents w) = None /\
      generateEmbeddings w s =
      (Throw (AxiosError (GITHUB_URL ++ first_refused w "docs")), s,
       [ConsoleLog "Checking which pages are new or have changed"]))
  \/ (configured = true /\
      exists entries s' log,
        walk "docs" None (github_contents w) = Some entries /\
        reconcile_all w (embeddingSources_of entries) s = (Ok tt, s', log) /\
        generateEmbeddings w s =
        (Ok tt, s',
         [ConsoleLog "Checking which pages are new or have changed";
          ConsoleLog ("Discovered " ++ number_to_string (List.length entries) ++ " pages");
          ConsoleLog "Checking which pages are new or have changed"]
           ++ log ++ [ConsoleLog "Embedding generation complete"])).
Proof.
  unfold generateEmbeddings, configured.
  destruct ((SUPABASE_URL =? "") || (SUPABASE_SERVICE_ROLE_KEY =? "") || (OPENAI_KEY =? ""))%string.
  - left. split; [reflexivity|]. eexists. reflexivity.
  - right. cbn [negb]. unfold shouldRefresh.
    destruct (walk "docs" None (github_contents w)) as [entries|] eqn:Hwalk.
    + right. split; [reflexivity|].
      pose proof (reconcile_all_spec w (embeddingSources_of entries) s) as Hall.
      unfold post in Hall.
      destruct (reconcile_all w (embeddingSources_of entries) s) as [[r s'] log] eqn:Hrun.
      destruct Hall as (-> & _).
      exists entries, s', log. split; [reflexivity|]. split; [exact Hrun|].
      assert (List.length (embeddingSources_of entries) = List.length entries) as Hlen.
      { unfold embeddingSources_of. rewrite length_map. f_equal.
        apply forallb_filter_id. apply forallb_forall. intros e He.
        destruct (github_contents w) as [files|]; [|discriminate].
        pose proof Hwalk as H'. unfold walk in H'.
        destruct (In_walk_level _ _ _ _ H' He) as (f & es & Hf & Hes & Hin).
        destruct (walk_file_eligible f _ _ _ _ Hes Hin files Hf) as (d & name & _ & Hel & ->).
        unfold eligible in Hel. apply andb_prop in Hel. destruct Hel as [_ Ht].
        unfold join. apply test_mdx_extension_app. now apply (test_mdx_extension_app "/"). }
      unfold bind, console_log, ret. rewrite Hrun, Hlen. cbn. reflexivity.
    + left. split; [reflexivity|]. split; [reflexivity|]. reflexivity.
Qed.

End MoreReconcileFacts.

(** When a page is regenerated and the reconciliation ends without an
    exception, the rows of that page in the section table are the sections
    of the fetched document, in order, and nothing else: the rows it had
    are gone, none is left from an earlier run that was cut short.  The
    rows of every other page are as they were. *)
Theorem regeneration_replaces_the_sections {X : Externals} (w : World)
        (embeddingSource : GithubEmbeddingSource) (s : State)
        (fetched : string) (document : ProcessedMdx) :
  store_wf (store s) ->
  axios_get w (clock s) (source_url embeddingSource) = Some fetched ->
  processMdxForSearch fetched = Ok document ->
  (forall p, select_page (Some (path embeddingSource)) (store s) = Some p ->
             page_checksum p <> Some (checksum document)) ->
  post (reconcile w embeddingSource) s (fun r s' log =>
    r = Ok tt ->
    exists p,
      select_page (Some (path embeddingSource)) (store s') = Some p /\
      page_checksum p = Some (checksum document) /\
      map section_of_row (rows_of (page_id p) (nods_page_section (store s'))) =
      sections document /\
      forall id, id <> page_id p ->
                 rows_of id (nods_page_section (store s')) =
                 rows_of id (nods_page_section (store s))).
Proof.
  intros Hwf Hget Hdoc Hdiff.
  eapply post_conseq; [apply reconcile_rewrites_sections|].
  intros r s' log H Hr.
  destruct (H Hr fetched document Hget Hdoc Hdiff) as (p & rows & Hp & Hc & Hmap & Hids & Hs).
  exists p. split; [exact Hp|]. split; [exact Hc|].
  destruct (select_page (Some (path embeddingSource)) (store s)) as [p0|].
  - destruct Hs as [Hid ->]. rewrite <- Hid. split.
    + now rewrite rows_of_app, rows_of_delete_same, (rows_of_same _ _ Hids).
    + intros id Hne.
      rewrite rows_of_app, (rows_of_other _ _ _ Hids Hne), app_nil_r.
      now apply rows_of_delete_other.
  - destruct Hs as [Hid ->]. split.
    + rewrite rows_of_app, (rows_of_same _ _ Hids), Hid, (rows_of_fresh _ Hwf). exact Hmap.
    + intros id Hne. now rewrite rows_of_app, (rows_of_other _ _ _ Hids Hne), app_nil_r.
Qed.

Lemma regeneration_replaces_the_sections_witness :
  post (reconcile sample_world (new_GithubEmbeddingSource "guide" "docs/index.mdx" None)
                  (X := sample_externals))
       sample_stale_state
       (fun r s' log =>
          r = Ok tt /\
          map section_of_row (rows_of 1 (nods_page_section (store s'))) =
          [mkSection ("Intro" ++ String "010" "Hello") (Some "Intro") (Some "intro");
           mkSection ("Usage" ++ String "010" "Do X") (Some "Usage") (Some "usage");
           mkSection ("Usage" ++ String "010" "Do Y") (Some "Usage") (Some "usage-1")]).
Proof.
  assert (store_wf (store sample_stale_state)) as Hwf.
  { repeat split; repeat constructor; cbn; intuition lia. }
  pose proof (@regeneration_replaces_the_sections
                sample_externals sample_world
                (new_GithubEmbeddingSource "guide" "docs/index.mdx" None)
                sample_stale_state sample_document
                (mkProcessedMdx sample_document None
                   [mkSection ("Intro" ++ String "010" "Hello") (Some "Intro") (Some "intro");
                    mkSection ("Usage" ++ String "010" "Do X") (Some "Usage") (Some "usage");
                    mkSection ("Usage" ++ String "010" "Do Y") (Some "Usage") (Some "usage-1")])
                Hwf eq_refl eq_refl) as H.
  unfold post in *.
  destruct (@reconcile sample_externals sample_world
                       (new_GithubEmbeddingSource "guide" "docs/index.mdx" None)
                       sample_stale_state) as [[r s'] log] eqn:E.
  vm_compute in E. inversion E; subst r s' log. clear E.
  split; [reflexivity|].
  destruct H as (p & Hp & _ & Hrows & _).
  - intros p Hp. vm_compute in Hp. inversion Hp; subst p. discriminate.
  - reflexivity.
  - vm_compute in Hp. inversion Hp; subst p. exact Hrows.
Defined.

(** Under the constraints of the store, the reconciliation of a source,
    however it ends, leaves every page of another path exactly as it was,
    with all its fields, and leaves the rows of such a page as they were. *)
Theorem reconciliation_leaves_the_other_pages_alone {X : Externals} (w : World)
        (embeddingSource : GithubEmbeddingSource) (s : State) :
  store_wf (store s) ->
  post (reconcile w embeddingSource) s (fun r s' log =>
    forall q, In q (nods_page (store s)) -> page_path q <> path embeddingSource ->
      In q (nods_page (store s')) /\
      rows_of (page_id q) (nods_page_section (store s')) =
      rows_of (page_id q) (nods_page_section (store s))).
Proof.
  intros Hwf. eapply post_conseq; [apply reconcile_keeps|].
  intros r s' log (H & _). now apply H.
Qed.

Lemma reconciliation_leaves_the_other_pages_alone_witness :
  post (reconcile sample_world (new_GithubEmbeddingSource "guide" "docs/guide.mdx" None)
                  (X := sample_externals))
       sample_linked_state
       (fun r s' log =>
          In (mkPage 1 "/index" (Some sample_document) (Some "github") (Some "guide") None None)
             (nods_page (store s')) /\
          rows_of 1 (nods_page_section (store s')) =
          [mkPageSection 1 (Some "intro") (Some "Intro") "Intro" 7 [1; 2; 3]%Z]).
Proof.
  eapply post_conseq.
  - apply (@reconciliation_leaves_the_other_pages_alone
             sample_externals sample_world
             (new_GithubEmbeddingSource "guide" "docs/guide.mdx" None) sample_linked_state).
    repeat split; repeat constructor; cbn; intuition lia.
  - intros r s' log H.
    apply (H (mkPage 1 "/index" (Some sample_document) (Some "github") (Some "guide") None None)).
    + now left.
    + discriminate.
Defined.

(** When the file of a source cannot be fetched, or cannot be parsed, or
    when the store fails to answer the first selection, the reconciliation
    throws before it has written anything: the store is as it was, page and
    rows, and no embedding was asked for. *)
Theorem a_source_that_cannot_be_read_changes_nothing {X : Externals} (w : World)
        (embeddingSource : GithubEmbeddingSource) (s : State) :
  (axios_get w (clock s) (source_url embeddingSource) = None \/
   (exists fetched,
       axios_get w (clock s) (source_url embeddingSource) = Some fetched /\
       processMdxForSearch fetched = Throw MdxSyntaxError) \/
   supabase_error w (S (clock s)) = true) ->
  post (reconcile w embeddingSource) s (fun r s' log =>
    (exists e, r = Throw e) /\
    store s' = store s /\
    Forall (fun e => is_embedding_call e = false /\ is_store_mutation e = false) log).
Proof.
  intros Hfail. unfold source_url in Hfail.
  explore_reconcile.
  all: try (split; [eexists; reflexivity|]; split; [reflexivity|repeat constructor]).
  all: exfalso; destruct Hfail as [Hf|[(fetched & Hf & Hd)|Hf]]; try congruence.
  all: rewrite Hget in Hf; inversion Hf; subst fetched; congruence.
Qed.

Lemma a_source_that_cannot_be_read_changes_nothing_witness :
  post (reconcile sample_store_fault_world
                  (new_GithubEmbeddingSource "guide" "docs/index.mdx" None)
                  (X := sample_externals))
       (mkState (store sample_stale_state) 2)
       (fun r s' log =>
          (exists e, r = Throw e) /\ store s' = store sample_stale_state).
Proof.
  eapply post_conseq.
  - apply (@a_source_that_cannot_be_read_changes_nothing
             sample_externals sample_store_fault_world
             (new_GithubEmbeddingSource "guide" "docs/index.mdx" None)
             (mkState (store sample_stale_state) 2)).
    right. right. reflexivity.
  - intros r s' log (Hr & Hs & _). now split.
Defined.

(** A run of [generateEmbeddings], however it goes, never removes a page
    and never changes the path of one: the paths of the page table are
    those it had, in order, followed by those of new pages.  It keeps the
    paths distinct, keeps every row of the section table attached to a page
    that is there, and keeps the constraints of the store. *)
Theorem a_run_never_removes_a_page {X : Externals} (w : World) (s : State) :
  post (generateEmbeddings w) s (fun r s' log =>
    (exists added,
        map page_path (nods_page (store s')) =
        map page_path (nods_page (store s)) ++ added /\
        forall entries,
          walk "docs" None (github_contents w) = Some entries ->
          incl added (map path (embeddingSources_of entries))) /\
    (NoDup (map page_path (nods_page (store s))) ->
     NoDup (map page_path (nods_page (store s')))) /\
    (no_orphans (store s) -> no_orphans (store s')) /\
    (store_wf (store s) -> store_wf (store s'))).
Proof.
  unfold post.
  destruct (generateEmbeddings_run w s)
    as [(_ & message & ->)|[(_ & _ & ->)|(_ & entries & s' & log & Hwalk & Hrun & ->)]].
  - split; [exists []; rewrite app_nil_r; split; [reflexivity|intros; apply incl_nil_l]|tauto].
  - split; [exists []; rewrite app_nil_r; split; [reflexivity|intros; apply incl_nil_l]|tauto].
  - pose proof (reconcile_all_keeps w (embeddingSources_of entries) s) as H.
    unfold post in H. rewrite Hrun in H.
    destruct H as (_ & Hwf & Hno & added & Hpaths & Hincl & Hnd).
    split; [|split; [exact Hnd|split; [exact Hno|exact Hwf]]].
    exists added. split; [exact Hpaths|].
    intros entries' E. rewrite Hwalk in E. now inversion E; subst.
Qed.

(** A page whose path is the path of no discovered file (its file was
    removed or renamed, or stands in an ignored directory) goes through a
    run of [generateEmbeddings] untouched: it is kept, with its checksum and
    all its fields, and so are its rows. *)
Theorem pages_of_undiscovered_files_are_kept {X : Externals} (w : World) (s : State)
        (q : PageRecord) :
  store_wf (store s) ->
  In q (nods_page (store s)) ->
  (forall entries e,
      walk "docs" None (github_contents w) = Some entries ->
      In e entries ->
      page_path q <> replace_mdx_extension (replace_docs_prefix (entry_path e))) ->
  post (generateEmbeddings w) s (fun r s' log =>
    In q (nods_page (store s')) /\
    rows_of (page_id q) (nods_page_section (store s')) =
    rows_of (page_id q) (nods_page_section (store s))).
Proof.
  intros Hwf Hq Hnot. unfold post.
  destruct (generateEmbeddings_run w s)
    as [(_ & message & ->)|[(_ & _ & ->)|(_ & entries & s' & log & Hwalk & Hrun & ->)]].
  - now split.
  - now split.
  - pose proof (reconcile_all_keeps w (embeddingSources_of entries) s) as H.
    unfold post in H. rewrite Hrun in H.
    destruct H as (Hkeep & _). apply (Hkeep Hwf q Hq).
    intros Hin. unfold embeddingSources_of in Hin. rewrite map_map in Hin.
    apply in_map_iff in Hin. destruct Hin as (e & He & Hin).
    apply filter_In in Hin. destruct Hin as [Hin _].
    apply (Hnot entries e Hwalk Hin). now rewrite <- He.
Qed.

Lemma pages_of_undiscovered_files_are_kept_witness :
  post (generateEmbeddings sample_world (X := sample_externals))
       (mkState (mkStore
                   [mkPage 1 "/03-pages/legacy" (Some "text") (Some "github") (Some "guide")
                           None None]
                   [mkPageSection 1 None None "text" 1 [1]%Z] 2) 0)
       (fun r s' log =>
          In (mkPage 1 "/03-pages/legacy" (Some "text") (Some "github") (Some "guide")
                     None None)
             (nods_page (store s')) /\
          rows_of 1 (nods_page_section (store s')) =
          [mkPageSection 1 None None "text" 1 [1]%Z]).
Proof.
  apply (@pages_of_undiscovered_files_are_kept
           sample_externals sample_world
           (mkState (mkStore
                       [mkPage 1 "/03-pages/legacy" (Some "text") (Some "github")
                               (Some "guide") None None]
                       [mkPageSection 1 None None "text" 1 [1]%Z] 2) 0)
           (mkPage 1 "/03-pages/legacy" (Some "text") (Some "github") (Some "guide")
                   None None)).
  - repeat split; repeat constructor; cbn; intuition lia.
  - now left.
  - intros entries e Hwalk He. vm_compute in Hwalk. inversion Hwalk; subst entries.
    destruct He as [<-|[<-|[]]]; vm_compute; discriminate.
Defined.

(** The script as a whole never throws.  With one of its three settings
    empty it logs one line and does nothing else.  When the discovery fails
    it logs the error of the request for the listing that was refused
    first, a listing the walk had asked for, and does nothing else.
    Otherwise it logs the size of the manifest and runs the loop over one
    source for every entry of the manifest. *)
Theorem main_never_throws {X : Externals} (w : World) (s : State) :
  post (main w) s (fun r s' log =>
    r = Ok tt /\
    (configured = false -> s' = s /\ exists message, log = [ConsoleLog message]) /\
    (configured = true ->
     walk "docs" None (github_contents w) = None ->
     s' = s /\
     log = [ConsoleLog "Checking which pages are new or have changed";
            ConsoleErrorExn (AxiosError (GITHUB_URL ++ first_refused w "docs"))] /\
     In (first_refused w "docs") (refused "docs" (github_contents w)) /\
     forall d, In d (refused "docs" (github_contents w)) ->
               listing_refused_at w (first_refused w "docs") <= listing_refused_at w d) /\
    (configured = true ->
     forall entries,
       walk "docs" None (github_contents w) = Some entries ->
       exists log0,
         reconcile_all w (embeddingSources_of entries) s = (Ok tt, s', log0) /\
         log = [ConsoleLog "Checking which pages are new or have changed";
                ConsoleLog ("Discovered " ++ number_to_string (List.length entries) ++ " pages");
                ConsoleLog "Checking which pages are new or have changed"]
                 ++ log0 ++ [ConsoleLog "Embedding generation complete"])).
Proof.
  unfold post, main, try_catch.
  destruct (generateEmbeddings_run w s)
    as [(Hc & message & ->)|[(Hc & Hwalk & ->)|(Hc & entries & s' & log & Hwalk & Hrun & ->)]].
  - split; [reflexivity|]. split; [intros _; split; [reflexivity|now exists message]|].
    split; intros; congruence.
  - cbn. split; [reflexivity|]. split; [intros; congruence|].
    split; [|intros _ entries E; congruence].
    intros _ _. split; [reflexivity|]. split; [reflexivity|].
    exact (first_refused_spec w "docs" None Hwalk).
  - split; [reflexivity|]. split; [intros; congruence|]. split; [intros; congruence|].
    intros _ entries' E. rewrite Hwalk in E. inversion E; subst entries'.
    exists log. now split.
Qed.

(** The listing of [docs/01-app] is refused, that of [docs] is not: the
    error logged names [docs/01-app]. *)
Example main_logs_the_refused_listing :
  @main sample_externals
        (mkWorld (Some [Dir "01-app" None; File "index.mdx"]) (fun _ => 0)
                 (fun _ _ => Some sample_document)
                 (fun _ _ _ => Some ([1; 2; 3]%Z, 7))
                 (fun _ => false))
        sample_state =
  (Ok tt, sample_state,
   [ConsoleLog "Checking which pages are new or have changed";
    ConsoleErrorExn
      (AxiosError "https://api.github.com/repos/vercel/next.js/contents/docs/01-app")]).
Proof. reflexivity. Qed.

(** ** The markdown code *)

(** ** More on the markdown code *)

Fixpoint Node_ind' (P : Node -> Prop)
         (Hnode : forall t v e cs, Forall P cs -> P (mkNode t v e cs))
         (node : Node) {struct node} : P node :=
  match node with
  | mkNode t v e cs =>
      Hnode t v e cs
            ((fix all (l : list Node) : Forall P l :=
                match l with
                | [] => Forall_nil P
                | c :: rest => Forall_cons c (Node_ind' P Hnode c) (all rest)
                end) cs)
  end.

Lemma unist_filter_every (node : Node) :
  forall node',
    unist_filter not_mdx node = Some node' ->
    every_node not_mdx node' = true.
Proof.
  induction node as [t v e cs IH] using Node_ind'. intros node' H.
  cbn [unist_filter] in H.
  destruct (not_mdx (mkNode t v e cs)) eqn:Ht; [|discriminate].
  destruct ((0 <? List.length cs)%nat && _); [discriminate|].
  inversion H; subst node'. cbn [every_node].
  apply andb_true_intro. split; [exact Ht|].
  apply forallb_forall. intros c' Hc'.
  apply in_flat_map in Hc'. destruct Hc' as (c & Hc & Hin).
  rewrite Forall_forall in IH.
  destruct (unist_filter not_mdx c) as [c''|] eqn:E; [|contradiction].
  destruct Hin as [<-|[]]. now apply (IH c Hc).
Qed.

Lemma every_node_children (test : Node -> bool) (node : Node) :
  every_node test node = true ->
  Forall (fun c => every_node test c = true) (node_children node).
Proof.
  destruct node as [t v e cs]. cbn [every_node node_children]. intros H.
  apply andb_prop in H. destruct H as [_ H]. apply Forall_forall.
  now apply forallb_forall.
Qed.

Lemma splitTreeBy_every (mdTree : Node) :
  every_node not_mdx mdTree = true ->
  Forall (fun tree => every_node not_mdx tree = true) (splitTreeBy mdTree is_heading).
Proof.
  intros H. apply every_node_children in H.
  destruct (splitTreeBy_invariant is_heading (node_children mdTree)) as (Hcat & Hsec & _).
  cbv zeta in *. fold (splitTreeBy mdTree is_heading) in *.
  rewrite <- Hcat in H. rewrite Forall_forall in H.
  apply Forall_forall. intros tree Htree.
  rewrite Forall_forall in Hsec. destruct (Hsec tree Htree) as (first & rest & -> & _).
  cbn [every_node u]. apply andb_true_intro. split; [reflexivity|].
  apply forallb_forall. intros c Hc. apply H. apply in_concat.
  exists (first :: rest). split; [|exact Hc].
  change (first :: rest) with (node_children (u "root" (first :: rest))).
  now apply in_map.
Qed.

Lemma unist_filter_only_mdx (t : string) (v : option string)
      (e : option (list Statement)) (cs : list Node) :
  cs <> [] -> Forall (fun c => not_mdx c = false) cs ->
  unist_filter not_mdx (mkNode t v e cs) = None.
Proof.
  intros Hne Hall. cbn [unist_filter].
  destruct (not_mdx (mkNode t v e cs)); [|reflexivity].
  assert (flat_map (fun c => match unist_filter not_mdx c with
                             | Some c' => [c']
                             | None => []
                             end) cs = []) as ->.
  { clear Hne. induction Hall as [|c cs Hc _ IH]; [reflexivity|].
    cbn [flat_map]. destruct c as [t' v' e' cs']. cbn [unist_filter]. rewrite Hc.
    cbn [app]. apply IH. }
  destruct cs; [contradiction|reflexivity].
Qed.

Section MoreSluggerFacts.
Context {X : Externals}.

Lemma counted_keys (g : string) (k : nat) :
  slug_keys (counted g k) = g :: map (suffixed g) (seq 1 k).
Proof. unfold counted, slug_keys. cbn [map fst]. now rewrite map_map. Qed.

Lemma slug_counted (value : string) (k : nat) :
  GithubSlugger.slug (counted (github_slug value) k) value =
  Some (suffixed (github_slug value) (S k), counted (github_slug value) (S k)).
Proof.
  unfold GithubSlugger.slug. generalize (github_slug value). intros g.
  assert (GithubSlugger.has (counted g k) g = true) as Hhas.
  { apply has_In. rewrite counted_keys. now left. }
  assert (GithubSlugger.increment (counted g k) g = (g, S k) :: tl (counted g k)) as Hinc.
  { unfold counted. cbn [GithubSlugger.increment tl]. now rewrite String.eqb_refl. }
  assert (GithubSlugger.has ((g, S k) :: tl (counted g k)) (suffixed g (S k)) = false) as Hnot.
  { apply Bool.not_true_is_false. intros E.
    apply has_In in E. unfold counted, slug_keys in E. cbn [tl map fst] in E.
    rewrite map_map in E. cbn [fst] in E. destruct E as [E|E].
    - symmetry in E. exact (suffixed_ne _ _ E).
    - apply in_map_iff in E. destruct E as (i & Hi & Hin).
      apply suffixed_inj in Hi. apply in_seq in Hin. lia. }
  cbn [GithubSlugger.slug_loop]. rewrite Hhas, Hinc.
  cbn [GithubSlugger.get]. rewrite String.eqb_refl.
  fold (suffixed g (S k)).
  destruct (List.length (counted g k)) as [|fuel]; cbn [GithubSlugger.slug_loop];
    rewrite Hnot;
    unfold GithubSlugger.add, counted; cbn [tl app]; rewrite seq_S, map_app; reflexivity.
Qed.

Lemma slug_headings_counted (value : string) (headings : list (option string)) :
  value <> "" ->
  Forall (fun heading => heading = None \/ heading = Some value) headings ->
  forall k,
    exists slugs,
      slug_headings (counted (github_slug value) k) headings = Some slugs /\
      defined slugs =
      map (suffixed (github_slug value)) (seq (S k) (List.length (defined headings))).
Proof.
  intros Hv Hall. induction Hall as [|heading headings [-> | ->] _ IH]; intros k.
  - exists []. now split.
  - destruct (IH k) as (slugs & Hs & Hd). exists (None :: slugs).
    cbn [slug_headings]. rewrite Hs. now split.
  - destruct (IH (S k)) as (slugs & Hs & Hd).
    exists (Some (suffixed (github_slug value) (S k)) :: slugs).
    cbn [slug_headings].
    destruct (value =? "") eqn:E; [apply String.eqb_eq in E; contradiction|].
    rewrite slug_counted. cbn [option_map fst snd]. rewrite Hs. split; [reflexivity|].
    unfold defined in *. cbn [flat_map app List.length seq map]. now rewrite Hd.
Qed.

Lemma slug_headings_new (value : string) (headings : list (option string)) :
  value <> "" ->
  Forall (fun heading => heading = None \/ heading = Some value) headings ->
  exists slugs,
    slug_headings GithubSlugger.new headings = Some slugs /\
    defined slugs = counted_slugs (github_slug value) (List.length (defined headings)).
Proof.
  intros Hv Hall. induction Hall as [|heading headings [-> | ->] Hrest IH].
  - exists []. now split.
  - destruct IH as (slugs & Hs & Hd). exists (None :: slugs).
    cbn [slug_headings]. rewrite Hs. now split.
  - destruct (slug_headings_counted value headings Hv Hrest 0) as (slugs & Hs & Hd).
    exists (Some (github_slug value) :: slugs).
    cbn [slug_headings].
    destruct (value =? "") eqn:E; [apply String.eqb_eq in E; contradiction|].
    rewrite slug_first. cbn [option_map fst snd].
    change [(github_slug value, 0)] with (counted (github_slug value) 0).
    rewrite Hs. split; [reflexivity|].
    unfold defined in *. cbn [flat_map app List.length counted_slugs]. now rewrite Hd.
Qed.

Lemma defined_slugs_defined (secs : list Section_) :
  defined_slugs secs = defined (map slug secs).
Proof.
  unfold defined_slugs, defined. induction secs as [|sec secs IH]; [reflexivity|].
  cbn [flat_map map]. now rewrite IH.
Qed.

End MoreSluggerFacts.

Lemma MdxUtils_sections_of_as_instance {X : Externals} (trees : list Node) :
  forall slugger,
    MdxUtils.sections_of slugger trees = @sections_of (with_Object_toString X) slugger trees.
Proof.
  induction trees as [|tree trees IH]; intros slugger; [reflexivity|].
  cbn [MdxUtils.sections_of sections_of].
  destruct (node_children tree) as [|firstNode others]; [reflexivity|].
  cbn [toString with_Object_toString].
  destruct (node_type firstNode =? "heading").
  - destruct (MdxUtils.Object_toString firstNode =? ""); [now rewrite IH|].
    change (@GithubSlugger.slug (with_Object_toString X) slugger
              (MdxUtils.Object_toString firstNode))
      with (@GithubSlugger.slug X slugger (MdxUtils.Object_toString firstNode)).
    destruct (GithubSlugger.slug slugger (MdxUtils.Object_toString firstNode)) as [[r occ]|];
      [|reflexivity].
    cbn [option_map fst snd]. now rewrite IH.
  - now rewrite IH.
Qed.

Lemma MdxUtils_as_instance {X : Externals} (content : string) :
  MdxUtils.processMdxForSearch content = @processMdxForSearch (with_Object_toString X) content.
Proof.
  unfold MdxUtils.processMdxForSearch, processMdxForSearch.
  cbn [unwrapTitleTag sha256_base64 fromMarkdown with_Object_toString].
  destruct (fromMarkdown _) as [mdxTree|]; [|reflexivity].
  unfold MdxUtils.processMdxTree, processMdxTree.
  destruct (unist_filter _ mdxTree) as [mdTree|]; [|reflexivity].
  now rewrite MdxUtils_sections_of_as_instance.
Qed.

Lemma Variant_step_spec (object : Meta) (m : ObjectMember) :
  Variant.getObjectFromExpression_step object m =
  match m, member_key m with
  | Property _ value, Some key => object_set object key (kept value)
  | _, _ => object
  end.
Proof.
  destruct m as [k v|a]; [|reflexivity].
  destruct k; try reflexivity.
  cbn [Variant.getObjectFromExpression_step member_key].
  now destruct (name =? "").
Qed.

Lemma Variant_other_keys (properties : list ObjectMember) :
  forall (object : Meta) (key : string),
    Forall (fun m => member_key m <> Some key) properties ->
    object_get (fold_left Variant.getObjectFromExpression_step properties object) key =
    object_get object key.
Proof.
  induction properties as [|m rest IH]; intros object key H; simpl; [reflexivity|].
  inversion H as [|? ? Hm Hrest]; subst.
  rewrite (IH _ _ Hrest), Variant_step_spec.
  destruct m as [k v|a]; [|reflexivity].
  destruct (member_key (Property k v)) as [key'|] eqn:E; [|reflexivity].
  apply object_get_set_other. congruence.
Qed.

Lemma Variant_agrees_on_truthy (properties : list ObjectMember) :
  Forall (fun m => forall key v, m = Property key (Literal v) -> truthy v = true) properties ->
  forall object,
    fold_left Variant.getObjectFromExpression_step properties object =
    fold_left getObjectFromExpression_step properties object.
Proof.
  induction 1 as [|m rest Hm _ IH]; intros object; [reflexivity|].
  cbn [fold_left]. rewrite <- IH. f_equal.
  rewrite Variant_step_spec, getObjectFromExpression_step_spec.
  destruct m as [k v|a]; [|reflexivity].
  destruct (member_key (Property k v)); [|reflexivity].
  destruct v as [lit| | |]; try reflexivity.
  cbn [kept retained]. now rewrite (Hm k lit eq_refl).
Qed.

(** The [meta] object of the second script keeps the value of every member
    that is a literal, the falsy ones too ([false], [0], the empty string,
    [null]), where the first script leaves [undefined]; a value that is not
    a literal leaves [undefined] in both.  The two agree on an object whose
    literal values are all truthy. *)
Theorem the_variant_keeps_every_literal :
  (forall before key value after,
      key <> "" ->
      Forall (fun m => member_key m <> Some key) after ->
      object_get (Variant.getObjectFromExpression
                    (before ++ Property (Identifier key) value :: after)) key =
      Some (kept value))
  /\ (forall v, kept (Literal v) = Some v)
  /\ (forall properties,
        Forall (fun m => forall key v, m = Property key (Literal v) -> truthy v = true)
               properties ->
        Variant.getObjectFromExpression properties = getObjectFromExpression properties)
  /\ Variant.extractMetaExport sample_meta_tree =
     Some [("title", Some (StringValue "Intro")); ("draft", Some (BooleanValue false))]
  /\ extractMetaExport sample_meta_tree =
     Some [("title", Some (StringValue "Intro")); ("draft", None)].
Proof.
  split; [|split; [reflexivity|split; [|split; reflexivity]]].
  - intros before key value after Hk Hafter. unfold Variant.getObjectFromExpression.
    rewrite fold_left_app. cbn [fold_left].
    rewrite (Variant_other_keys _ _ _ Hafter), Variant_step_spec. cbn [member_key].
    destruct (key =? "") eqn:E; [apply String.eqb_eq in E; contradiction|].
    apply object_get_set_same.
  - intros properties H. now apply Variant_agrees_on_truthy.
Qed.

(** No MDX node reaches a section: the content of every section is the
    rendering of a tree in which no node, at any depth, is of one of the
    five MDX types.  A document all of whose top-level nodes are MDX nodes
    has no section at all. *)
Theorem no_mdx_node_reaches_a_section {X : Externals} (checksum : string) (mdxTree : Node) :
  (exists trees secs,
      processMdxTree checksum mdxTree =
      Ok (mkProcessedMdx checksum (extractMetaExport mdxTree) secs) /\
      map content secs = map toMarkdown trees /\
      Forall (fun tree => every_node not_mdx tree = true) trees)
  /\ (node_children mdxTree <> [] ->
      Forall (fun c => not_mdx c = false) (node_children mdxTree) ->
      processMdxTree checksum mdxTree =
      Ok (mkProcessedMdx checksum (extractMetaExport mdxTree) [])).
Proof.
  unfold processMdxTree.
  change (fun node => negb (includes mdx_node_types (node_type node))) with not_mdx.
  split.
  - destruct (unist_filter not_mdx mdxTree) as [mdTree|] eqn:E.
    + destruct (sections_of_spec (splitTreeBy mdTree is_heading) GithubSlugger.new
                  (splitTreeBy_children_nonempty mdTree is_heading))
        as (secs & -> & H1 & _).
      exists (splitTreeBy mdTree is_heading), secs.
      split; [reflexivity|]. split; [exact H1|].
      apply splitTreeBy_every. now apply (unist_filter_every mdxTree).
    + exists [], []. repeat split. constructor.
  - intros Hne Hall. destruct mdxTree as [t v e cs]. cbn [node_children] in *.
    now rewrite (unist_filter_only_mdx t v e cs Hne Hall).
Qed.

Lemma same_heading_slugs {X : Externals} (secs : list Section_) (value : string) :
  value <> "" ->
  Forall (fun sec => heading sec = None \/ heading sec = Some value) secs ->
  slug_headings GithubSlugger.new (map heading secs) = Some (map slug secs) ->
  defined_slugs secs =
  counted_slugs (github_slug value) (List.length (defined (map heading secs))).
Proof.
  intros Hv Hall Hs.
  destruct (slug_headings_new value (map heading secs) Hv) as (slugs & Hs' & Hd).
  { apply Forall_map. exact Hall. }
  rewrite Hs in Hs'. inversion Hs'; subst slugs.
  now rewrite defined_slugs_defined.
Qed.

(** When every heading of a document has the same text, the slugs of its
    sections are, in order, the slug of that text, then that slug with the
    suffixes [-1], [-2], [-3] and so on, without a gap. *)
Theorem a_repeated_heading_counts_up {X : Externals}
        (content : string) (doc : ProcessedMdx) (value : string) :
  processMdxForSearch content = Ok doc ->
  value <> "" ->
  Forall (fun sec => heading sec = None \/ heading sec = Some value) (sections doc) ->
  defined_slugs (sections doc) =
  counted_slugs (github_slug value) (List.length (defined (map heading (sections doc)))).
Proof.
  intros H Hv Hall. unfold processMdxForSearch in H.
  destruct (fromMarkdown _) as [mdxTree|]; [|discriminate].
  destruct (processMdxTree_returns
              (sha256_base64 (if content =? "" then content else unwrapTitleTag content))
              mdxTree) as (secs & E & _ & Hs).
  rewrite E in H. inversion H; subst doc. cbn [sections] in *.
  now apply same_heading_slugs.
Qed.

Lemma a_repeated_heading_counts_up_witness :
  defined_slugs
    [mkSection ("Usage" ++ String "010" "First") (Some "Usage") (Some "usage");
     mkSection ("Usage" ++ String "010" "Second") (Some "Usage") (Some "usage-1");
     mkSection ("Usage" ++ String "010" "Third") (Some "Usage") (Some "usage-2")] =
  counted_slugs "usage" 3.
Proof.
  refine (@a_repeated_heading_counts_up sample_externals sample_repetitive_document
            (mkProcessedMdx sample_repetitive_document None
               [mkSection ("Usage" ++ String "010" "First") (Some "Usage") (Some "usage");
                mkSection ("Usage" ++ String "010" "Second") (Some "Usage") (Some "usage-1");
                mkSection ("Usage" ++ String "010" "Third") (Some "Usage") (Some "usage-2")])
            "Usage" eq_refl _ _).
  - discriminate.
  - repeat constructor; now right.
Defined.

(** In mdxUtils.ts the heading of a section is not the text of its heading
    node: every section that starts with a heading gets the heading
    [[object Object]], and the slugs count up from the slug of that text.
    The checksum, the [meta] object and the contents of the sections are
    those the script computes. *)
Theorem mdxUtils_gives_every_heading_the_same_text {X : Externals}
        (text : string) (doc : ProcessedMdx) :
  MdxUtils.processMdxForSearch text = Ok doc ->
  Forall (fun sec => heading sec = None \/ heading sec = Some "[object Object]")
         (sections doc)
  /\ defined_slugs (sections doc) =
     counted_slugs (github_slug "[object Object]")
                   (List.length (defined (map heading (sections doc))))
  /\ exists doc',
       processMdxForSearch text = Ok doc' /\
       checksum doc = checksum doc' /\ meta doc = meta doc' /\
       map content (sections doc) = map content (sections doc').
Proof.
  intros H. rewrite MdxUtils_as_instance in H.
  assert (Forall (fun sec => heading sec = None \/ heading sec = Some "[object Object]")
                 (sections doc)
          /\ exists doc',
               processMdxForSearch text = Ok doc' /\
               checksum doc = checksum doc' /\ meta doc = meta doc' /\
               map content (sections doc) = map content (sections doc')) as [Hall Hdoc].
  { unfold processMdxForSearch in *.
    cbn [unwrapTitleTag sha256_base64 fromMarkdown with_Object_toString] in H.
    destruct (fromMarkdown _) as [mdxTree|]; [|discriminate].
    unfold processMdxTree in *.
    destruct (unist_filter _ mdxTree) as [mdTree|].
    - destruct (@sections_of_spec (with_Object_toString X)
                  (splitTreeBy mdTree is_heading) GithubSlugger.new
                  (splitTreeBy_children_nonempty mdTree is_heading))
        as (secs' & E' & H1' & H2' & _).
      destruct (@sections_of_spec X
                  (splitTreeBy mdTree is_heading) GithubSlugger.new
                  (splitTreeBy_children_nonempty mdTree is_heading))
        as (secs & E & H1 & _).
      rewrite E' in H. inversion H; subst doc. cbn [sections checksum meta].
      split.
      + apply Forall_forall. intros sec Hsec.
        apply (in_map heading) in Hsec. rewrite H2' in Hsec.
        apply in_map_iff in Hsec. destruct Hsec as (tree & <- & _).
        unfold section_heading_of. destruct (node_children tree) as [|first rest]; [now left|].
        destruct (is_heading first); [now right|now left].
      + rewrite E. eexists. split; [reflexivity|]. cbn [sections checksum meta].
        repeat split. now rewrite H1, H1'.
    - inversion H; subst doc. split; [constructor|].
      eexists. split; [reflexivity|]. now repeat split. }
  split; [exact Hall|]. split; [|exact Hdoc].
  unfold processMdxForSearch in H.
  destruct (@fromMarkdown (with_Object_toString X) _) as [mdxTree|]; [|discriminate].
  destruct (@processMdxTree_returns (with_Object_toString X)
              (@sha256_base64 (with_Object_toString X)
                 (if text =? "" then text else @unwrapTitleTag (with_Object_toString X) text))
              mdxTree) as (secs & E & _ & Hs).
  rewrite E in H. inversion H; subst doc. cbn [sections] in *.
  apply (@same_heading_slugs (with_Object_toString X) secs "[object Object]");
    [discriminate|exact Hall|exact Hs].
Qed.

Lemma mdxUtils_gives_every_heading_the_same_text_witness :
  defined_slugs
    [mkSection ("Intro" ++ String "010" "Hello") (Some "[object Object]")
               (Some "[object-object]");
     mkSection ("Usage" ++ String "010" "Do X") (Some "[object Object]")
               (Some "[object-object]-1");
     mkSection ("Usage" ++ String "010" "Do Y") (Some "[object Object]")
               (Some "[object-object]-2")] =
  counted_slugs "[object-object]" 3.
Proof.
  exact (proj1 (proj2 (@mdxUtils_gives_every_heading_the_same_text
                         sample_externals sample_document
                         (mkProcessedMdx sample_document None
                            [mkSection ("Intro" ++ String "010" "Hello")
                                       (Some "[object Object]") (Some "[object-object]");
                             mkSection ("Usage" ++ String "010" "Do X")
                                       (Some "[object Object]") (Some "[object-object]-1");
                             mkSection ("Usage" ++ String "010" "Do Y")
                                       (Some "[object Object]") (Some "[object-object]-2")])
                         eq_refl))).
Defined.

(** ** The utility modules *)

Section EmbeddingUtilsFacts.
Context {X : Externals}.
Variable w : World.

Lemma embed_sections_spec (sections : list EmbeddingUtils.EmbeddedSection) :
  forall t,
    match EmbeddingUtils.embed_sections w t sections with
    | (r, sections', t', log) =>
        map fst sections' = map fst sections /\
        exists k,
          (forall i section old,
              i < k -> nth_error sections i = Some (section, old) ->
              exists e tokens,
                createEmbedding w (t + i) OPENAI_MODEL (embedding_input section) =
                Some (e, tokens) /\
                nth_error sections' i = Some (section, Some e)) /\
          skipn k sections' = skipn k sections /\
          match r with
          | Ok _ =>
              k = List.length sections /\ t' = t + k /\
              log = map (fun s => CreateEmbedding OPENAI_MODEL (embedding_input (fst s)))
                        sections
          | Throw err =>
              exists section old,
                nth_error sections k = Some (section, old) /\
                createEmbedding w (t + k) OPENAI_MODEL (embedding_input section) = None /\
                err = EmbeddingError (embedding_input section) /\
                t' = t + S k /\
                filter is_embedding_call log =
                map (fun s => CreateEmbedding OPENAI_MODEL (embedding_input (fst s)))
                    (firstn (S k) sections) /\
                Forall (fun e => is_store_mutation e = false) log /\
                log =
                map (fun s => CreateEmbedding OPENAI_MODEL (embedding_input (fst s)))
                    (firstn (S k) sections)
                ++ [ConsoleError ("Failed to generate embeddings for section starting with '"
                                  ++ substring 0 40 (embedding_input section) ++ "...'")]
          end
    end.
Proof.
  induction sections as [|[section old] rest IH]; intros t.
  - cbn. split; [reflexivity|]. exists 0. split; [intros; lia|]. split; [reflexivity|].
    split; [reflexivity|]. split; [lia|reflexivity].
  - cbn [EmbeddingUtils.embed_sections].
    fold (embedding_input section).
    destruct (createEmbedding w t OPENAI_MODEL (embedding_input section))
      as [[e tokens]|] eqn:Hcall.
    + specialize (IH (S t)).
      destruct (EmbeddingUtils.embed_sections w (S t) rest) as [[[r rest'] t'] log].
      destruct IH as (Hfst & k & Hdone & Hrest & Hr).
      split; [cbn; now rewrite Hfst|].
      exists (S k). split; [|split].
      * intros [|i] section' old' Hi Hnth.
        -- cbn in Hnth. inversion Hnth; subst. exists e, tokens.
           rewrite Nat.add_0_r. now split.
        -- cbn in Hnth. destruct (Hdone i section' old') as (e' & tokens' & He' & Hn');
             [lia|exact Hnth|].
           exists e', tokens'. split; [|exact Hn'].
           now replace (t + S i) with (S t + i) by lia.
      * exact Hrest.
      * destruct r as [[]|err].
        -- destruct Hr as (-> & -> & ->). cbn. repeat split; try lia.
        -- destruct Hr as (section' & old' & Hnth & Hnone & -> & -> & Hlog & Hmut & Hall).
           exists section', old'. split; [exact Hnth|].
           split; [now replace (t + S k) with (S t + k) by lia|].
           split; [reflexivity|]. split; [lia|]. split; [|split].
           ++ cbn [filter is_embedding_call firstn map fst]. now rewrite Hlog.
           ++ constructor; [reflexivity|exact Hmut].
           ++ rewrite Hall. reflexivity.
    + split; [reflexivity|]. exists 0. split; [intros; lia|]. split; [reflexivity|].
      exists section, old. rewrite Nat.add_0_r. repeat split; try assumption; try lia.
      repeat constructor.
Qed.

End EmbeddingUtilsFacts.

(** [generateEmbeddings] of embeddingUtils.ts asks for one embedding for
    every section, in order, with the newlines of its content replaced by
    blanks, and stores nothing.  It keeps the sections and their order and
    puts on each the embedding it got.  It stops at the first embedding
    that fails, logs one line that names the start of the input, and
    throws; the sections before that one keep the embedding put on them,
    the others are as they were. *)
Theorem embeddingUtils_embeds_the_sections_in_order {X : Externals} (w : World)
        (processedMdx : ProcessedMdx) (t : nat) :
  match EmbeddingUtils.generateEmbeddings w processedMdx t with
  | (r, sections', t', log) =>
      map fst sections' = sections processedMdx /\
      exists k,
        (forall i section,
            i < k -> nth_error (sections processedMdx) i = Some section ->
            exists e tokens,
              createEmbedding w (t + i) OPENAI_MODEL (embedding_input section) =
              Some (e, tokens) /\
              nth_error sections' i = Some (section, Some e)) /\
        Forall (fun s => snd s = None) (skipn k sections') /\
        match r with
        | Ok _ =>
            k = List.length (sections processedMdx) /\ t' = t + k /\
            log = map (fun s => CreateEmbedding OPENAI_MODEL (embedding_input s))
                      (sections processedMdx)
        | Throw err =>
            exists section,
              nth_error (sections processedMdx) k = Some section /\
              createEmbedding w (t + k) OPENAI_MODEL (embedding_input section) = None /\
              err = EmbeddingError (embedding_input section) /\
              t' = t + S k /\
              filter is_embedding_call log =
              map (fun s => CreateEmbedding OPENAI_MODEL (embedding_input s))
                  (firstn (S k) (sections processedMdx)) /\
              Forall (fun e => is_store_mutation e = false) log /\
              log =
              map (fun s => CreateEmbedding OPENAI_MODEL (embedding_input s))
                  (firstn (S k) (sections processedMdx))
              ++ [ConsoleError ("Failed to generate embeddings for section starting with '"
                                ++ substring 0 40 (embedding_input section) ++ "...'")]
        end
  end.
Proof.
  unfold EmbeddingUtils.generateEmbeddings.
  pose proof (embed_sections_spec w (map (fun section => (section, None))
                                         (sections processedMdx)) t) as H.
  destruct (EmbeddingUtils.embed_sections w t _) as [[[r sections'] t'] log].
  destruct H as (Hfst & k & Hdone & Hrest & Hr).
  split; [rewrite Hfst, map_map; cbn; apply map_id|].
  exists k. split; [|split].
  - intros i section Hi Hnth. apply (Hdone i section None Hi).
    rewrite nth_error_map, Hnth. reflexivity.
  - rewrite Hrest, skipn_map. apply Forall_map, Forall_forall. now intros.
  - destruct r as [[]|err].
    + destruct Hr as (-> & -> & ->). rewrite length_map, map_map. now repeat split.
    + destruct Hr as (section & old & Hnth & Hnone & -> & -> & Hlog & Hmut & Hall).
      rewrite nth_error_map in Hnth.
      destruct (nth_error (sections processedMdx) k) as [section'|] eqn:E; [|discriminate].
      inversion Hnth; subst section' old.
      exists section. repeat split; try assumption.
      * rewrite Hlog, firstn_map, map_map. reflexivity.
      * rewrite Hall, firstn_map, map_map. reflexivity.
Qed.

(** [deleteExistingData] empties the section table before the page table.
    When the first deletion fails it throws and nothing is deleted; when
    the second fails it throws and the sections are gone while the pages
    are all there; only when both succeed are the two tables empty. *)
Theorem deleteExistingData_deletes_the_sections_first (w : World) (s : State) :
  post (SupabaseUtils.deleteExistingData w) s (fun r s' log =>
    next_page_id (store s') = next_page_id (store s) /\
    match r with
    | Ok _ =>
        nods_page (store s') = [] /\ nods_page_section (store s') = [] /\
        log = [DeleteAllPageSections; DeleteAllPages]
    | Throw e =>
        (e = DeletePageSectionError /\ store s' = store s /\
         log = [DeleteAllPageSections])
        \/ (e = DeletePageError /\
            nods_page (store s') = nods_page (store s) /\
            nods_page_section (store s') = [] /\
            log = [DeleteAllPageSections; DeleteAllPages])
    end).
Proof.
  unfold SupabaseUtils.deleteExistingData. wp. call.
  - split; [reflexivity|]. left. now repeat split.
  - call.
    + split; [reflexivity|]. right. now repeat split.
    + split; [reflexivity|]. now repeat split.
Qed.

(** ** The second script *)

Section VariantFacts.
Context {X : Externals}.
Variable w : World.
Variable returning : bool.
Variable message_of : Exn -> string.

Lemma post_supabase_data {A : Type} (e : Event) (query : Store -> option A * Store)
      (s : State) (Q : Result (option A) -> State -> list Event -> Prop) :
  (supabase_error w (clock s) = true ->
   Q (Ok None) (mkState (store s) (S (clock s))) [e]) ->
  (supabase_error w (clock s) = false ->
   Q (Ok (fst (query (store s))))
     (mkState (snd (query (store s))) (S (clock s))) [e]) ->
  post (Variant.supabase_data w e query) s Q.
Proof.
  unfold post, Variant.supabase_data. intros Ht Hf.
  destruct (supabase_error w (clock s)); [now apply Ht|].
  destruct (query (store s)) as [a st]. now apply Hf.
Qed.

Lemma Variant_embed_loop (page : PageRecord) (secs : list Section_) (s : State) :
  post (for_of secs (Variant.embed_section w page)) s (fun r s' log =>
    store s' = store s /\
    Forall (fun e => stores_a_result e = false) log /\
    List.length (filter is_embedding_call log) <= 1 /\
    filter is_fetch log = [] /\
    (secs = [] -> r = Ok tt) /\
    (secs <> [] -> exists e, r = Throw e)).
Proof.
  destruct secs as [|sec secs]; cbn [for_of].
  - apply post_ret. split; [reflexivity|]. split; [constructor|]. split; [cbn; lia|].
    split; [reflexivity|]. split; [reflexivity|]. intros H. now elim H.
  - apply post_bind. unfold Variant.embed_section.
    apply post_bind, post_openai_createEmbedding.
    + intros _. split; [reflexivity|]. split; [repeat constructor|]. split; [cbn; lia|].
      split; [reflexivity|]. split; [discriminate|]. intros _. eexists. reflexivity.
    + intros response _. apply post_throw.
      split; [reflexivity|]. split; [repeat constructor|]. split; [cbn; lia|].
      split; [reflexivity|]. split; [discriminate|]. intros _. eexists. reflexivity.
Qed.

Lemma upsert_page_checksums (path type source : string) (meta : option Meta)
      (parent : option nat) (st : Store) (p : PageRecord) :
  In p (nods_page (snd (upsert_page path type source meta parent st))) ->
  page_checksum p = None \/ In p (nods_page st).
Proof.
  unfold upsert_page.
  destruct (find (fun q => String.eqb (page_path q) path) (nods_page st)) as [q0|];
    cbn [snd nods_page]; intros Hin.
  - apply in_map_iff in Hin. destruct Hin as (q & Hq & Hin).
    destruct (String.eqb (page_path q) path); subst p; [now left|now right].
  - apply in_app_or in Hin. destruct Hin as [Hin|[<-|[]]]; [now right|now left].
Qed.

Lemma fruitless_same (calls : nat) (s s' : State) (log : list Event) :
  store s' = store s ->
  Forall (fun e => stores_a_result e = false) log ->
  List.length (filter is_embedding_call log) <= calls ->
  fruitless calls (filter is_fetch log) s s' log.
Proof.
  intros Hs Hlog Hlen. unfold fruitless. rewrite Hs.
  split; [exact Hlog|]. split; [apply incl_refl|]. split; [|now split].
  intros p Hp. now right.
Qed.

(** The script from the upsert on. *)
Lemma Variant_upsert_fruitless (embeddingSource : GithubEmbeddingSource)
      (doc : ProcessedMdx) (s s1 : State) :
  nods_page (store s1) = nods_page (store s) ->
  incl (nods_page_section (store s1)) (nods_page_section (store s)) ->
  post (bind (Variant.supabase_data w (UpsertPage (path embeddingSource))
                (fun st =>
                   let (p, st') :=
                     upsert_page (path embeddingSource) (source_type embeddingSource)
                                 (source embeddingSource) (meta doc) None st in
                   (if returning then Some p else None, st')))
             (fun page =>
                match page with
                | Some p => for_of (sections doc) (Variant.embed_section w p)
                | None => ret tt
                end))
       s1 (fun r s' log => fruitless 1 [] s s' log).
Proof.
  intros Hp1 Hs1. apply post_bind, post_supabase_data; intros _; norm.
  - apply post_ret. unfold fruitless. cbn [store].
    split; [repeat constructor|]. split; [exact Hs1|]. split; [|split; [cbn; lia|reflexivity]].
    intros p Hp. right. now rewrite <- Hp1.
  - pose proof (upsert_page_selected (path embeddingSource) (source_type embeddingSource)
                  (source embeddingSource) (meta doc) None (store s1)) as Hup.
    cbv zeta in Hup. destruct Hup as (_ & _ & _ & Hsec & _).
    pose proof (upsert_page_checksums (path embeddingSource)
                  (source_type embeddingSource) (source embeddingSource)
                  (meta doc) None (store s1)) as Hck.
    destruct (upsert_page (path embeddingSource) (source_type embeddingSource)
                          (source embeddingSource) (meta doc) None (store s1))
      as [p st'] eqn:Eup.
    cbn [fst snd] in *.
    assert (forall q, In q (nods_page st') ->
                      page_checksum q = None \/ In q (nods_page (store s))) as Hck'.
    { intros q Hq. destruct (Hck q Hq) as [H|H]; [now left|right; now rewrite <- Hp1]. }
    destruct returning.
    + eapply post_conseq; [apply Variant_embed_loop|].
      intros r s' log (Hst & Hlog & Hlen & Hfetch & _). unfold fruitless. rewrite Hst. cbn [store].
      split; [constructor; [reflexivity|exact Hlog]|].
      split; [now rewrite Hsec|]. split; [exact Hck'|]. split; [exact Hlen|exact Hfetch].
    + apply post_ret. unfold fruitless. cbn [store].
      split; [repeat constructor|]. split; [now rewrite Hsec|].
      split; [exact Hck'|]. split; [cbn; lia|reflexivity].
Qed.

Lemma fruitless_after (e : Event) (fetches : list Event) (s s' : State) (log : list Event) :
  stores_a_result e = false -> is_embedding_call e = false ->
  fruitless 1 fetches s s' log ->
  fruitless 1 (if is_fetch e then e :: fetches else fetches) s s' (e :: log).
Proof.
  intros He Hc (H1 & H2 & H3 & H4 & H5). unfold fruitless.
  split; [now constructor|]. split; [exact H2|]. split; [exact H3|].
  cbn [filter]. rewrite Hc, H5. now split.
Qed.

Lemma Variant_reconcile_fruitless (embeddingSource : GithubEmbeddingSource) (s : State) :
  post (Variant.reconcile w returning embeddingSource) s (fun r s' log =>
    fruitless 1 [AxiosGet (GITHUB_URL ++ path embeddingSource)] s s' log).
Proof.
  unfold Variant.reconcile, Variant.load. wp. apply post_http_get.
  - intros _. norm.
    apply (fruitless_same 1 s _ [AxiosGet _]); [reflexivity|repeat constructor|cbn; lia].
  - intros contents _. wp.
    destruct (Variant.processMdxForSearch contents) as [doc|e]; norm.
    2:{ cbn [app].
        apply (fruitless_same 1 s _ [AxiosGet _]); [reflexivity|repeat constructor|cbn; lia]. }
    apply post_bind.
    assert (forall existingPage s0,
               store s0 = store s ->
               post (if Variant.checksum_matches existingPage (checksum doc) && negb shouldRefresh
                     then ret tt
                     else
                       bind (match existingPage with
                             | Some p =>
                                 bind (Variant.supabase_data w (DeletePageSections (page_id p))
                                         (fun st => (Some tt, delete_page_sections (page_id p) st)))
                                      (fun _ => ret tt)
                             | None => ret tt
                             end)
                            (fun _ =>
                               bind (Variant.supabase_data w (UpsertPage (path embeddingSource))
                                       (fun st =>
                                          let (p, st') :=
                                            upsert_page (path embeddingSource)
                                                        (source_type embeddingSource)
                                                        (source embeddingSource) (meta doc) None st in
                                          (if returning then Some p else None, st')))
                                    (fun page =>
                                       match page with
                                       | Some p => for_of (sections doc) (Variant.embed_section w p)
                                       | None => ret tt
                                       end)))
                    s0 (fun r s' log => fruitless 1 [] s s' log)) as Hrest.
    { intros existingPage s0 Hs0.
      destruct (Variant.checksum_matches existingPage (checksum doc) && negb shouldRefresh).
      { apply post_ret. apply (fruitless_same 1 s s0 []); [exact Hs0|constructor|cbn; lia]. }
      apply post_bind.
      destruct existingPage as [p0|].
      - apply post_bind, post_supabase_data; intros _; norm; apply post_ret.
        + eapply post_conseq;
            [apply (Variant_upsert_fruitless embeddingSource doc s);
             cbn [store]; rewrite Hs0; [reflexivity|apply incl_refl]|].
          intros r s' log H. cbn [app].
          now apply (fruitless_after (DeletePageSections _) []).
        + eapply post_conseq;
            [apply (Variant_upsert_fruitless embeddingSource doc s);
             cbn [store delete_page_sections nods_page nods_page_section]; rewrite Hs0;
             [reflexivity|apply incl_filter]|].
          intros r s' log H. cbn [app].
          now apply (fruitless_after (DeletePageSections _) []).
      - apply post_ret.
        eapply post_conseq;
          [apply (Variant_upsert_fruitless embeddingSource doc s);
           rewrite Hs0; [reflexivity|apply incl_refl]|].
        intros r s' log H. exact H. }
    apply post_supabase_data; intros _; norm.
    + eapply post_conseq; [apply Hrest; reflexivity|].
      intros r s' log H. cbn [app].
      apply (fruitless_after (AxiosGet _) []); [reflexivity|reflexivity|].
      now apply (fruitless_after (SelectPage _) []).
    + eapply post_conseq; [apply Hrest; reflexivity|].
      intros r s' log H. cbn [app].
      apply (fruitless_after (AxiosGet _) []); [reflexivity|reflexivity|].
      now apply (fruitless_after (SelectPage _) []).
Qed.

Lemma Variant_reconcile_all_fruitless (sources : list GithubEmbeddingSource) :
  forall s,
    post (Variant.reconcile_all w returning message_of sources) s (fun r s' log =>
      r = Ok tt /\
      fruitless (List.length sources)
                (map (fun d => AxiosGet (GITHUB_URL ++ path d)) sources) s s' log).
Proof.
  induction sources as [|d sources IH]; intros s.
  - cbn. split; [reflexivity|]. apply (fruitless_same 0 s s []); [reflexivity|constructor|cbn; lia].
  - unfold Variant.reconcile_all in *. cbn [for_of]. apply post_bind.
    unfold Variant.reconcile_guarded at 1. apply post_try_catch.
    eapply post_conseq; [apply Variant_reconcile_fruitless|].
    intros r0 s1 log0 (Hq0 & Hs0 & Hp0 & Hn0 & Hf0).
    assert (forall extra,
               Forall (fun e => stores_a_result e = false) extra ->
               filter is_embedding_call extra = [] ->
               filter is_fetch extra = [] ->
               post (for_of sources (Variant.reconcile_guarded w returning message_of)) s1
                    (fun r2 s2 log2 =>
                       r2 = Ok tt /\
                       fruitless (List.length (d :: sources))
                                 (map (fun d => AxiosGet (GITHUB_URL ++ path d)) (d :: sources))
                                 s s2 ((log0 ++ extra) ++ log2))) as Hnext.
    { intros extra Hextra Hfilter Hfetch.
      eapply post_conseq; [apply IH|].
      intros r s' log (-> & Hq & Hs & Hp & Hn & Hf). split; [reflexivity|].
      split; [apply Forall_app; split; [apply Forall_app; now split|exact Hq]|].
      split; [intros row Hrow; now apply Hs0, Hs|].
      split; [intros p Hin; destruct (Hp p Hin) as [H|H]; [now left|now apply Hp0]|].
      split.
      - rewrite !filter_app, !length_app, Hfilter. cbn [List.length]. lia.
      - rewrite !filter_app, Hf0, Hfetch, Hf. reflexivity. }
    destruct r0 as [[]|e].
    + eapply post_conseq; [apply (Hnext [])|].
      * constructor.
      * reflexivity.
      * reflexivity.
      * intros r2 s2 log2 H. now rewrite app_nil_r in H.
    + apply post_console_error. apply (Hnext [ConsoleError _]).
      * repeat constructor.
      * reflexivity.
      * reflexivity.
Qed.

End VariantFacts.

(** The second script, whatever the store and the other collaborators
    answer and whichever version of the client it runs with, stores nothing
    of its work: it never inserts the row of a section and never writes a
    checksum.  The section table can only lose rows, and a page the run has
    written has a null checksum.  Each source is asked for under its
    normalized path, not under the path of its file, and at most one
    embedding is asked for per source.  The loop itself never throws. *)
Theorem the_second_script_stores_no_section {X : Externals} (w : World)
        (returning : bool) (message_of : Exn -> string) (s : State) :
  (forall sources,
      post (Variant.reconcile_all w returning message_of sources) s (fun r s' log =>
        r = Ok tt /\
        Forall (fun e => stores_a_result e = false) log /\
        incl (nods_page_section (store s')) (nods_page_section (store s)) /\
        (forall p, In p (nods_page (store s')) ->
                   page_checksum p = None \/ In p (nods_page (store s))) /\
        List.length (filter is_embedding_call log) <= List.length sources /\
        filter is_fetch log = map (fun d => AxiosGet (GITHUB_URL ++ path d)) sources))
  /\ post (Variant.generateEmbeddings w returning message_of) s (fun r s' log =>
       Forall (fun e => stores_a_result e = false) log /\
       incl (nods_page_section (store s')) (nods_page_section (store s)) /\
       (forall p, In p (nods_page (store s')) ->
                  page_checksum p = None \/ In p (nods_page (store s)))).
Proof.
  split.
  - intros sources. eapply post_conseq; [apply Variant_reconcile_all_fruitless|].
    intros r s' log (Hr & H). exact (conj Hr H).
  - unfold Variant.generateEmbeddings.
    destruct ((SUPABASE_URL =? "") || (SUPABASE_SERVICE_ROLE_KEY =? "") || (OPENAI_KEY =? ""))%string.
    + apply post_console_log. split; [repeat constructor|]. split; [apply incl_refl|].
      intros p Hp. now right.
    + unfold shouldRefresh. wp.
      destruct (walkGithubDirectory "docs" (github_contents w)) as [entries|].
      * wp. eapply post_conseq; [apply Variant_reconcile_all_fruitless|].
        intros r s' log (-> & Hq & Hs & Hp & _). wp.
        split; [|now split].
        constructor; [reflexivity|]. constructor; [reflexivity|].
        apply Forall_app. split; [exact Hq|repeat constructor].
      * wp. split; [repeat constructor|]. split; [apply incl_refl|].
        intros p Hp. now right.
Qed.

(** ** Runs in which nothing fails *)

Lemma post_and {A : Type} (m : M A) (s : State)
      (Q Q' : Result A -> State -> list Event -> Prop) :
  post m s Q -> post m s Q' -> post m s (fun r s' log => Q r s' log /\ Q' r s' log).
Proof. unfold post. destruct (m s) as [[r s'] log]. now split. Qed.

Section UnfailingFacts.
Context {X : Externals}.
Variable w : World.
Hypothesis Hstore : forall t, supabase_error w t = false.
Hypothesis Hembed : forall t model input, createEmbedding w t model input <> None.

Lemma embed_loop_ok (path : string) (page : PageRecord) (secs : list Section_) :
  forall s, post (for_of secs (embed_section w path page)) s (fun r s' log => r = Ok tt).
Proof.
  induction secs as [|sec secs IH]; intros s.
  - cbn [for_of]. now apply post_ret.
  - cbn [for_of]. apply post_bind. unfold embed_section at 1.
    apply post_try_catch, post_bind, post_openai_createEmbedding.
    + intros Hnone. now apply Hembed in Hnone.
    + intros response _. apply post_supabase; intros Hcall; cbn [clock] in Hcall.
      * rewrite Hstore in Hcall. discriminate.
      * apply IH.
Qed.

Lemma post_embed_loop_ok (path : string) (page : PageRecord) (secs : list Section_) (s : State) :
  post (for_of secs (embed_section w path page)) s (fun r s' log =>
    loop_outcome page secs s r s' log /\ r = Ok tt).
Proof. apply post_and; [apply post_embed_loop|apply embed_loop_ok]. Qed.

Lemma section_events_quiet (id : nat) (secs : list Section_) :
  Forall (fun e => is_error_line e = false) (section_events id secs).
Proof.
  unfold section_events. induction secs as [|sec secs IH]; [constructor|].
  cbn [flat_map app]. now repeat constructor.
Qed.

End UnfailingFacts.

Ltac explore_regenerate_ok Hstore Hembed :=
  unfold regenerate; wp;
  lazymatch goal with
  | |- post (match ?ex with _ => _ end) _ _ =>
      destruct ex as [[existingPage existingParentPage]|] eqn:Hexisting; norm
  end;
  [ wp; call | wp ];
  try (wp; unfold fetch_parentPage; call;
       [ | wp; call;
           [ | wp; eapply post_conseq; [apply (post_embed_loop_ok _ Hstore Hembed)|];
               intros r1 s1 log1 [Hloop Hok]; norm;
               destruct r1 as [[]|e1]; norm; [ call | ] ] ]).

Ltac explore_reconcile_ok Hstore Hembed :=
  unfold reconcile, load; wp; apply post_http_get;
  [ intros Hget; norm
  | intros contents Hget; wp;
    destruct (processMdxForSearch contents) as [doc|e] eqn:Hdoc; norm;
    [ apply post_bind; call;
      [ | lazymatch goal with
          | |- post (if ?b then _ else _) _ _ => destruct b eqn:Hmatch; norm
          end;
          [ explore_relink | explore_regenerate_ok Hstore Hembed ] ]
    | ] ].

Section UnfailingRuns.
Context {X : Externals}.
Variable w : World.

Lemma reconcile_ok (embeddingSource : GithubEmbeddingSource) (s : State) :
  unfailing w [embeddingSource] ->
  post (reconcile w embeddingSource) s (fun r s' log =>
    r = Ok tt /\ Forall (fun e => is_error_line e = false) log).
Proof.
  intros (Hstore & Hembed & Hserved).
  destruct (Hserved (clock s) embeddingSource (or_introl eq_refl))
    as (fetched & document & Hget0 & Hdoc0).
  unfold source_url in Hget0.
  explore_reconcile_ok Hstore Hembed.
  all: try (rewrite Hstore in *; discriminate).
  all: try congruence.
  all: rewrite Hget0 in Hget; inversion Hget; subst contents.
  all: rewrite Hdoc0 in Hdoc; try discriminate.
  all: try loop_facts.
  all: split; [reflexivity|].
  all: repeat (constructor; [reflexivity|]).
  all: try constructor.
  all: destruct Hresult as [-> _].
  all: apply Forall_app; split; [apply section_events_quiet|repeat constructor].
Qed.

Lemma unfailing_tail (d : GithubEmbeddingSource) (sources : list GithubEmbeddingSource) :
  unfailing w (d :: sources) -> unfailing w [d] /\ unfailing w sources.
Proof.
  intros (Hstore & Hembed & Hserved). split; (split; [exact Hstore|split; [exact Hembed|]]).
  - intros t d' [<-|[]]. apply Hserved. now left.
  - intros t d' Hin. apply Hserved. now right.
Qed.

Lemma reconcile_all_quiet (sources : list GithubEmbeddingSource) :
  unfailing w sources ->
  forall s,
    post (reconcile_all w sources) s (fun r s' log =>
      Forall (fun e => is_error_line e = false) log).
Proof.
  induction sources as [|d sources IH]; intros Hw s; [constructor|].
  destruct (unfailing_tail d sources Hw) as [Hd Hrest].
  unfold reconcile_all in *. cbn [for_of]. unfold post, bind.
  destruct (reconcile_guarded_run w d s) as (r0 & s1 & log0 & Hrun & ->).
  pose proof (reconcile_ok d s Hd) as Hok. unfold post in Hok. rewrite Hrun in Hok.
  destruct Hok as [-> Hquiet].
  specialize (IH Hrest s1). unfold post in IH.
  destruct (for_of sources (reconcile_guarded w) s1) as [[r s'] log].
  apply Forall_app. now split.
Qed.

End UnfailingRuns.

(** When nothing fails, the reconciliation of a source ends without an
    exception and logs no error, and it leaves the page of the source with
    the checksum of the fetched document.  Either the page had that
    checksum already and the section table is as it was, or the rows of the
    page are the sections of the document, whatever rows an earlier run
    that was cut short had left. *)
Theorem a_reconciliation_without_failure_succeeds {X : Externals} (w : World)
        (embeddingSource : GithubEmbeddingSource) (s : State)
        (fetched : string) (document : ProcessedMdx) :
  unfailing w [embeddingSource] ->
  store_wf (store s) ->
  axios_get w (clock s) (source_url embeddingSource) = Some fetched ->
  processMdxForSearch fetched = Ok document ->
  post (reconcile w embeddingSource) s (fun r s' log =>
    r = Ok tt /\
    Forall (fun e => is_error_line e = false) log /\
    exists p,
      select_page (Some (path embeddingSource)) (store s') = Some p /\
      page_checksum p = Some (checksum document) /\
      ((exists p0,
           select_page (Some (path embeddingSource)) (store s) = Some p0 /\
           page_checksum p0 = Some (checksum document) /\
           nods_page_section (store s') = nods_page_section (store s))
       \/ map section_of_row (rows_of (page_id p) (nods_page_section (store s'))) =
          sections document)).
Proof.
  intros Hw Hwf Hget Hdoc.
  pose proof (reconcile_ok w embeddingSource s Hw) as Hok.
  pose proof (reconcile_success w embeddingSource s) as Hsucc.
  pose proof (reconcile_rewrites_sections w embeddingSource s) as Hrw.
  pose proof (reconcile_unchanged_sections w embeddingSource s) as Hun.
  unfold post in *.
  destruct (reconcile w embeddingSource s) as [[r s'] log].
  destruct Hok as [-> Hquiet]. split; [reflexivity|]. split; [exact Hquiet|].
  destruct (Hsucc eq_refl) as (contents & doc & p & Hget' & Hdoc' & Hp & Hc).
  rewrite Hget in Hget'. inversion Hget'; subst contents.
  rewrite Hdoc in Hdoc'. inversion Hdoc'; subst doc.
  exists p. split; [exact Hp|]. split; [exact Hc|].
  destruct (select_page (Some (path embeddingSource)) (store s)) as [p0|] eqn:Hp0.
  - assert (page_checksum p0 = Some (checksum document) \/
            page_checksum p0 <> Some (checksum document)) as [E|E].
    { destruct (page_checksum p0) as [c0|]; [|right; discriminate].
      destruct (String.eqb c0 (checksum document)) eqn:Ec.
      - apply String.eqb_eq in Ec. left. now subst.
      - apply String.eqb_neq in Ec. right. congruence. }
    + left. exists p0. split; [reflexivity|]. split; [exact E|].
      apply (Hun fetched document p0 Hget Hdoc eq_refl E).
    + right.
      destruct (Hrw eq_refl fetched document Hget Hdoc) as (p' & rows & Hp' & _ & Hmap & Hids & Hs).
      { intros q Hq. inversion Hq; subst q. exact E. }
      rewrite Hp in Hp'. inversion Hp'; subst p'.
      destruct Hs as [Hid ->]. rewrite <- Hid.
      now rewrite rows_of_app, rows_of_delete_same, (rows_of_same _ _ Hids).
  - right.
    destruct (Hrw eq_refl fetched document Hget Hdoc) as (p' & rows & Hp' & _ & Hmap & Hids & Hs).
    { intros q Hq. discriminate. }
    rewrite Hp in Hp'. inversion Hp'; subst p'.
    destruct Hs as [Hid ->].
    rewrite rows_of_app, (rows_of_same _ _ Hids), Hid, (rows_of_fresh _ Hwf). exact Hmap.
Qed.

Lemma a_reconciliation_without_failure_succeeds_witness :
  post (reconcile sample_world (new_GithubEmbeddingSource "guide" "docs/index.mdx" None)
                  (X := sample_externals))
       sample_stale_state
       (fun r s' log => r = Ok tt /\ Forall (fun e => is_error_line e = false) log).
Proof.
  eapply post_conseq.
  - apply (@a_reconciliation_without_failure_succeeds
             sample_externals sample_world
             (new_GithubEmbeddingSource "guide" "docs/index.mdx" None)
             sample_stale_state sample_document
             (mkProcessedMdx sample_document None
                [mkSection ("Intro" ++ String "010" "Hello") (Some "Intro") (Some "intro");
                 mkSection ("Usage" ++ String "010" "Do X") (Some "Usage") (Some "usage");
                 mkSection ("Usage" ++ String "010" "Do Y") (Some "Usage") (Some "usage-1")])).
    + split; [reflexivity|]. split; [discriminate|].
      intros t d _. eexists _, _. split; reflexivity.
    + repeat split; repeat constructor; cbn; intuition lia.
    + reflexivity.
    + reflexivity.
  - intros r s' log (Hr & Hq & _). now split.
Defined.

(** When nothing fails, the loop over sources of distinct paths leaves
    every one of them reconciled: its page carries the checksum of the
    document served for it, and no error is logged. *)
Theorem a_run_without_failure_reconciles_every_source {X : Externals} (w : World)
        (sources : list GithubEmbeddingSource) (s : State) :
  unfailing w sources ->
  store_wf (store s) ->
  NoDup (map path sources) ->
  post (reconcile_all w sources) s (fun r s' log =>
    r = Ok tt /\
    Forall (fun e => is_error_line e = false) log /\
    forall d, In d sources -> reconciled w d (store s')).
Proof.
  intros Hw Hwf Hnd.
  pose proof (reconcile_all_spec w sources s) as Hspec.
  pose proof (reconcile_all_quiet w sources Hw s) as Hquiet.
  unfold post in *.
  destruct (reconcile_all w sources s) as [[r s'] log].
  destruct Hspec as (-> & _ & _ & _ & Hall).
  split; [reflexivity|]. split; [exact Hquiet|].
  intros d Hd. destruct (Hall Hwf Hnd d Hd) as [Hin|Hrec]; [|exact Hrec].
  rewrite Forall_forall in Hquiet. apply Hquiet in Hin. discriminate.
Qed.

Lemma a_run_without_failure_reconciles_every_source_witness :
  post (reconcile_all sample_world sample_sources (X := sample_externals))
       sample_state
       (fun r s' log =>
          r = Ok tt /\
          forall d, In d sample_sources ->
                    @reconciled sample_externals sample_world d (store s')).
Proof.
  eapply post_conseq.
  - apply (@a_run_without_failure_reconciles_every_source
             sample_externals sample_world sample_sources sample_state).
    + split; [reflexivity|]. split; [discriminate|].
      intros t d _. eexists _, _. split; reflexivity.
    + repeat split; constructor.
    + vm_compute. repeat constructor; cbn; intuition discriminate.
  - intros r s' log (Hr & _ & Hall). now split.
Defined.

